(** * kola qemuexec: launch orchestration of [mantle/cmd/kola/qemuexec.go]

    A shallow embedding of [parseBindOpt], [renderFragments] and
    [runQemuExec].  The command-line flags are package-level variables that
    [runQemuExec] mutates, so they are threaded as a record; calls into the
    collaborators ([conf], [platform], [ioutil], the instance) are recorded in
    a chronological trace, and their results are supplied by a [World]. *)

From Stdlib Require Import List String Ascii Bool ZArith Lia.
Import ListNotations.
Local Open Scope string_scope.
Local Open Scope list_scope.

(** ** Go library functions used by the file *)

Module GoStrings.

(** [strings.Index] for a one-byte separator, returned as the split of the
    string around the first occurrence. *)
Fixpoint cut (sep : ascii) (s : string) : option (string * string) :=
  match s with
  | EmptyString => None
  | String c r =>
      if Ascii.eqb c sep then Some (EmptyString, r)
      else match cut sep r with
           | Some (a, b) => Some (String c a, b)
           | None => None
           end
  end.

(** [strings.SplitN s sep n] for a one-byte [sep] and [n = S k >= 1]:
    at most [k] cuts, the remainder is the last element. *)
Fixpoint SplitN (s : string) (sep : ascii) (k : nat) : list string :=
  match k with
  | O => [s]
  | S k' =>
      match cut sep s with
      | None => [s]
      | Some (a, b) => a :: SplitN b sep k'
      end
  end.

(** [strings.HasPrefix s p]. *)
Definition HasPrefix (s p : string) : bool := String.prefix p s.

(** Number of occurrences of a byte. *)
Fixpoint count (sep : ascii) (s : string) : nat :=
  match s with
  | EmptyString => O
  | String c r => (if Ascii.eqb c sep then 1 else 0) + count sep r
  end.

Definition is_slash (c : ascii) : bool := Ascii.eqb c "/"%char.

Fixpoint drop_slashes (l : list ascii) : list ascii :=
  match l with
  | c :: r => if is_slash c then drop_slashes r else l
  | [] => []
  end.

Fixpoint take_element (l : list ascii) : list ascii :=
  match l with
  | c :: r => if is_slash c then [] else c :: take_element r
  | [] => []
  end.

(** [filepath.Base] on a Unix host (no volume names). *)
Definition Base (path : string) : string :=
  match path with
  | EmptyString => "."
  | _ =>
      let stripped := drop_slashes (rev (list_ascii_of_string path)) in
      match rev (take_element stripped) with
      | [] => "/"
      | last => string_of_list_ascii last
      end
  end.

End GoStrings.

(** ** Errors *)

(** [fmt.Errorf], [errors.Wrapf] and the errors handed back by collaborators. *)
Inductive error : Type :=
| Errorf (msg : string)
| Wrapf (cause : error) (msg : string)
| External (e : string).

(** [Error()]: the text of [fmt.Errorf] and of a collaborator's error is
    the text itself; [errors.Wrapf] gives its message, ": " and the text of
    the cause. *)
Fixpoint message (e : error) : string :=
  match e with
  | Errorf msg => msg
  | Wrapf cause msg => msg ++ ": " ++ message cause
  | External text => text
  end.

(** [Error()] of an [*os.PathError]: the operation, the path and the
    underlying error. *)
Definition PathError (op path cause : string) : string :=
  op ++ " " ++ path ++ ": " ++ cause.

(** ** Data *)

(** The package-level flag variables. *)
Record Flags : Type := mkFlags {
  memory : Z;
  addDisks : list string;
  usernet : bool;
  cpuCountHost : bool;
  hostname : string;
  ignition : string;
  kargs : string;
  knetargs : string;
  ignitionFragments : list string;
  bindro : list string;
  bindrw : list string;
  directIgnition : bool;
  forceConfigInjection : bool;
  propagateInitramfsFailure : bool;
  devshell : bool;
  devshellConsole : bool;
  consoleFile : string
}.

(** What [runQemuExec] reads from the [kola] package and from its sibling
    files: [kola.QEMUOptions], [kola.QEMUIsoOptions], [kola.Options],
    [kolaPlatform], [devshellHostname] and [kola.IsIgnitionV2()]. *)
Record Kola : Type := mkKola {
  QEMUOptions_DiskImage : string;
  QEMUOptions_DiskSize : string;
  QEMUOptions_Firmware : string;
  QEMUOptions_Nvme : bool;
  QEMUOptions_Native4k : bool;
  QEMUOptions_MultiPathDisk : bool;
  QEMUOptions_NbdDisk : bool;
  QEMUIsoOptions_IsoPath : string;
  Options_CosaWorkdir : string;
  kolaPlatform : string;
  devshellHostname : string;
  IsIgnitionV2 : bool
}.

(** [platform.Disk], the fields the command fills. *)
Record Disk : Type := mkDisk {
  BackingFile : string;
  Channel : string;
  Size : string;
  SectorSize : Z;
  MultiPathDisk : bool;
  NbdDisk : bool
}.

Record HostForwardPort : Type := mkHostForwardPort {
  Service : string;
  HostPort : Z;
  GuestPort : Z
}.

(** Modelled from the spec: [conf.UserData] is declared in
    [mantle/platform/conf], outside the files at hand.  A document is
    rendered from "empty template or file contents". *)
Inductive UserData : Type :=
| EmptyIgnition
| Ignition (contents : string).

(** Modelled from the spec: the mutations of a rendered document,
    "addAutoLogin(document)" and "addMountPoint(document, guestPath,
    readOnly)"; their code is in [mantle/platform/conf]. *)
Inductive ConfEdit : Type :=
| AutoLogin
| MountUnit (dest : string) (readOnly : bool).

(** Modelled from the spec: [conf.Conf], declared in
    [mantle/platform/conf], is "a structured document produced by rendering
    a source against a target schema version, then mutated by fragment
    injection and mount-point declarations".  It is kept as the source it
    was rendered from, the schema flag, and the edits applied since, oldest
    first. *)
Record Conf : Type := mkConf {
  conf_source : UserData;
  conf_v2 : bool;
  conf_edits : list ConfEdit
}.

(** Assignments to exported fields of the [platform.QemuBuilder]. *)
Inductive BuilderField : Type :=
| ForceConfigInjection (b : bool)
| IgnitionNetworkKargs (s : string)
| AppendKernelArguments (s : string)
| Firmware (s : string)
| Hostname (s : string)
| Memory (m : Z)
| Processors (n : Z)
| InheritConsole (b : bool)
| ConsoleFile (s : string)
| ConfigFile (s : string).

(** Calls that leave [runQemuExec]. *)
Inductive Event : Type :=
| EvCancel
| EvReadFile (path : string)
| EvRender (src : UserData) (v2 : bool)
| EvNewBuilder
| EvBuilderClose
| EvBuilderMount9p (src dest : string) (readOnly : bool)
| EvBuilderSet (f : BuilderField)
| EvAddBootDisk (d : Disk)
| EvAddIso (path label : string)
| EvAddDisk (d : Disk)
| EvEnableUsermodeNetworking (h : list HostForwardPort)
| EvAppend (args : list string)
| EvSetConfig (c : Conf)
| EvRunDevShellSSH (c : option Conf)
| EvExec
| EvWaitAll
| EvWait
| EvDestroy.

(** Result of a collaborator that may fail. *)
Inductive io (A : Type) : Type :=
| Ok (a : A)
| Fail (e : string).
Arguments Ok {A} a.
Arguments Fail {A} e.

(** The collaborators.  Each answer may depend on everything that happened
    before the call. *)
Record World : Type := mkWorld {
  ReadFile : list Event -> string -> io string;
  Render : list Event -> UserData -> bool -> io unit;
  AddBootDisk : list Event -> Disk -> io unit;
  AddIso : list Event -> string -> string -> io unit;
  AddDisk : list Event -> Disk -> io unit;
  Exec : list Event -> io unit;
  WaitAll : list Event -> io unit;
  Wait : list Event -> io unit;
  runDevShellSSH : list Event -> option Conf -> io unit
}.

(** ** Control flow of a Go function body *)

(** How a call of [runQemuExec] ends: [return err] (with [None] for [nil]),
    or a nil-pointer panic. *)
Inductive result : Type :=
| Returned (err : option error)
| Panicked.

(** A statement either falls through with a value or leaves the function. *)
Inductive step (A : Type) : Type :=
| Next (a : A)
| Stop (r : result).
Arguments Next {A} a.
Arguments Stop {A} r.

(** The variables of a run: the flags, the local [config] pointer ([None] is
    [nil]), the calls made so far, and the stack of deferred calls, latest on
    top. *)
Record St : Type := mkSt {
  flags : Flags;
  config : option Conf;
  trace : list Event;
  deferred : list Event
}.

Definition M (A : Type) : Type := St -> step A * St.

Definition ret {A} (a : A) : M A := fun s => (Next a, s).

Definition bind {A B} (m : M A) (f : A -> M B) : M B :=
  fun s =>
    match m s with
    | (Next a, s') => f a s'
    | (Stop r, s') => (Stop r, s')
    end.

Declare Scope go_scope.
Delimit Scope go_scope with go.
Notation "x <- m ;; k" := (bind m (fun x => k))
  (at level 100, m at next level, right associativity) : go_scope.
Notation "m ;; k" := (bind m (fun _ => k))
  (at level 100, right associativity) : go_scope.
Local Open Scope go_scope.

Definition return_ {A} (err : option error) : M A :=
  fun s => (Stop (Returned err), s).

Definition emit (e : Event) : M unit :=
  fun s => (Next tt, mkSt (flags s) (config s) (trace s ++ [e]) (deferred s)).

Definition defer (e : Event) : M unit :=
  fun s => (Next tt, mkSt (flags s) (config s) (trace s) (e :: deferred s)).

(** Call a collaborator: the call is recorded, then the world answers. *)
Definition call {A} (e : Event) (f : list Event -> io A) : M (io A) :=
  fun s =>
    let t := trace s ++ [e] in
    (Next (f t), mkSt (flags s) (config s) t (deferred s)).

Definition getFlags : M Flags := fun s => (Next (flags s), s).

Definition setFlags (f : Flags) : M unit :=
  fun s => (Next tt, mkSt f (config s) (trace s) (deferred s)).

Definition getConfig : M (option Conf) := fun s => (Next (config s), s).

Definition setConfig (c : option Conf) : M unit :=
  fun s => (Next tt, mkSt (flags s) c (trace s) (deferred s)).

Definition when (b : bool) (m : M unit) : M unit := if b then m else ret tt.

(** Assignments to the flag variables that [runQemuExec] writes. *)
Definition set_devshell (v : bool) (f : Flags) : Flags :=
  mkFlags (memory f) (addDisks f) (usernet f) (cpuCountHost f) (hostname f)
    (ignition f) (kargs f) (knetargs f) (ignitionFragments f) (bindro f)
    (bindrw f) (directIgnition f) (forceConfigInjection f)
    (propagateInitramfsFailure f) v (devshellConsole f) (consoleFile f).

Definition set_ignitionFragments (v : list string) (f : Flags) : Flags :=
  mkFlags (memory f) (addDisks f) (usernet f) (cpuCountHost f) (hostname f)
    (ignition f) (kargs f) (knetargs f) v (bindro f)
    (bindrw f) (directIgnition f) (forceConfigInjection f)
    (propagateInitramfsFailure f) (devshell f) (devshellConsole f)
    (consoleFile f).

Definition set_cpuCountHost (v : bool) (f : Flags) : Flags :=
  mkFlags (memory f) (addDisks f) (usernet f) v (hostname f)
    (ignition f) (kargs f) (knetargs f) (ignitionFragments f) (bindro f)
    (bindrw f) (directIgnition f) (forceConfigInjection f)
    (propagateInitramfsFailure f) (devshell f) (devshellConsole f)
    (consoleFile f).

Definition set_usernet (v : bool) (f : Flags) : Flags :=
  mkFlags (memory f) (addDisks f) v (cpuCountHost f) (hostname f)
    (ignition f) (kargs f) (knetargs f) (ignitionFragments f) (bindro f)
    (bindrw f) (directIgnition f) (forceConfigInjection f)
    (propagateInitramfsFailure f) (devshell f) (devshellConsole f)
    (consoleFile f).

Definition set_bindro (v : list string) (f : Flags) : Flags :=
  mkFlags (memory f) (addDisks f) (usernet f) (cpuCountHost f) (hostname f)
    (ignition f) (kargs f) (knetargs f) (ignitionFragments f) v
    (bindrw f) (directIgnition f) (forceConfigInjection f)
    (propagateInitramfsFailure f) (devshell f) (devshellConsole f)
    (consoleFile f).

Definition set_bindrw (v : list string) (f : Flags) : Flags :=
  mkFlags (memory f) (addDisks f) (usernet f) (cpuCountHost f) (hostname f)
    (ignition f) (kargs f) (knetargs f) (ignitionFragments f) (bindro f)
    v (directIgnition f) (forceConfigInjection f)
    (propagateInitramfsFailure f) (devshell f) (devshellConsole f)
    (consoleFile f).

Definition set_hostname (v : string) (f : Flags) : Flags :=
  mkFlags (memory f) (addDisks f) (usernet f) (cpuCountHost f) v
    (ignition f) (kargs f) (knetargs f) (ignitionFragments f) (bindro f)
    (bindrw f) (directIgnition f) (forceConfigInjection f)
    (propagateInitramfsFailure f) (devshell f) (devshellConsole f)
    (consoleFile f).

Definition modifyFlags (g : Flags -> Flags) : M unit :=
  f <- getFlags ;; setFlags (g f).

Definition is_empty (s : string) : bool := String.eqb s EmptyString.

(** ** The methods of [*conf.Conf] the command calls *)

(** Modelled from the spec: [AddAutoLogin] of [*conf.Conf], "inject an
    auto-login mechanism into the document"; it returns nothing. *)
Definition AddAutoLogin (c : Conf) : Conf :=
  mkConf (conf_source c) (conf_v2 c) (conf_edits c ++ [AutoLogin]).

(** Modelled from the spec: [Mount9p] of [*conf.Conf], the declaration of a
    mount point with its guest path and access mode; it returns nothing. *)
Definition Mount9p (c : Conf) (dest : string) (readOnly : bool) : Conf :=
  mkConf (conf_source c) (conf_v2 c) (conf_edits c ++ [MountUnit dest readOnly]).

(** ** [renderFragments] *)

(** [c] is a [*conf.Conf]; the document it points to is updated in place, so
    the document is returned next to the outcome.  A method call through a
    nil [c] panics. *)
Fixpoint renderFragments (fragments : list string) (c : option Conf)
  : step (option error) * option Conf :=
  match fragments with
  | [] => (Next None, c)
  | fragtype :: rest =>
      if String.eqb fragtype "autologin" then
        match c with
        | Some d => renderFragments rest (Some (AddAutoLogin d))
        | None => (Stop Panicked, c)
        end
      else (Next (Some (Errorf ("Unknown fragment: " ++ fragtype))), c)
  end.

(** ** [parseBindOpt] *)

Definition parseBindOpt (s : string) : string * string * option error :=
  let parts := GoStrings.SplitN s ","%char 1 in
  if Nat.eqb (List.length parts) 1 then
    (EmptyString, EmptyString, Some (Errorf "malformed bind option, required: SRC,DEST"))
  else (nth 0 parts EmptyString, nth 1 parts EmptyString, None).

(** ** [runQemuExec] *)

Section Run.

Variable w : World.
Variable k : Kola.

(** Lift a pointer-level operation on [config] into the body. *)
Definition onConfig {A} (op : option Conf -> step A * option Conf) : M A :=
  fun s =>
    let '(r, c) := op (config s) in
    (r, mkSt (flags s) c (trace s) (deferred s)).

(** [config.Mount9p(dest, readOnly)] through the [config] pointer. *)
Definition config_Mount9p (dest : string) (readOnly : bool) : M unit :=
  onConfig (fun c =>
    match c with
    | Some d => (Next tt, Some (Mount9p d dest readOnly))
    | None => (Stop Panicked, c)
    end).

(** The [if devshellConsole] and [if devshell] blocks. *)
Definition devshellSetup : M unit :=
  f <- getFlags ;;
  when (devshellConsole f)
    (modifyFlags (set_devshell true) ;;
     if negb (is_empty (consoleFile f)) then
       return_ (Some (Errorf "Cannot use console devshell and --console-to-file"))
     else ret tt) ;;
  f <- getFlags ;;
  when (devshell f)
    (if directIgnition f then
       return_ (Some (Errorf "Cannot use devshell with direct ignition"))
     else if is_empty (QEMUOptions_DiskImage k) && String.eqb (kolaPlatform k) "qemu" then
       return_ (Some (Errorf "No disk image provided"))
     else
       modifyFlags (fun f => set_ignitionFragments (ignitionFragments f ++ ["autologin"]) f) ;;
       modifyFlags (set_cpuCountHost true) ;;
       modifyFlags (set_usernet true) ;;
       when (negb (is_empty (Options_CosaWorkdir k))
             && negb (GoStrings.HasPrefix (GoStrings.Base (QEMUOptions_DiskImage k)) "rhcos"))
         (modifyFlags (fun f =>
            set_bindro (bindro f ++ [(Options_CosaWorkdir k ++ ",/var/mnt/workdir")%string]) f) ;;
          modifyFlags (fun f =>
            set_bindrw
              (bindrw f
               ++ [((Options_CosaWorkdir k ++ "/tmp") ++ ",/var/mnt/workdir-tmp")%string])
              f)) ;;
       f <- getFlags ;;
       when (is_empty (hostname f))
         (modifyFlags (set_hostname (devshellHostname k)))).

(** From the [ignition-direct] path check to the end of the rendering
    block. *)
Definition prepareConfig : M unit :=
  f <- getFlags ;;
  if directIgnition f && is_empty (ignition f) then
    return_ (Some (Errorf "Cannot use ignition-direct without a path to an Ignition config"))
  else
    when (negb (directIgnition f))
      (if is_empty (ignition f) then
         r <- call (EvRender EmptyIgnition (IsIgnitionV2 k))
                   (fun t => Render w t EmptyIgnition (IsIgnitionV2 k)) ;;
         match r with
         | Fail e => return_ (Some (Wrapf (External e) "creating empty config"))
         | Ok _ => setConfig (Some (mkConf EmptyIgnition (IsIgnitionV2 k) []))
         end
       else
         b <- call (EvReadFile (ignition f)) (fun t => ReadFile w t (ignition f)) ;;
         match b with
         | Fail e => return_ (Some (External e))
         | Ok buf =>
             r <- call (EvRender (Ignition buf) (IsIgnitionV2 k))
                       (fun t => Render w t (Ignition buf) (IsIgnitionV2 k)) ;;
             match r with
             | Fail e => return_ (Some (Wrapf (External e) ("parsing " ++ ignition f)))
             | Ok _ => setConfig (Some (mkConf (Ignition buf) (IsIgnitionV2 k) []))
             end
         end).

(** The [if len(ignitionFragments) > 0] block. *)
Definition applyFragments : M unit :=
  f <- getFlags ;;
  when (Nat.ltb 0 (List.length (ignitionFragments f)))
    (if directIgnition f then
       return_ (Some (Errorf "Cannot use fragments with direct ignition"))
     else
       err <- onConfig (renderFragments (ignitionFragments f)) ;;
       match err with
       | Some e => return_ (Some (Wrapf e "rendering fragments"))
       | None => ret tt
       end).

(** One [for _, b := range ...] loop over bind specs; the two loops differ
    only in the access mode. *)
Fixpoint mountLoop (readOnly : bool) (binds : list string) : M unit :=
  match binds with
  | [] => ret tt
  | b :: rest =>
      f <- getFlags ;;
      if directIgnition f then
        return_ (Some (Errorf "Cannot use mounts with direct ignition"))
      else
        let '(src, dest, err) := parseBindOpt b in
        match err with
        | Some e => return_ (Some e)
        | None =>
            emit (EvBuilderMount9p src dest readOnly) ;;
            config_Mount9p dest readOnly ;;
            mountLoop readOnly rest
        end
  end.

(** [platform.NewBuilder()], its deferred [Close], and both loops. *)
Definition mounts : M unit :=
  emit EvNewBuilder ;;
  defer EvBuilderClose ;;
  f <- getFlags ;;
  mountLoop true (bindro f) ;;
  f <- getFlags ;;
  mountLoop false (bindrw f).

(** The [for _, size := range addDisks] loop. *)
Fixpoint addDiskLoop (sizes : list string) : M unit :=
  match sizes with
  | [] => ret tt
  | size :: rest =>
      let d := mkDisk EmptyString EmptyString size 0 false false in
      r <- call (EvAddDisk d) (fun t => AddDisk w t d) ;;
      match r with
      | Fail e => return_ (Some (Wrapf (External e) "adding additional disk"))
      | Ok _ => addDiskLoop rest
      end
  end.

(** The boot disk handed to [builder.AddBootDisk]. *)
Definition bootDisk : Disk :=
  let channel := if QEMUOptions_Nvme k then "nvme" else "virtio" in
  let sectorSize := if QEMUOptions_Native4k k then 4096%Z else 0%Z in
  mkDisk (QEMUOptions_DiskImage k) channel (QEMUOptions_DiskSize k)
    sectorSize (QEMUOptions_MultiPathDisk k) (QEMUOptions_NbdDisk k).

(** From [builder.ForceConfigInjection = ...] to [builder.Append(args...)]. *)
Definition assemble (args : list string) : M unit :=
  f <- getFlags ;;
  emit (EvBuilderSet (ForceConfigInjection (forceConfigInjection f))) ;;
  when (Nat.ltb 0 (String.length (knetargs f)))
    (emit (EvBuilderSet (IgnitionNetworkKargs (knetargs f)))) ;;
  emit (EvBuilderSet (AppendKernelArguments (kargs f))) ;;
  emit (EvBuilderSet (Firmware (QEMUOptions_Firmware k))) ;;
  when (negb (is_empty (QEMUOptions_DiskImage k)))
    (r <- call (EvAddBootDisk bootDisk) (fun t => AddBootDisk w t bootDisk) ;;
     match r with
     | Fail e => return_ (Some (External e))
     | Ok _ => ret tt
     end) ;;
  when (negb (is_empty (QEMUIsoOptions_IsoPath k)))
    (r <- call (EvAddIso (QEMUIsoOptions_IsoPath k) EmptyString)
               (fun t => AddIso w t (QEMUIsoOptions_IsoPath k) EmptyString) ;;
     match r with
     | Fail e => return_ (Some (External e))
     | Ok _ => ret tt
     end) ;;
  emit (EvBuilderSet (Hostname (hostname f))) ;;
  when (negb (Z.eqb (memory f) 0))
    (emit (EvBuilderSet (Memory (memory f)))) ;;
  addDiskLoop (addDisks f) ;;
  when (cpuCountHost f)
    (emit (EvBuilderSet (Processors (-1)))) ;;
  when (usernet f)
    (emit (EvEnableUsermodeNetworking [mkHostForwardPort "ssh" 0 22])) ;;
  emit (EvBuilderSet (InheritConsole true)) ;;
  emit (EvBuilderSet (ConsoleFile (consoleFile f))) ;;
  emit (EvAppend args).

Definition io_error (r : io unit) : option error :=
  match r with
  | Ok _ => None
  | Fail e => Some (External e)
  end.

(** [if config != nil { ... } else if directIgnition { ... }]. *)
Definition handOver : M unit :=
  f <- getFlags ;;
  c <- getConfig ;;
  match c with
  | Some d =>
      if directIgnition f then
        return_ (Some (Errorf "Cannot use fragments/mounts with direct ignition"))
      else emit (EvSetConfig d)
  | None =>
      when (directIgnition f) (emit (EvBuilderSet (ConfigFile (ignition f))))
  end.

(** From [builder.Exec()] to the end. *)
Definition launch : M Empty_set :=
  f <- getFlags ;;
  inst <- call EvExec (Exec w) ;;
  match inst with
  | Fail e => return_ (Some (External e))
  | Ok _ =>
      defer EvDestroy ;;
      if propagateInitramfsFailure f then
        err <- call EvWaitAll (WaitAll w) ;;
        match err with
        | Fail e => return_ (Some (External e))
        | Ok _ => return_ None
        end
      else
        err <- call EvWait (Wait w) ;;
        return_ (io_error err)
  end.

(** From [if devshell && !devshellConsole] to the end: choose the driver,
    hand the configuration over, launch, and wait. *)
Definition drive : M Empty_set :=
  f <- getFlags ;;
  c <- getConfig ;;
  (if devshell f && negb (devshellConsole f) then
     r <- call (EvRunDevShellSSH c) (fun t => runDevShellSSH w t c) ;;
     return_ (io_error r)
   else ret tt) ;;
  handOver ;;
  launch.

(** Everything up to [builder.Append(args...)], after
    [defer cancel()]. *)
Definition prelude (args : list string) : M unit :=
  defer EvCancel ;;
  devshellSetup ;;
  prepareConfig ;;
  applyFragments ;;
  mounts ;;
  assemble args.

(** The statements of the body, in order. *)
Definition body (args : list string) : M Empty_set :=
  prelude args ;;
  drive.

(** One finished run: how it ended, the flag variables and the [config]
    pointer as it left them, and every call it made. *)
Record Run : Type := mkRun {
  run_result : result;
  run_flags : Flags;
  run_config : option Conf;
  run_trace : list Event
}.

Definition initial (f : Flags) : St := mkSt f None [] [].

(** Leaving the function runs the deferred calls, latest first. *)
Definition finish (r : result) (s : St) : Run :=
  mkRun r (flags s) (config s) (trace s ++ deferred s).

Definition runQemuExec (args : list string) (f : Flags) : Run :=
  match body args (initial f) with
  | (Stop r, s) => finish r s
  | (Next a, _) => match a with end
  end.

End Run.

(** * Vocabulary of the statements *)

(** The reading of "exactly one separator is required": a bind option is
    well formed when it holds one comma. *)
Definition one_separator (s : string) : Prop := GoStrings.count ","%char s = 1.

(** The flags that [runQemuExec] only reads. *)
Definition same_inputs (f f' : Flags) : Prop :=
  memory f' = memory f /\ addDisks f' = addDisks f
  /\ ignition f' = ignition f /\ kargs f' = kargs f
  /\ knetargs f' = knetargs f /\ directIgnition f' = directIgnition f
  /\ forceConfigInjection f' = forceConfigInjection f
  /\ propagateInitramfsFailure f' = propagateInitramfsFailure f
  /\ devshellConsole f' = devshellConsole f
  /\ consoleFile f' = consoleFile f.

(** The flags after a devshell block that fell through. *)
Definition devshell_post (k : Kola) (f f' : Flags) : Prop :=
  devshell f' = devshell f || devshellConsole f
  /\ (devshell f' = false -> f' = f)
  /\ (devshell f' = true ->
      directIgnition f = false
      /\ usernet f' = true
      /\ cpuCountHost f' = true
      /\ ignitionFragments f' = ignitionFragments f ++ ["autologin"]
      /\ hostname f' = (if is_empty (hostname f) then devshellHostname k
                        else hostname f)
      /\ (exists auto, bindro f' = bindro f ++ auto)
      /\ (exists auto, bindrw f' = bindrw f ++ auto)).

(** The statement group an event is issued from: 1 rendering, 2 builder
    creation and mounts, 3 assembly, 4 hand-over, launch and wait,
    5 deferred calls. *)
Definition phase_of (e : Event) : nat :=
  match e with
  | EvReadFile _ | EvRender _ _ => 1
  | EvNewBuilder | EvBuilderMount9p _ _ _ => 2
  | EvBuilderSet (ConfigFile _) => 4
  | EvBuilderSet _ | EvAddBootDisk _ | EvAddIso _ _ | EvAddDisk _
  | EvEnableUsermodeNetworking _ | EvAppend _ => 3
  | EvSetConfig _ | EvRunDevShellSSH _ | EvExec | EvWaitAll | EvWait => 4
  | EvDestroy | EvBuilderClose | EvCancel => 5
  end.

(** [s'] extends the trace of [s] by events of phase [n]. *)
Definition extends (n : nat) (s s' : St) : Prop :=
  exists evs, trace s' = trace s ++ evs /\ Forall (fun e => phase_of e = n) evs.

(** Bindings declared by a loop, as builder calls and as document edits. *)
Definition builderMounts (readOnly : bool) (done : list (string * string))
  : list Event :=
  map (fun p => EvBuilderMount9p (fst p) (snd p) readOnly) done.

Definition confMounts (readOnly : bool) (done : list (string * string))
  : list ConfEdit :=
  map (fun p => MountUnit (snd p) readOnly) done.

(** ** Frames and calls *)

(** [m] leaves flags, [config] and the deferred stack alone, and every call
    it makes satisfies [P]. *)
Definition emits (P : Event -> Prop) {A} (m : M A) : Prop :=
  forall s r s',
    m s = (r, s') ->
    flags s' = flags s /\ config s' = config s /\ deferred s' = deferred s
    /\ exists evs, trace s' = trace s ++ evs /\ Forall P evs.

(** Calls issued by the assembly: of phase 3, and a boot disk only as the
    platform options describe it. *)
Definition assembly_call (k : Kola) (e : Event) : Prop :=
  phase_of e = 3
  /\ (forall d, e = EvAddBootDisk d ->
      is_empty (QEMUOptions_DiskImage k) = false /\ d = bootDisk k).

(** [m] makes the call [e] whenever it falls through. *)
Definition calls (e : Event) {A} (m : M A) : Prop :=
  forall s a s',
    m s = (Next a, s') -> exists evs, trace s' = trace s ++ evs /\ In e evs.

Definition any_call (e : Event) : Prop := True.

(** Calls made before the driver: phases 1 to 3, and a boot disk only as
    the platform options describe it. *)
Definition prelude_call (k : Kola) (e : Event) : Prop :=
  phase_of e <= 3
  /\ (forall d, e = EvAddBootDisk d ->
      is_empty (QEMUOptions_DiskImage k) = false /\ d = bootDisk k).

Definition is_destroy (e : Event) : bool :=
  match e with EvDestroy => true | _ => false end.

Definition occurrences (p : Event -> bool) (t : list Event) : nat :=
  List.length (filter p t).

(** The calls by which the configuration is handed to the builder. *)
Definition handover (s : St) : list Event :=
  match config s with
  | Some d => [EvSetConfig d]
  | None =>
      if directIgnition (flags s)
      then [EvBuilderSet (ConfigFile (ignition (flags s)))]
      else []
  end.

(** The wait a launched run blocks on, and the instance's answer. *)
Definition wait_call (f : Flags) : Event :=
  if propagateInitramfsFailure f then EvWaitAll else EvWait.

Definition wait_answer (w : World) (f : Flags) (t : list Event) : io unit :=
  if propagateInitramfsFailure f then WaitAll w t else Wait w t.

(** ** Sample inputs *)

(** A world in which every collaborator succeeds. *)
Definition calm : World :=
  mkWorld (fun _ _ => Ok "{}") (fun _ _ _ => Ok tt) (fun _ _ => Ok tt)
    (fun _ _ _ => Ok tt) (fun _ _ => Ok tt) (fun _ => Ok tt)
    (fun _ => Ok tt) (fun _ => Ok tt) (fun _ _ => Ok tt).

(** As [calm], but the instance reports a failure from both waits. *)
Definition failing_boot : World :=
  mkWorld (fun _ _ => Ok "{}") (fun _ _ _ => Ok tt) (fun _ _ => Ok tt)
    (fun _ _ _ => Ok tt) (fun _ _ => Ok tt) (fun _ => Ok tt)
    (fun _ => Fail "initramfs") (fun _ => Fail "console") (fun _ _ => Ok tt).

(** As [calm], but no file exists: [ioutil.ReadFile] fails in [os.Open]. *)
Definition unreadable : World :=
  mkWorld (fun _ path => Fail (PathError "open" path "no such file or directory"))
    (fun _ _ _ => Ok tt) (fun _ _ => Ok tt)
    (fun _ _ _ => Ok tt) (fun _ _ => Ok tt) (fun _ => Ok tt)
    (fun _ => Ok tt) (fun _ => Ok tt) (fun _ _ => Ok tt).

Definition fcos : Kola :=
  mkKola "fcos.qcow2" EmptyString "bios" true true false false EmptyString
    "/work" "qemu" "cosa-devsh" false.

Definition no_flags : Flags :=
  mkFlags 0 [] false false EmptyString EmptyString EmptyString EmptyString
    [] [] [] false false false false false EmptyString.

Definition set_propagateInitramfsFailure (v : bool) (f : Flags) : Flags :=
  mkFlags (memory f) (addDisks f) (usernet f) (cpuCountHost f) (hostname f)
    (ignition f) (kargs f) (knetargs f) (ignitionFragments f) (bindro f)
    (bindrw f) (directIgnition f) (forceConfigInjection f)
    v (devshell f) (devshellConsole f) (consoleFile f).

Definition set_devshellConsole (v : bool) (f : Flags) : Flags :=
  mkFlags (memory f) (addDisks f) (usernet f) (cpuCountHost f) (hostname f)
    (ignition f) (kargs f) (knetargs f) (ignitionFragments f) (bindro f)
    (bindrw f) (directIgnition f) (forceConfigInjection f)
    (propagateInitramfsFailure f) (devshell f) v (consoleFile f).

Definition set_directIgnition (v : bool) (f : Flags) : Flags :=
  mkFlags (memory f) (addDisks f) (usernet f) (cpuCountHost f) (hostname f)
    (ignition f) (kargs f) (knetargs f) (ignitionFragments f) (bindro f)
    (bindrw f) v (forceConfigInjection f)
    (propagateInitramfsFailure f) (devshell f) (devshellConsole f)
    (consoleFile f).

Definition set_ignition (v : string) (f : Flags) : Flags :=
  mkFlags (memory f) (addDisks f) (usernet f) (cpuCountHost f) (hostname f)
    v (kargs f) (knetargs f) (ignitionFragments f) (bindro f)
    (bindrw f) (directIgnition f) (forceConfigInjection f)
    (propagateInitramfsFailure f) (devshell f) (devshellConsole f)
    (consoleFile f).

(** [--propagate-initramfs-failure] alone. *)
Definition headless : Flags := set_propagateInitramfsFailure true no_flags.

(** [--devshell-console --propagate-initramfs-failure]. *)
Definition console_headless : Flags := set_devshellConsole true headless.

(** [--ignition-direct -i x.ign --bind-ro a,b]. *)
Definition direct_bind : Flags :=
  set_bindro ["a,b"] (set_ignition "x.ign" (set_directIgnition true no_flags)).

(** [-i x.ign]. *)
Definition from_file : Flags := set_ignition "x.ign" no_flags.

(** [--devshell]. *)
Definition devshell_only : Flags := set_devshell true no_flags.

Definition launch_pre : list Event :=
  [EvRender EmptyIgnition false; EvNewBuilder;
   EvBuilderSet (ForceConfigInjection false);
   EvBuilderSet (AppendKernelArguments EmptyString);
   EvBuilderSet (Firmware "bios");
   EvAddBootDisk (mkDisk "fcos.qcow2" "nvme" EmptyString 4096 false false);
   EvBuilderSet (Hostname EmptyString);
   EvBuilderSet (InheritConsole true);
   EvBuilderSet (ConsoleFile EmptyString);
   EvAppend [];
   EvSetConfig (mkConf EmptyIgnition false [])].

Definition launch_post : list Event :=
  [EvWaitAll; EvDestroy; EvBuilderClose; EvCancel].

(** ** Execution modes *)

Inductive ExecutionMode : Type :=
| InteractiveConsole
| DevShellOverSSH
| DevShellConsole
| SupervisedHeadless.

(** The blocking operation a run ends in. *)
Inductive Driver : Type :=
| ViaSSH
| ViaWaitAll
| ViaWait.

(** The selection as the specification words it: the mode from the three
    flags, and the operation each mode blocks on ([DevShellConsole] being
    "identical to InteractiveConsole"). *)
Definition spec_ExecutionMode (f : Flags) : ExecutionMode :=
  if devshellConsole f then DevShellConsole
  else if devshell f then DevShellOverSSH
  else if propagateInitramfsFailure f then SupervisedHeadless
  else InteractiveConsole.

Definition spec_Driver (m : ExecutionMode) : Driver :=
  match m with
  | InteractiveConsole | DevShellConsole => ViaWait
  | DevShellOverSSH => ViaSSH
  | SupervisedHeadless => ViaWaitAll
  end.

(** The blocking operations a trace went through. *)
Definition driver_calls (t : list Event) : list Driver :=
  flat_map (fun e =>
              match e with
              | EvRunDevShellSSH _ => [ViaSSH]
              | EvWaitAll => [ViaWaitAll]
              | EvWait => [ViaWait]
              | _ => []
              end) t.

Definition console_headless_ready : St :=
  Eval vm_compute in snd (prelude calm fcos [] (initial console_headless)).

(** ** Option conflicts *)

(** The messages of the option checks. *)
Definition option_conflicts : list string :=
  [ "Cannot use console devshell and --console-to-file";
    "Cannot use devshell with direct ignition";
    "No disk image provided";
    "Cannot use ignition-direct without a path to an Ignition config";
    "Cannot use fragments with direct ignition";
    "Cannot use mounts with direct ignition";
    "Cannot use fragments/mounts with direct ignition" ].

(** Calls on the builder, [platform.NewBuilder()] and the deferred [Close]
    included. *)
Definition is_builder_call (e : Event) : bool :=
  match e with
  | EvNewBuilder | EvBuilderClose | EvBuilderMount9p _ _ _ | EvBuilderSet _
  | EvAddBootDisk _ | EvAddIso _ _ | EvAddDisk _
  | EvEnableUsermodeNetworking _ | EvAppend _ | EvSetConfig _ | EvExec => true
  | _ => false
  end.

(** Calls that render a document or read a file. *)
Definition is_render_or_read (e : Event) : bool :=
  match e with
  | EvReadFile _ | EvRender _ _ => true
  | _ => false
  end.

(** Calls that declare something to a builder or start an instance. *)
Definition declares_or_launches (e : Event) : bool :=
  match e with
  | EvBuilderMount9p _ _ _ | EvBuilderSet _ | EvAddBootDisk _ | EvAddIso _ _
  | EvAddDisk _ | EvEnableUsermodeNetworking _ | EvAppend _ | EvSetConfig _
  | EvRunDevShellSSH _ | EvExec | EvWaitAll | EvWait | EvDestroy => true
  | _ => false
  end.

(** ** Error wrapping *)

(** "Wraps the underlying cause with the source path": the text of the
    error names the path and ends with the text of a cause. *)
Definition carries_path (path : string) (e : error) : Prop :=
  exists pre cause, message e = (pre ++ path ++ ": " ++ cause)%string.


Definition direct_file : Flags :=
  set_ignition "x.ign" (set_directIgnition true no_flags).

Definition direct_file_ready : St :=
  Eval vm_compute in snd (prelude calm fcos [] (initial direct_file)).

(** ** Declared bindings *)

(** The bindings a trace declared to the builder, in order. *)
Definition builder_mounts_of (t : list Event) : list (string * string * bool) :=
  flat_map (fun e =>
              match e with
              | EvBuilderMount9p src dest ro => [(src, dest, ro)]
              | _ => []
              end) t.

(** The bindings declared to the document [c] points to, in order. *)
Definition conf_mounts_of (c : option Conf) : list (string * bool) :=
  match c with
  | None => []
  | Some d =>
      flat_map (fun e =>
                  match e with
                  | MountUnit dest ro => [(dest, ro)]
                  | AutoLogin => []
                  end) (conf_edits d)
  end.

(** [ro] and [rw] are the parsed bind specs declared so far: to the builder
    as [t] has them, to the document as [c] has them, and they are the
    leading specs of the two flag lists, the read-write ones only after all
    the read-only ones. *)
Definition declared (f : Flags) (t : list Event) (c : option Conf)
           (ro rw : list (string * string)) : Prop :=
  builder_mounts_of t
  = map (fun p => (fst p, snd p, true)) ro ++ map (fun p => (fst p, snd p, false)) rw
  /\ conf_mounts_of c
     = map (fun p => (snd p, true)) ro ++ map (fun p => (snd p, false)) rw
  /\ map parseBindOpt (firstn (List.length ro) (bindro f))
     = map (fun p => (fst p, snd p, None)) ro
  /\ map parseBindOpt (firstn (List.length rw) (bindrw f))
     = map (fun p => (fst p, snd p, None)) rw
  /\ (rw <> [] -> List.length ro = List.length (bindro f)).

(** Some call of the assembly was made: the mount loops are behind. *)
Definition assembly_started (t : list Event) : Prop :=
  exists e, In e t /\ phase_of e = 3.

(** [--bind-ro /host/a,/guest/a]. *)
Definition bind_a : Flags := set_bindro ["/host/a,/guest/a"] no_flags.

Definition headless_ready : St :=
  Eval vm_compute in snd (prelude calm fcos [] (initial headless)).

(** ** Ways of leaving *)

(** Every way [m] leaves the function satisfies [Q]. *)
Definition stops (Q : result -> Prop) {A} (m : M A) : Prop :=
  forall s x s', m s = (Stop x, s') -> Q x.

(** The run did not end in the error of the check before [SetConfig]. *)
Definition not_handover_conflict (x : result) : Prop :=
  x <> Returned (Some (Errorf "Cannot use fragments/mounts with direct ignition")).

(** * Vocabulary of the further properties *)

(** ** Assembly *)

(** An additional disk, [&platform.Disk{Size: size}]. *)
Definition extraDisk (size : string) : Disk :=
  mkDisk EmptyString EmptyString size 0 false false.

(** The builder calls of a complete assembly under the flags [f], in
    order. *)
Definition assembled (k : Kola) (args : list string) (f : Flags) : list Event :=
  [EvBuilderSet (ForceConfigInjection (forceConfigInjection f))]
  ++ (if Nat.ltb 0 (String.length (knetargs f))
      then [EvBuilderSet (IgnitionNetworkKargs (knetargs f))] else [])
  ++ [EvBuilderSet (AppendKernelArguments (kargs f));
      EvBuilderSet (Firmware (QEMUOptions_Firmware k))]
  ++ (if negb (is_empty (QEMUOptions_DiskImage k))
      then [EvAddBootDisk (bootDisk k)] else [])
  ++ (if negb (is_empty (QEMUIsoOptions_IsoPath k))
      then [EvAddIso (QEMUIsoOptions_IsoPath k) EmptyString] else [])
  ++ [EvBuilderSet (Hostname (hostname f))]
  ++ (if negb (Z.eqb (memory f) 0)
      then [EvBuilderSet (Memory (memory f))] else [])
  ++ map (fun size => EvAddDisk (extraDisk size)) (addDisks f)
  ++ (if cpuCountHost f then [EvBuilderSet (Processors (-1))] else [])
  ++ (if usernet f
      then [EvEnableUsermodeNetworking [mkHostForwardPort "ssh" 0 22]] else [])
  ++ [EvBuilderSet (InheritConsole true);
      EvBuilderSet (ConsoleFile (consoleFile f));
      EvAppend args].

(** [m] adds exactly the calls [full] when it falls through; when it leaves
    it has added leading calls of [full] only, and it returns an error. *)
Definition traces (full : list Event) {A} (m : M A) : Prop :=
  forall s r s',
    m s = (r, s') ->
    exists evs,
      trace s' = trace s ++ evs
      /\ match r with
         | Next _ => evs = full
         | Stop x =>
             (exists rest, full = evs ++ rest)
             /\ exists e, x = Returned (Some e)
         end.

(** The answer of the world to the call [c], made as the last call of
    [t], for the three builder calls that may refuse. *)
Definition answer_of (w : World) (t : list Event) (c : Event)
  : option (io unit) :=
  match c with
  | EvAddBootDisk d => Some (AddBootDisk w t d)
  | EvAddIso p l => Some (AddIso w t p l)
  | EvAddDisk d => Some (AddDisk w t d)
  | _ => None
  end.

(** The error the assembly returns when the call [c] failed with [e]. *)
Definition refusal (c : Event) (e : string) : error :=
  match c with
  | EvAddDisk _ => Wrapf (External e) "adding additional disk"
  | _ => External e
  end.

(** The last call of [s] was refused by the world, and [x] is the return
    of that refusal. *)
Definition refused (w : World) (x : result) (s : St) : Prop :=
  exists pre c e,
    trace s = pre ++ [c]
    /\ answer_of w (trace s) c = Some (Fail e)
    /\ x = Returned (Some (refusal c e)).

(** Every way [m] leaves the function satisfies [Q], with the state it
    leaves in. *)
Definition stops_at (Q : result -> St -> Prop) {A} (m : M A) : Prop :=
  forall s x s', m s = (Stop x, s') -> Q x s'.

(** ** Further sample inputs *)

(** As [calm], but no additional disk can be added. *)
Definition full_disk : World :=
  mkWorld (fun _ _ => Ok "{}") (fun _ _ _ => Ok tt) (fun _ _ => Ok tt)
    (fun _ _ _ => Ok tt) (fun _ _ => Fail "ENOSPC") (fun _ => Ok tt)
    (fun _ => Ok tt) (fun _ => Ok tt) (fun _ _ => Ok tt).

Definition set_addDisks (v : list string) (f : Flags) : Flags :=
  mkFlags (memory f) v (usernet f) (cpuCountHost f) (hostname f)
    (ignition f) (kargs f) (knetargs f) (ignitionFragments f) (bindro f)
    (bindrw f) (directIgnition f) (forceConfigInjection f)
    (propagateInitramfsFailure f) (devshell f) (devshellConsole f)
    (consoleFile f).

(** [--add-disk 1G --add-disk 2G]. *)
Definition two_disks : Flags := set_addDisks ["1G"; "2G"] no_flags.

Definition two_disks_stopped : St :=
  Eval vm_compute in snd (prelude full_disk fcos [] (initial two_disks)).

(** ** Option checks *)

(** The run [R] was rejected with [msg] before anything happened: nothing
    was rendered, read or built, only the deferred cancel ran. *)
Definition rejected_early (R : Run) (msg : string) : Prop :=
  run_result R = Returned (Some (Errorf msg))
  /\ run_config R = None
  /\ run_trace R = [EvCancel].

Definition set_consoleFile (v : string) (f : Flags) : Flags :=
  mkFlags (memory f) (addDisks f) (usernet f) (cpuCountHost f) (hostname f)
    (ignition f) (kargs f) (knetargs f) (ignitionFragments f) (bindro f)
    (bindrw f) (directIgnition f) (forceConfigInjection f)
    (propagateInitramfsFailure f) (devshell f) (devshellConsole f) v.

(** [--devshell-console --console-to-file log]. *)
Definition console_to_file : Flags :=
  set_consoleFile "log" (set_devshellConsole true no_flags).

(** ** Devshell mounts *)

(** The condition of the devshell block for mounting the working directory:
    one is configured, and the base name of the disk image does not start
    with "rhcos". *)
Definition automounts (k : Kola) : bool :=
  negb (is_empty (Options_CosaWorkdir k))
  && negb (GoStrings.HasPrefix (GoStrings.Base (QEMUOptions_DiskImage k)) "rhcos").

(** [--devshell --hostname box]. *)
Definition devshell_box : Flags := set_hostname "box" (set_devshell true no_flags).

Definition devshell_box_ready : St :=
  Eval vm_compute in snd (prelude calm fcos [] (initial devshell_box)).

(** ** Launch *)

Definition is_exec (e : Event) : bool :=
  match e with EvExec => true | _ => false end.

(** As [calm], but the launch fails. *)
Definition no_kvm : World :=
  mkWorld (fun _ _ => Ok "{}") (fun _ _ _ => Ok tt) (fun _ _ => Ok tt)
    (fun _ _ _ => Ok tt) (fun _ _ => Ok tt) (fun _ => Fail "no kvm")
    (fun _ => Ok tt) (fun _ => Ok tt) (fun _ _ => Ok tt).

Definition devshell_only_ready : St :=
  Eval vm_compute in snd (prelude calm fcos [] (initial devshell_only)).

(** ** Fragments and bind specs of a run *)

(** [--add-ignition autologin,motd]. *)
Definition with_motd : Flags :=
  set_ignitionFragments ["autologin"; "motd"] no_flags.

(** [--bind-ro /host/a]: a bind spec with no guest path. *)
Definition bind_no_dest : Flags := set_bindro ["/host/a"] no_flags.

(** [-i x.ign --add-ignition autologin --bind-ro /a,/b --bind-rw /c,/d]. *)
Definition full_document : Flags :=
  set_bindrw ["/c,/d"]
    (set_bindro ["/a,/b"] (set_ignitionFragments ["autologin"] from_file)).

Definition full_document_ready : St :=
  Eval vm_compute in snd (prelude calm fcos [] (initial full_document)).

(** * Proofs *)

(** ** Facts about the string helpers *)

Section Cut.

Import GoStrings.
Variable sep : ascii.

Lemma cut_none (s : string) : cut sep s = None <-> count sep s = 0.
Proof.
  induction s as [|c r IH]; simpl.
  - split; reflexivity.
  - destruct (Ascii.eqb c sep).
    + split; discriminate.
    + destruct (cut sep r) as [[a b]|]; simpl.
      * split; [discriminate|]. intro H. apply IH in H. discriminate.
      * split; [|reflexivity]. intros _. apply IH. reflexivity.
Qed.

Lemma cut_some (s a b : string) :
  cut sep s = Some (a, b) ->
  s = (a ++ String sep b)%string /\ count sep a = 0.
Proof.
  revert a b. induction s as [|c r IH]; simpl; intros a b H.
  - discriminate.
  - destruct (Ascii.eqb c sep) eqn:E.
    + apply Ascii.eqb_eq in E. inversion H; subst. split; reflexivity.
    + destruct (cut sep r) as [[a' b']|]; [|discriminate].
      inversion H; subst. destruct (IH a' b eq_refl) as [-> Hc].
      split; [reflexivity|]. simpl. rewrite E. exact Hc.
Qed.

End Cut.

(** What [parseBindOpt] computes, in terms of the first comma. *)
Lemma parseBindOpt_unfold (s : string) :
  parseBindOpt s =
  match GoStrings.cut ","%char s with
  | None => (EmptyString, EmptyString, Some (Errorf "malformed bind option, required: SRC,DEST"))
  | Some (a, b) => (a, b, None)
  end.
Proof.
  unfold parseBindOpt. simpl.
  destruct (GoStrings.cut ","%char s) as [[a b]|]; reflexivity.
Qed.

(** ** Facts about [renderFragments] *)

Lemma renderFragments_doc (fragments : list string) (c : Conf) :
  exists n err,
    renderFragments fragments (Some c)
    = (Next err,
       Some (mkConf (conf_source c) (conf_v2 c)
               (conf_edits c ++ repeat AutoLogin n)))
    /\ ((err = None /\ Forall (eq "autologin") fragments
         /\ n = List.length fragments)
        \/ (exists pre bad post,
              fragments = pre ++ bad :: post
              /\ Forall (eq "autologin") pre
              /\ bad <> "autologin"
              /\ n = List.length pre
              /\ err = Some (Errorf ("Unknown fragment: " ++ bad)))).
Proof.
  revert c. induction fragments as [|x rest IH]; intros c; simpl.
  - exists 0, None. simpl. rewrite app_nil_r. destruct c; simpl.
    split; [reflexivity|]. left. auto.
  - destruct (String.eqb x "autologin") eqn:E.
    + apply String.eqb_eq in E. subst x.
      destruct (IH (AddAutoLogin c)) as (n & err & Hr & Hc).
      exists (S n), err. split.
      * rewrite Hr. simpl. rewrite <- app_assoc. reflexivity.
      * destruct Hc as [(He & Hall & Hn) | (pre & bad & post & Hf & Hall & Hb & Hn & He)].
        -- left. subst. repeat split; auto.
        -- right. exists ("autologin" :: pre), bad, post.
           subst. repeat split; simpl; auto.
    + apply String.eqb_neq in E.
      exists 0, (Some (Errorf ("Unknown fragment: " ++ x))).
      simpl. rewrite app_nil_r. destruct c; simpl. split; [reflexivity|].
      right. exists [], x, rest. repeat split; auto.
Qed.

(** ** Reasoning about bodies *)

Lemma bind_inv {A B} (m : M A) (f : A -> M B) (s s' : St) (r : step B) :
  bind m f s = (r, s') ->
  (exists a s1, m s = (Next a, s1) /\ f a s1 = (r, s'))
  \/ (exists x, m s = (Stop x, s') /\ r = Stop x).
Proof.
  unfold bind. destruct (m s) as [[a|x] s1]; intros H.
  - left. eauto.
  - right. inversion H; subst. eauto.
Qed.

Lemma devshellSetup_frame (k : Kola) (s s' : St) (r : step unit) :
  devshellSetup k s = (r, s') ->
  config s' = config s /\ trace s' = trace s /\ deferred s' = deferred s
  /\ same_inputs (flags s) (flags s')
  /\ (forall u, r = Next u -> devshell_post k (flags s) (flags s')).
Proof.
  destruct s as [f c t d]. destruct f.
  unfold devshellSetup, same_inputs, devshell_post, bind, when, modifyFlags,
    getFlags, setFlags, return_, ret, bind. cbn.
  intros H.
  repeat match type of H with
         | context [if ?b then _ else _] => destruct b eqn:?; cbn in H
         end;
    inversion H; subst; clear H; cbn;
    repeat split; try reflexivity; try discriminate; intros;
    try discriminate; eauto; try congruence;
    try (symmetry; apply orb_true_r);
    try (exists []; symmetry; apply app_nil_r).
Qed.

Lemma extends_refl n s s' : trace s' = trace s -> extends n s s'.
Proof. intros H. exists []. rewrite app_nil_r. auto. Qed.

Lemma prepareConfig_cases (w : World) (k : Kola) (s : St) :
  let f := flags s in
  let v2 := IsIgnitionV2 k in
  prepareConfig w k s =
  if directIgnition f then
    if is_empty (ignition f) then
      (Stop (Returned (Some (Errorf
         "Cannot use ignition-direct without a path to an Ignition config"))), s)
    else (Next tt, s)
  else if is_empty (ignition f) then
    let t1 := trace s ++ [EvRender EmptyIgnition v2] in
    match Render w t1 EmptyIgnition v2 with
    | Fail e =>
        (Stop (Returned (Some (Wrapf (External e) "creating empty config"))),
         mkSt f (config s) t1 (deferred s))
    | Ok _ =>
        (Next tt, mkSt f (Some (mkConf EmptyIgnition v2 [])) t1 (deferred s))
    end
  else
    let t1 := trace s ++ [EvReadFile (ignition f)] in
    match ReadFile w t1 (ignition f) with
    | Fail e =>
        (Stop (Returned (Some (External e))), mkSt f (config s) t1 (deferred s))
    | Ok buf =>
        let t2 := t1 ++ [EvRender (Ignition buf) v2] in
        match Render w t2 (Ignition buf) v2 with
        | Fail e =>
            (Stop (Returned (Some (Wrapf (External e) ("parsing " ++ ignition f)))),
             mkSt f (config s) t2 (deferred s))
        | Ok _ =>
            (Next tt, mkSt f (Some (mkConf (Ignition buf) v2 [])) t2 (deferred s))
        end
    end.
Proof.
  destruct s as [f c t d]. cbn.
  unfold prepareConfig, bind, getFlags, when, call, return_, ret, setConfig.
  cbn.
  destruct (directIgnition f); cbn.
  - destruct (is_empty (ignition f)); reflexivity.
  - destruct (is_empty (ignition f)); cbn.
    + destruct (Render w _ _ _); reflexivity.
    + destruct (ReadFile w _ _); cbn; [|reflexivity].
      destruct (Render w _ _ _); reflexivity.
Qed.

Lemma extends_one n s s' e :
  trace s' = trace s ++ [e] -> phase_of e = n -> extends n s s'.
Proof. intros H He. exists [e]. split; [exact H|]. repeat constructor. exact He. Qed.

Lemma extends_two n s s' e1 e2 :
  trace s' = (trace s ++ [e1]) ++ [e2] -> phase_of e1 = n -> phase_of e2 = n ->
  extends n s s'.
Proof.
  intros H H1 H2. exists [e1; e2]. split.
  - rewrite H, <- app_assoc. reflexivity.
  - repeat constructor; assumption.
Qed.

Lemma prepareConfig_frame (w : World) (k : Kola) (s s' : St) (r : step unit) :
  prepareConfig w k s = (r, s') ->
  flags s' = flags s /\ deferred s' = deferred s /\ extends 1 s s'
  /\ (forall u, r = Next u ->
      if directIgnition (flags s) then config s' = config s
      else exists c, config s' = Some c /\ conf_edits c = []).
Proof.
  rewrite prepareConfig_cases. cbv zeta.
  destruct (directIgnition (flags s));
    destruct (is_empty (ignition (flags s)));
    repeat match goal with
           | |- context [match ?x with Ok _ => _ | Fail _ => _ end] => destruct x
           end;
    intros H; inversion H; subst; cbn;
    (split; [reflexivity|]); (split; [reflexivity|]);
    (split;
     [ first [ apply extends_refl; reflexivity
             | eapply extends_one; [reflexivity|reflexivity]
             | eapply extends_two; [reflexivity|reflexivity|reflexivity] ]
     | intros; try discriminate; try reflexivity;
       try (eexists; split; reflexivity) ]).
Qed.

Lemma renderFragments_nil_ptr (fragments : list string) r c :
  renderFragments fragments None = (r, c) -> c = None.
Proof.
  destruct fragments as [|x rest]; cbn.
  - intros H; inversion H; reflexivity.
  - destruct (String.eqb x "autologin"); intros H; inversion H; reflexivity.
Qed.

Lemma applyFragments_frame (s s' : St) (r : step unit) :
  applyFragments s = (r, s') ->
  flags s' = flags s /\ deferred s' = deferred s /\ trace s' = trace s
  /\ (config s = None -> config s' = None)
  /\ (forall c, config s = Some c ->
      exists n, config s' = Some (mkConf (conf_source c) (conf_v2 c)
                                    (conf_edits c ++ repeat AutoLogin n))
                /\ (forall u, r = Next u ->
                    In "autologin" (ignitionFragments (flags s)) -> 0 < n)).
Proof.
  assert (Hsame : forall c : Conf,
             Some c = Some (mkConf (conf_source c) (conf_v2 c)
                              (conf_edits c ++ repeat AutoLogin 0))).
  { intros [a b e]; cbn. rewrite app_nil_r. reflexivity. }
  destruct s as [f c t d].
  unfold applyFragments, bind, getFlags, when, onConfig, return_, ret.
  cbn -[renderFragments Nat.ltb].
  destruct (Nat.ltb 0 (List.length (ignitionFragments f))) eqn:El.
  - destruct (directIgnition f).
    + intros H; inversion H; subst; cbn. repeat split; auto.
      intros c0 ->. exists 0. split; [apply Hsame|discriminate].
    + destruct c as [c|].
      * destruct (renderFragments_doc (ignitionFragments f) c)
          as (n & err & Hr & Hc).
        cbn [config flags trace deferred]. rewrite Hr.
        destruct err as [e|]; intros H; inversion H; subst; cbn;
          (repeat split; auto; try discriminate);
          intros c0 Hc0; inversion Hc0; subst; exists n;
          (split; [reflexivity|]); try discriminate.
        intros u _ _.
        destruct Hc as [(_ & _ & ->) | (? & ? & ? & _ & _ & _ & _ & He)];
          [|discriminate].
        apply Nat.ltb_lt in El. exact El.
      * cbn [config flags trace deferred].
        destruct (renderFragments (ignitionFragments f) None) as [[e|x0] c'] eqn:Er;
          apply renderFragments_nil_ptr in Er; subst.
        -- destruct e; intros H; inversion H; subst; cbn;
             repeat split; auto; discriminate.
        -- intros H; inversion H; subst; cbn.
           repeat split; auto; discriminate.
  - intros H; inversion H; subst; cbn. repeat split; auto.
    intros c0 ->. exists 0. split; [apply Hsame|].
    intros _ _ Hin. destruct (ignitionFragments f); [destruct Hin|discriminate].
Qed.

Lemma extends_trans n s1 s2 s3 : extends n s1 s2 -> extends n s2 s3 -> extends n s1 s3.
Proof.
  intros (e1 & H1 & F1) (e2 & H2 & F2). exists (e1 ++ e2). split.
  - rewrite H2, H1, app_assoc. reflexivity.
  - apply Forall_app. auto.
Qed.

Lemma mountLoop_frame (readOnly : bool) (binds : list string) :
  forall s r s',
    mountLoop readOnly binds s = (r, s') ->
    flags s' = flags s /\ deferred s' = deferred s /\ extends 2 s s'
    /\ (config s = None <-> config s' = None).
Proof.
  induction binds as [|b rest IH]; intros s r s'; cbn -[parseBindOpt].
  - unfold ret. intros H; inversion H; subst.
    repeat split; auto using extends_refl.
  - unfold bind at 1, getFlags. cbn -[parseBindOpt].
    destruct (directIgnition (flags s)).
    + unfold return_. intros H; inversion H; subst.
      repeat split; auto using extends_refl.
    + destruct (parseBindOpt b) as [[src dest] [e|]].
      * unfold return_. intros H; inversion H; subst.
        repeat split; auto using extends_refl.
      * unfold bind at 1, config_Mount9p, onConfig.
        cbn [config flags trace deferred].
        destruct (config s) as [c|] eqn:Ec.
        -- intros H. apply IH in H. cbn in H.
           destruct H as (Hf & Hd & He & Hc).
           repeat split; auto; try (intros; discriminate).
           ++ eapply extends_trans; [|exact He].
              eapply extends_one; reflexivity.
           ++ intros H. apply Hc in H. discriminate.
        -- intros H; inversion H; subst; cbn.
           repeat split; auto. eapply extends_one; reflexivity.
Qed.

Lemma mountLoop_direct (readOnly : bool) (binds : list string) (s : St) :
  directIgnition (flags s) = true ->
  mountLoop readOnly binds s =
  match binds with
  | [] => (Next tt, s)
  | _ :: _ =>
      (Stop (Returned (Some (Errorf "Cannot use mounts with direct ignition"))), s)
  end.
Proof.
  intros Hd. destruct binds as [|b rest]; cbn -[parseBindOpt]; [reflexivity|].
  unfold bind, getFlags. rewrite Hd. reflexivity.
Qed.

Lemma mountLoop_declares (readOnly : bool) (binds : list string) :
  forall s r s' c,
    mountLoop readOnly binds s = (r, s') ->
    directIgnition (flags s) = false ->
    config s = Some c ->
    exists done,
      trace s' = trace s ++ builderMounts readOnly done
      /\ config s' = Some (mkConf (conf_source c) (conf_v2 c)
                             (conf_edits c ++ confMounts readOnly done))
      /\ map parseBindOpt (firstn (List.length done) binds)
         = map (fun p => (fst p, snd p, None)) done
      /\ (forall u, r = Next u -> List.length done = List.length binds)
      /\ (forall x, r = Stop x ->
          exists b e, nth_error binds (List.length done) = Some b
                      /\ snd (parseBindOpt b) = Some e
                      /\ x = Returned (Some e)).
Proof.
  induction binds as [|b rest IH]; intros s r s' c; cbn -[parseBindOpt].
  - unfold ret. intros H Hd Hc; inversion H; subst. exists []. cbn.
    rewrite !app_nil_r. destruct c; repeat split; auto. discriminate.
  - unfold bind at 1, getFlags. cbn -[parseBindOpt]. intros H Hd Hc.
    rewrite Hd in H.
    destruct (parseBindOpt b) as [[src dest] [e|]] eqn:Ep.
    + unfold return_ in H. inversion H; subst. exists []. cbn.
      rewrite !app_nil_r. destruct c; repeat split; auto; try discriminate.
      intros x Hx; inversion Hx; subst. exists b, e. rewrite Ep. auto.
    + unfold bind at 1, config_Mount9p, onConfig in H.
      cbn [config flags trace deferred] in H. rewrite Hc in H.
      eapply IH in H; [|exact Hd|reflexivity].
      destruct H as (done & Ht & Hcf & Hp & Hn & Hs).
      exists ((src, dest) :: done). cbn -[parseBindOpt] in *.
      rewrite Ht, Hcf, Ep, Hp, <- !app_assoc. cbn.
      repeat split; auto.
      intros u Hu. rewrite (Hn u Hu). reflexivity.
Qed.

(** ** Statements that only add calls *)

Section Emits.

Variable P : Event -> Prop.

Lemma emits_ret {A} (a : A) : emits P (ret a).
Proof.
  intros s r s' H. inversion H; subst. repeat split; auto.
  exists []. rewrite app_nil_r. auto.
Qed.

Lemma emits_return {A} (e : option error) : emits P (@return_ A e).
Proof.
  intros s r s' H. inversion H; subst. repeat split; auto.
  exists []. rewrite app_nil_r. auto.
Qed.

Lemma emits_getFlags : emits P getFlags.
Proof.
  intros s r s' H. inversion H; subst. repeat split; auto.
  exists []. rewrite app_nil_r. auto.
Qed.

Lemma emits_emit (e : Event) : P e -> emits P (emit e).
Proof.
  intros He s r s' H. inversion H; subst. cbn. repeat split; auto.
  exists [e]. auto.
Qed.

Lemma emits_call {A} (e : Event) (f : list Event -> io A) :
  P e -> emits P (call e f).
Proof.
  intros He s r s' H. inversion H; subst. cbn. repeat split; auto.
  exists [e]. auto.
Qed.

Lemma emits_bind {A B} (m : M A) (f : A -> M B) :
  emits P m -> (forall a, emits P (f a)) -> emits P (bind m f).
Proof.
  intros Hm Hf s r s' H. apply bind_inv in H.
  destruct H as [(a & s1 & E1 & E2) | (x & E1 & ->)].
  - destruct (Hm _ _ _ E1) as (F1 & C1 & D1 & e1 & T1 & A1).
    destruct (Hf a _ _ _ E2) as (F2 & C2 & D2 & e2 & T2 & A2).
    repeat split; try congruence.
    exists (e1 ++ e2). split.
    + rewrite T2, T1, app_assoc. reflexivity.
    + apply Forall_app. auto.
  - destruct (Hm _ _ _ E1) as (F1 & C1 & D1 & e1 & T1 & A1).
    repeat split; auto. eauto.
Qed.

Lemma emits_when (b : bool) (m : M unit) : emits P m -> emits P (when b m).
Proof. destruct b; cbn; auto using emits_ret. Qed.

End Emits.

(** Decompose a sequence of statements into its calls. *)
Ltac emits_tac :=
  repeat first
    [ apply emits_ret
    | apply emits_return
    | apply emits_getFlags
    | apply emits_when
    | apply emits_emit
    | apply emits_call
    | apply emits_bind; [|intros]
    | match goal with
      | |- emits _ (match ?x with _ => _ end) => destruct x
      | |- emits _ (if ?b then _ else _) => destruct b
      end ].

Lemma addDiskLoop_emits (w : World) (P : Event -> Prop) (sizes : list string) :
  (forall d, P (EvAddDisk d)) -> emits P (addDiskLoop w sizes).
Proof.
  intros HP. induction sizes as [|size rest IH]; cbn.
  - apply emits_ret.
  - emits_tac; auto.
Qed.

Lemma assemble_emits (w : World) (k : Kola) (args : list string) :
  emits (assembly_call k) (assemble w k args).
Proof.
  unfold assemble.
  assert (Hset : forall f, (forall s, f <> ConfigFile s) ->
                           assembly_call k (EvBuilderSet f)).
  { intros f Hf. split.
    - destruct f; try reflexivity. exfalso. eapply Hf. reflexivity.
    - intros d Hd. discriminate. }
  apply emits_bind; [apply emits_getFlags|intros f].
  destruct (is_empty (QEMUOptions_DiskImage k)) eqn:Ed; cbn [negb when];
    emits_tac;
    try (apply Hset; intros; discriminate);
    try (apply addDiskLoop_emits; intros);
    try (split; [reflexivity|intros ? Hd; inversion Hd; subst; auto; fail]).
Qed.

Section Calls.

Variable e : Event.

Lemma calls_emit : calls e (emit e).
Proof. intros s a s' H. inversion H; subst. cbn. exists [e]. cbn. auto. Qed.

Lemma calls_call {A} (f : list Event -> io A) : calls e (call e f).
Proof. intros s a s' H. inversion H; subst. cbn. exists [e]. cbn. auto. Qed.

Lemma calls_bind_l {A B} (m : M A) (f : A -> M B) :
  calls e m -> (forall a, emits any_call (f a)) -> calls e (bind m f).
Proof.
  intros Hm Hf s b s' H. apply bind_inv in H.
  destruct H as [(a & s1 & E1 & E2) | (x & _ & Hx)]; [|discriminate].
  destruct (Hm _ _ _ E1) as (e1 & T1 & I1).
  destruct (Hf a _ _ _ E2) as (_ & _ & _ & e2 & T2 & _).
  exists (e1 ++ e2). split.
  - rewrite T2, T1, app_assoc. reflexivity.
  - apply in_or_app. auto.
Qed.

Lemma calls_bind_r {A B} (m : M A) (f : A -> M B) :
  emits any_call m -> (forall a, calls e (f a)) -> calls e (bind m f).
Proof.
  intros Hm Hf s b s' H. apply bind_inv in H.
  destruct H as [(a & s1 & E1 & E2) | (x & _ & Hx)]; [|discriminate].
  destruct (Hm _ _ _ E1) as (_ & _ & _ & e1 & T1 & _).
  destruct (Hf a _ _ _ E2) as (e2 & T2 & I2).
  exists (e1 ++ e2). split.
  - rewrite T2, T1, app_assoc. reflexivity.
  - apply in_or_app. auto.
Qed.

End Calls.

Lemma addDiskLoop_any (w : World) (sizes : list string) :
  emits any_call (addDiskLoop w sizes).
Proof. apply addDiskLoop_emits. intros; exact I. Qed.

Ltac any_tac :=
  emits_tac; try exact I; try apply addDiskLoop_any.

(** Find the statement of a sequence that makes the call. *)
Ltac calls_here :=
  first
    [ apply calls_emit
    | apply calls_call
    | apply calls_bind_l; [ calls_here | intros; solve [any_tac] ] ].

Ltac calls_tac :=
  first
    [ calls_here
    | apply calls_bind_r; [ solve [any_tac] | intros; calls_tac ] ].

Lemma assemble_calls (w : World) (k : Kola) (args : list string) (s s' : St) (u : unit) :
  assemble w k args s = (Next u, s') ->
  exists evs,
    trace s' = trace s ++ evs
    /\ In (EvBuilderSet (Hostname (hostname (flags s)))) evs
    /\ In (EvAppend args) evs
    /\ (cpuCountHost (flags s) = true -> In (EvBuilderSet (Processors (-1))) evs)
    /\ (usernet (flags s) = true ->
        In (EvEnableUsermodeNetworking [mkHostForwardPort "ssh" 0 22]) evs)
    /\ (is_empty (QEMUOptions_DiskImage k) = false ->
        In (EvAddBootDisk (bootDisk k)) evs).
Proof.
  intros H.
  destruct (assemble_emits w k args _ _ _ H) as (_ & _ & _ & evs & T & _).
  exists evs. split; [exact T|].
  unfold assemble in H. apply bind_inv in H.
  destruct H as [(f & s1 & E1 & E2) | (x & _ & Hx)]; [|discriminate].
  inversion E1; subst; clear E1. cbv beta in E2.
  match type of E2 with
  | ?m s1 = _ =>
      assert (Hin : forall e, calls e m -> In e evs)
  end.
  { intros e He. destruct (He _ _ _ E2) as (evs' & T' & I').
    rewrite T in T'. apply app_inv_head in T'. subst. exact I'. }
  clear E2 T.
  repeat split; try intros Hc; apply Hin; try rewrite Hc; cbn [negb when];
    calls_tac.
Qed.

(** ** The mount statements *)

Lemma mounts_frame (s s' : St) (r : step unit) :
  mounts s = (r, s') ->
  flags s' = flags s /\ deferred s' = EvBuilderClose :: deferred s
  /\ extends 2 s s' /\ (config s = None <-> config s' = None).
Proof.
  unfold mounts. intros H.
  apply bind_inv in H.
  destruct H as [(a & s1 & E1 & H) | (x & E1 & _)]; [|discriminate].
  inversion E1; subst; clear E1.
  apply bind_inv in H.
  destruct H as [(a & s1 & E1 & H) | (x & E1 & _)]; [|discriminate].
  inversion E1; subst; clear E1.
  apply bind_inv in H.
  destruct H as [(f & s1 & E1 & H) | (x & E1 & _)]; [|discriminate].
  inversion E1; subst; clear E1. cbv beta in H.
  assert (Hnew : extends 2 s
            (mkSt (flags s) (config s) (trace s ++ [EvNewBuilder])
               (EvBuilderClose :: deferred s))).
  { eapply extends_one; reflexivity. }
  apply bind_inv in H.
  destruct H as [(a1 & s1 & E1 & H) | (x & E1 & _)].
  - apply mountLoop_frame in E1. cbn in E1.
    destruct E1 as (F1 & D1 & X1 & C1).
    apply bind_inv in H.
    destruct H as [(f2 & s2 & E2 & H) | (x & E2 & _)]; [|discriminate].
    inversion E2; subst; clear E2.
    apply mountLoop_frame in H. destruct H as (F2 & D2 & X2 & C2).
    repeat split; try congruence.
    + eapply extends_trans; [exact Hnew|]. eapply extends_trans; eauto.
    + intros Hc. apply C2, C1, Hc.
    + intros Hc. apply C1, C2, Hc.
  - apply mountLoop_frame in E1. cbn in E1.
    destruct E1 as (F1 & D1 & X1 & C1).
    repeat split; try congruence; try tauto.
    eapply extends_trans; eauto.
Qed.

Lemma mounts_declares (s s' : St) (r : step unit) (c : Conf) :
  mounts s = (r, s') ->
  directIgnition (flags s) = false ->
  config s = Some c ->
  exists ro rw,
    trace s' = trace s ++ EvNewBuilder :: builderMounts true ro ++ builderMounts false rw
    /\ config s' = Some (mkConf (conf_source c) (conf_v2 c)
                           (conf_edits c ++ confMounts true ro ++ confMounts false rw))
    /\ map parseBindOpt (firstn (List.length ro) (bindro (flags s)))
       = map (fun p => (fst p, snd p, None)) ro
    /\ map parseBindOpt (firstn (List.length rw) (bindrw (flags s)))
       = map (fun p => (fst p, snd p, None)) rw
    /\ (rw <> [] -> List.length ro = List.length (bindro (flags s)))
    /\ (forall u, r = Next u ->
        List.length ro = List.length (bindro (flags s))
        /\ List.length rw = List.length (bindrw (flags s))).
Proof.
  unfold mounts. intros H Hd Hc.
  apply bind_inv in H.
  destruct H as [(a & s1 & E1 & H) | (x & E1 & _)]; [|discriminate].
  inversion E1; subst; clear E1.
  apply bind_inv in H.
  destruct H as [(a & s1 & E1 & H) | (x & E1 & _)]; [|discriminate].
  inversion E1; subst; clear E1.
  apply bind_inv in H.
  destruct H as [(f & s1 & E1 & H) | (x & E1 & _)]; [|discriminate].
  inversion E1; subst; clear E1. cbv beta in H.
  apply bind_inv in H.
  destruct H as [(a1 & s1 & E1 & H) | (x & E1 & ->)].
  - pose proof (mountLoop_frame _ _ _ _ _ E1) as (F1 & _).
    eapply mountLoop_declares in E1; [|exact Hd|exact Hc].
    destruct E1 as (ro & T1 & C1 & P1 & N1 & _). cbn in *.
    eapply mountLoop_declares in H; [|congruence|exact C1].
    destruct H as (rw & T2 & C2 & P2 & N2 & _). cbn in *.
    exists ro, rw. rewrite T2, T1, C2, <- !app_assoc, F1 in *. cbn.
    repeat split; auto.
    + intros _. eapply N1. reflexivity.
    + eapply N1. reflexivity.
    + eapply N2. eassumption.
  - eapply mountLoop_declares in E1; [|exact Hd|exact Hc].
    destruct E1 as (ro & T1 & C1 & P1 & N1 & _). cbn in *.
    exists ro, []. cbn. rewrite T1, C1, <- !app_assoc, !app_nil_r. cbn.
    repeat split; auto; try discriminate. congruence.
Qed.

(** ** The driver *)

Lemma handOver_cases (s : St) :
  handOver s =
  match config s with
  | Some d =>
      if directIgnition (flags s) then
        (Stop (Returned (Some (Errorf
           "Cannot use fragments/mounts with direct ignition"))), s)
      else
        (Next tt, mkSt (flags s) (config s) (trace s ++ [EvSetConfig d]) (deferred s))
  | None =>
      if directIgnition (flags s) then
        (Next tt, mkSt (flags s) (config s)
                    (trace s ++ [EvBuilderSet (ConfigFile (ignition (flags s)))])
                    (deferred s))
      else (Next tt, s)
  end.
Proof.
  destruct s as [f c t d]. unfold handOver, bind, getFlags, getConfig. cbn.
  destruct c; destruct (directIgnition f); reflexivity.
Qed.

Lemma launch_cases (w : World) (s : St) :
  launch w s =
  let t1 := trace s ++ [EvExec] in
  match Exec w t1 with
  | Fail e =>
      (Stop (Returned (Some (External e))), mkSt (flags s) (config s) t1 (deferred s))
  | Ok _ =>
      let ev := if propagateInitramfsFailure (flags s) then EvWaitAll else EvWait in
      let t2 := t1 ++ [ev] in
      let answer := if propagateInitramfsFailure (flags s)
                    then WaitAll w t2 else Wait w t2 in
      (Stop (Returned (io_error answer)),
       mkSt (flags s) (config s) t2 (EvDestroy :: deferred s))
  end.
Proof.
  destruct s as [f c t d]. unfold launch, bind, getFlags, call, defer. cbn.
  destruct (Exec w (t ++ [EvExec])); cbn; [|reflexivity].
  destruct (propagateInitramfsFailure f); cbn.
  - destruct (WaitAll w _); reflexivity.
  - reflexivity.
Qed.

Lemma drive_cases (w : World) (s : St) :
  drive w s =
  if devshell (flags s) && negb (devshellConsole (flags s)) then
    let t := trace s ++ [EvRunDevShellSSH (config s)] in
    (Stop (Returned (io_error (runDevShellSSH w t (config s)))),
     mkSt (flags s) (config s) t (deferred s))
  else
    match handOver s with
    | (Next _, s1) => launch w s1
    | (Stop r, s1) => (Stop r, s1)
    end.
Proof.
  destruct s as [f c t d]. unfold drive, bind at 1, getFlags.
  unfold bind at 1, getConfig. cbn [flags config trace deferred].
  destruct (devshell f && negb (devshellConsole f)).
  - reflexivity.
  - unfold bind at 1, ret. unfold bind at 1. reflexivity.
Qed.

(** ** The statements before the driver *)

(** Split a run of [prelude] at the statement group it stopped in, keeping
    the frame of every group it went through. *)
Ltac prelude_inv H :=
  unfold prelude in H;
  apply bind_inv in H;
  destruct H as [(? & ?s0 & ?E0 & H) | (? & ?E0 & _)];
  [ match goal with E : defer _ _ = _ |- _ => inversion E; subst; clear E end
  | match goal with E : defer _ _ = _ |- _ => discriminate E end ];
  cbn [initial flags config trace deferred] in H;
  apply bind_inv in H;
  destruct H as [(? & ?s1 & ?Edev & H) | (? & ?Edev & ?)];
  [ pose proof (devshellSetup_frame _ _ _ _ Edev) as ?Fdev;
    apply bind_inv in H;
    destruct H as [(? & ?s2 & ?Ecfg & H) | (? & ?Ecfg & ?)];
    [ pose proof (prepareConfig_frame _ _ _ _ _ Ecfg) as ?Fcfg;
      apply bind_inv in H;
      destruct H as [(? & ?s3 & ?Efrag & H) | (? & ?Efrag & ?)];
      [ pose proof (applyFragments_frame _ _ _ Efrag) as ?Ffrag;
        apply bind_inv in H;
        destruct H as [(? & ?s4 & ?Emnt & H) | (? & ?Emnt & ?)];
        [ pose proof (mounts_frame _ _ _ Emnt) as ?Fmnt;
          pose proof (assemble_emits _ _ _ _ _ _ H) as ?Fasm
        | pose proof (mounts_frame _ _ _ Emnt) as ?Fmnt ]
      | pose proof (applyFragments_frame _ _ _ Efrag) as ?Ffrag ]
    | pose proof (prepareConfig_frame _ _ _ _ _ Ecfg) as ?Fcfg ]
  | pose proof (devshellSetup_frame _ _ _ _ Edev) as ?Fdev ].

Lemma same_inputs_eq f g h : same_inputs f g -> h = g -> same_inputs f h.
Proof. intros H ->. exact H. Qed.

(** The flags a run only reads are the same at every point of [prelude]. *)
Lemma prelude_inputs (w : World) (k : Kola) (args : list string) (f : Flags)
      (r : step unit) (s : St) :
  prelude w k args (initial f) = (r, s) -> same_inputs f (flags s).
Proof.
  intros H. prelude_inv H.
  - destruct Fdev as (_ & _ & _ & Hs & _).
    destruct Fcfg as (F2 & _). destruct Ffrag as (F3 & _).
    destruct Fmnt as (F4 & _). destruct Fasm as (F5 & _).
    eapply same_inputs_eq; [exact Hs|]. cbn in *. congruence.
  - destruct Fdev as (_ & _ & _ & Hs & _).
    destruct Fcfg as (F2 & _). destruct Ffrag as (F3 & _).
    destruct Fmnt as (F4 & _).
    eapply same_inputs_eq; [exact Hs|]. cbn in *. congruence.
  - destruct Fdev as (_ & _ & _ & Hs & _).
    destruct Fcfg as (F2 & _). destruct Ffrag as (F3 & _).
    eapply same_inputs_eq; [exact Hs|]. cbn in *. congruence.
  - destruct Fdev as (_ & _ & _ & Hs & _).
    destruct Fcfg as (F2 & _).
    eapply same_inputs_eq; [exact Hs|]. cbn in *. congruence.
  - destruct Fdev as (_ & _ & _ & Hs & _). exact Hs.
Qed.

Lemma extends_Forall (Q : Event -> Prop) n s s' :
  extends n s s' ->
  (forall e, phase_of e = n -> Q e) ->
  Forall Q (trace s) -> Forall Q (trace s').
Proof.
  intros (evs & T & Hall) HQ Hs. rewrite T. apply Forall_app. split; [exact Hs|].
  eapply Forall_impl; [|exact Hall]. exact HQ.
Qed.

Lemma phase_prelude_call k n e :
  n <= 3 -> n <> 3 -> phase_of e = n -> prelude_call k e.
Proof.
  intros Hn H3 He. split; [lia|].
  intros d ->. cbn in He. congruence.
Qed.

Lemma assembly_prelude_call k e : assembly_call k e -> prelude_call k e.
Proof. intros (H3 & Hb). split; [lia|exact Hb]. Qed.

Lemma prelude_trace (w : World) (k : Kola) (args : list string) (f : Flags)
      (r : step unit) (s : St) :
  prelude w k args (initial f) = (r, s) ->
  Forall (prelude_call k) (trace s)
  /\ (deferred s = [EvCancel] \/ deferred s = [EvBuilderClose; EvCancel]).
Proof.
  intros H. prelude_inv H.
  - destruct Fdev as (_ & T1 & D1 & _). destruct Fcfg as (_ & D2 & X2 & _).
    destruct Ffrag as (_ & D3 & T3 & _). destruct Fmnt as (_ & D4 & X4 & _).
    destruct Fasm as (_ & _ & D5 & evs & T5 & A5). cbn in *.
    split; [|right; congruence].
    rewrite T5. apply Forall_app. split.
    + eapply extends_Forall; [exact X4| |].
      * intros e He. eapply phase_prelude_call; [| |exact He]; lia.
      * rewrite T3. eapply extends_Forall; [exact X2| |].
        -- intros e He. eapply phase_prelude_call; [| |exact He]; lia.
        -- rewrite T1. constructor.
    + eapply Forall_impl; [|exact A5]. apply assembly_prelude_call.
  - destruct Fdev as (_ & T1 & D1 & _). destruct Fcfg as (_ & D2 & X2 & _).
    destruct Ffrag as (_ & D3 & T3 & _). destruct Fmnt as (_ & D4 & X4 & _).
    cbn in *. split; [|right; congruence].
    eapply extends_Forall; [exact X4| |].
    + intros e He. eapply phase_prelude_call; [| |exact He]; lia.
    + rewrite T3. eapply extends_Forall; [exact X2| |].
      * intros e He. eapply phase_prelude_call; [| |exact He]; lia.
      * rewrite T1. constructor.
  - destruct Fdev as (_ & T1 & D1 & _). destruct Fcfg as (_ & D2 & X2 & _).
    destruct Ffrag as (_ & D3 & T3 & _). cbn in *.
    split; [|left; congruence].
    rewrite T3. eapply extends_Forall; [exact X2| |].
    + intros e He. eapply phase_prelude_call; [| |exact He]; lia.
    + rewrite T1. constructor.
  - destruct Fdev as (_ & T1 & D1 & _). destruct Fcfg as (_ & D2 & X2 & _).
    cbn in *. split; [|left; congruence].
    eapply extends_Forall; [exact X2| |].
    + intros e He. eapply phase_prelude_call; [| |exact He]; lia.
    + rewrite T1. constructor.
  - destruct Fdev as (_ & T1 & D1 & _). cbn in *.
    split; [|left; congruence]. rewrite T1. constructor.
Qed.

(** What holds when [prelude] falls through to the driver. *)
Lemma prelude_next (w : World) (k : Kola) (args : list string) (f : Flags)
      (u : unit) (s : St) :
  prelude w k args (initial f) = (Next u, s) ->
  devshell_post k f (flags s)
  /\ deferred s = [EvBuilderClose; EvCancel]
  /\ (if directIgnition f then config s = None
      else exists c, config s = Some c
                     /\ (devshell (flags s) = true -> In AutoLogin (conf_edits c))).
Proof.
  intros H. prelude_inv H; try discriminate.
  destruct Fdev as (C1 & T1 & D1 & S1 & P1).
  destruct Fcfg as (F2 & D2 & X2 & C2).
  destruct Ffrag as (F3 & D3 & T3 & N3 & C3).
  destruct Fmnt as (F4 & D4 & X4 & C4).
  destruct Fasm as (F5 & C5 & D5 & _).
  specialize (P1 _ eq_refl). specialize (C2 _ eq_refl).
  cbn in *.
  assert (Hfl : flags s = flags s1) by congruence.
  rewrite Hfl. split; [exact P1|]. split; [congruence|].
  destruct S1 as (_ & _ & _ & _ & _ & Hdi & _). rewrite Hdi in C2.
  destruct (directIgnition f) eqn:Ed.
  - rewrite C5. apply C4. apply N3. congruence.
  - destruct C2 as (c & Hc & He).
    destruct (C3 _ Hc) as (n & Hc3 & Hn).
    eapply mounts_declares in Emnt; [| congruence | exact Hc3].
    destruct Emnt as (ro & rw & _ & Hc4 & _).
    rewrite C5, Hc4. eexists. split; [reflexivity|]. cbn.
    intros Hdev. destruct P1 as (_ & _ & P1). destruct (P1 Hdev) as (_ & _ & _ & Hfr & _).
    assert (0 < n).
    { eapply Hn; [reflexivity|]. rewrite F2, Hfr. apply in_or_app. right. cbn. auto. }
    apply in_or_app. left. apply in_or_app. right.
    destruct n; [lia|]. cbn. auto.
Qed.

(** ** Whole runs *)

Lemma run_unfold (w : World) (k : Kola) (args : list string) (f : Flags) :
  runQemuExec w k args f =
  match prelude w k args (initial f) with
  | (Next _, s) =>
      match drive w s with
      | (Stop r, s') => finish r s'
      | (Next a, _) => match a with end
      end
  | (Stop r, s) => finish r s
  end.
Proof.
  unfold runQemuExec, body, bind.
  destruct (prelude w k args (initial f)) as [[u|r] s]; reflexivity.
Qed.

Lemma split_unique (x : Event) (l1 r1 l2 r2 : list Event) :
  l1 ++ x :: r1 = l2 ++ x :: r2 ->
  ~ In x l2 -> ~ In x r2 -> l1 = l2 /\ r1 = r2.
Proof.
  revert l2. induction l1 as [|a l1 IH]; intros [|b l2] H N1 N2; cbn in *.
  - inversion H. auto.
  - inversion H; subst. exfalso. apply N1. auto.
  - inversion H; subst. exfalso. apply N2. apply in_or_app. right. cbn. auto.
  - inversion H; subst. destruct (IH l2 H2) as (-> & ->); auto.
Qed.

Lemma prelude_call_low k t e :
  Forall (prelude_call k) t -> In e t -> phase_of e <= 3.
Proof.
  intros Hall Hin. rewrite Forall_forall in Hall. apply (Hall e Hin).
Qed.

Lemma no_destroy_before_driver k t :
  Forall (prelude_call k) t -> filter is_destroy t = [].
Proof.
  induction 1 as [|e t (He & _) _ IH]; cbn; [reflexivity|].
  destruct e; cbn in *; try exact IH. lia.
Qed.

Lemma deferred_no_exec (d : list Event) :
  d = [EvCancel] \/ d = [EvBuilderClose; EvCancel] -> ~ In EvExec d.
Proof. intros [-> | ->]; cbn; intuition discriminate. Qed.

(** A run that reached the driver, in full. *)
Lemma run_after_prelude (w : World) (k : Kola) (args : list string) (f : Flags)
      (u : unit) (s : St) :
  prelude w k args (initial f) = (Next u, s) ->
  let R := runQemuExec w k args f in
  run_flags R = flags s /\ run_config R = config s
  /\ if devshell (flags s) && negb (devshellConsole (flags s)) then
       run_trace R
       = trace s ++ [EvRunDevShellSSH (config s); EvBuilderClose; EvCancel]
       /\ run_result R
          = Returned (io_error (runDevShellSSH w
                                  (trace s ++ [EvRunDevShellSSH (config s)])
                                  (config s)))
     else
       let t1 := trace s ++ handover s ++ [EvExec] in
       match Exec w t1 with
       | Fail e =>
           run_trace R = t1 ++ [EvBuilderClose; EvCancel]
           /\ run_result R = Returned (Some (External e))
       | Ok _ =>
           run_trace R
           = t1 ++ [wait_call (flags s); EvDestroy; EvBuilderClose; EvCancel]
           /\ run_result R
              = Returned (io_error (wait_answer w (flags s)
                                      (t1 ++ [wait_call (flags s)])))
       end.
Proof.
  intros H. cbv zeta. rewrite run_unfold, H.
  destruct (prelude_next _ _ _ _ _ _ H) as (Hpost & Hdef & Hcfg).
  pose proof (prelude_inputs _ _ _ _ _ _ H) as (_ & _ & _ & _ & _ & Hdi & _).
  rewrite <- Hdi in Hcfg.
  rewrite drive_cases.
  destruct (devshell (flags s) && negb (devshellConsole (flags s))).
  - cbn. rewrite Hdef, <- app_assoc. auto.
  - rewrite handOver_cases. unfold handover.
    destruct (directIgnition (flags s)) eqn:Ed.
    + rewrite Hcfg. rewrite launch_cases. cbn [flags config trace deferred].
      cbv zeta. rewrite <- !app_assoc. cbn [app].
      destruct (Exec w _); cbn; rewrite Hdef, <- ?app_assoc; cbn;
        unfold wait_answer, wait_call; rewrite <- ?app_assoc; cbn; auto.
    + destruct Hcfg as (c & Hc & _). rewrite Hc.
      rewrite launch_cases. cbn [flags config trace deferred].
      cbv zeta. rewrite <- !app_assoc. cbn [app].
      destruct (Exec w _); cbn; rewrite Hdef, <- ?app_assoc; cbn;
        unfold wait_answer, wait_call; rewrite <- ?app_assoc; cbn; auto.
Qed.

(** ** Teardown *)

(** C1.  Whenever [builder.Exec()] returns an instance, the run blocks on
    exactly one wait, then [Destroy] runs as the first deferred call, before
    the builder is closed and the context cancelled; [Destroy] occurs once
    in the whole run; and the run returns what the wait returned, so a
    failure reported by the instance is the error of the run. *)
Theorem destroy_once_after_launch (w : World) (k : Kola) (args : list string)
        (f : Flags) (pre post : list Event) :
  run_trace (runQemuExec w k args f) = pre ++ EvExec :: post ->
  Exec w (pre ++ [EvExec]) = Ok tt ->
  post = [wait_call f; EvDestroy; EvBuilderClose; EvCancel]
  /\ run_result (runQemuExec w k args f)
     = Returned (io_error (wait_answer w f (pre ++ [EvExec; wait_call f])))
  /\ occurrences is_destroy (run_trace (runQemuExec w k args f)) = 1.
Proof.
  intros Ht Hok.
  destruct (prelude w k args (initial f)) as [[u|x] s] eqn:P.
  - pose proof (prelude_trace _ _ _ _ _ _ P) as (Hall & Hd).
    pose proof (prelude_inputs _ _ _ _ _ _ P) as (_ & _ & _ & _ & _ & _ & _ & Hp & _).
    assert (Hwc : wait_call (flags s) = wait_call f)
      by (unfold wait_call; rewrite Hp; reflexivity).
    assert (Hwa : forall t, wait_answer w (flags s) t = wait_answer w f t)
      by (intros; unfold wait_answer; rewrite Hp; reflexivity).
    destruct (run_after_prelude _ _ _ _ _ _ P) as (_ & _ & Hrun).
    destruct (devshell (flags s) && negb (devshellConsole (flags s))).
    + destruct Hrun as (T & _). rewrite T in Ht. exfalso.
      assert (Hin : In EvExec (pre ++ EvExec :: post))
        by (apply in_or_app; right; cbn; auto).
      rewrite <- Ht in Hin. apply in_app_or in Hin. destruct Hin as [Hin|Hin].
      * apply (prelude_call_low _ _ _ Hall) in Hin. cbn in Hin. lia.
      * cbn in Hin. intuition discriminate.
    + cbv zeta in Hrun.
      assert (Hno : ~ In EvExec (trace s ++ handover s)).
      { intros Hin. apply in_app_or in Hin. destruct Hin as [Hin|Hin].
        - apply (prelude_call_low _ _ _ Hall) in Hin. cbn in Hin. lia.
        - unfold handover in Hin. destruct (config s); cbn in Hin.
          + intuition discriminate.
          + destruct (directIgnition (flags s)); cbn in Hin; intuition discriminate. }
      destruct (Exec w (trace s ++ handover s ++ [EvExec])) eqn:Ex.
      * destruct Hrun as (T & Hr). rewrite T, Hwc in *.
        rewrite app_assoc, <- app_assoc in Ht. cbn in Ht.
        symmetry in Ht. apply split_unique in Ht; [|exact Hno|].
        2:{ unfold wait_call. destruct (propagateInitramfsFailure f);
            cbn; intuition discriminate. }
        destruct Ht as (-> & ->). split; [reflexivity|]. split.
        -- rewrite Hr, Hwa, <- !app_assoc. reflexivity.
        -- unfold occurrences. rewrite !filter_app.
           rewrite (no_destroy_before_driver _ _ Hall).
           unfold handover, wait_call.
           destruct (config s); destruct (directIgnition (flags s));
             destruct (propagateInitramfsFailure f); reflexivity.
      * destruct Hrun as (T & _). rewrite T in Ht.
        rewrite app_assoc, <- app_assoc in Ht. cbn in Ht.
        symmetry in Ht. apply split_unique in Ht; [|exact Hno|].
        2:{ cbn; intuition discriminate. }
        destruct Ht as (-> & _). rewrite <- app_assoc in Hok. congruence.
  - exfalso. rewrite run_unfold, P in Ht. cbn in Ht.
    pose proof (prelude_trace _ _ _ _ _ _ P) as (Hall & Hd).
    assert (Hin : In EvExec (pre ++ EvExec :: post))
      by (apply in_or_app; right; cbn; auto).
    rewrite <- Ht in Hin. apply in_app_or in Hin. destruct Hin as [Hin|Hin].
    + apply (prelude_call_low _ _ _ Hall) in Hin. cbn in Hin. lia.
    + eapply deferred_no_exec; eauto.
Qed.

Lemma destroy_once_after_launch_witness :
  run_trace (runQemuExec failing_boot fcos [] headless)
  = launch_pre ++ EvExec :: launch_post
  /\ Exec failing_boot (launch_pre ++ [EvExec]) = Ok tt
  /\ launch_post = [wait_call headless; EvDestroy; EvBuilderClose; EvCancel]
  /\ run_result (runQemuExec failing_boot fcos [] headless)
     = Returned (io_error (wait_answer failing_boot headless
                             (launch_pre ++ [EvExec; wait_call headless])))
  /\ occurrences is_destroy
       (run_trace (runQemuExec failing_boot fcos [] headless)) = 1.
Proof.
  assert (H1 : run_trace (runQemuExec failing_boot fcos [] headless)
               = launch_pre ++ EvExec :: launch_post)
    by (vm_compute; reflexivity).
  assert (H2 : Exec failing_boot (launch_pre ++ [EvExec]) = Ok tt)
    by reflexivity.
  split; [exact H1|]. split; [exact H2|].
  exact (destroy_once_after_launch failing_boot fcos [] headless
           launch_pre launch_post H1 H2).
Defined.

(** ** Execution mode *)

Lemma no_driver_before (k : Kola) (t : list Event) :
  Forall (prelude_call k) t -> driver_calls t = [].
Proof.
  induction 1 as [|e t (He & _) _ IH]; cbn; [reflexivity|].
  destruct e; cbn in *; try exact IH; lia.
Qed.

Lemma driver_calls_app (t1 t2 : list Event) :
  driver_calls (t1 ++ t2) = driver_calls t1 ++ driver_calls t2.
Proof. apply flat_map_app. Qed.

Lemma driver_calls_handover (s : St) : driver_calls (handover s) = [].
Proof.
  unfold handover. destruct (config s); [reflexivity|].
  destruct (directIgnition (flags s)); reflexivity.
Qed.

(** C2, as the code has it.  A run that reaches the driver ends in exactly
    one blocking operation, chosen from the flags as they were given:
    [runDevShellSSH] when devshell is set and devshell-console is not;
    otherwise, once the instance is launched, [WaitAll] when
    propagate-initramfs-failure is set and [Wait] when it is not, whether or
    not devshell-console is set.  A failed launch blocks on nothing. *)
Theorem driver_selected (w : World) (k : Kola) (args : list string)
        (f : Flags) (u : unit) (s : St) :
  prelude w k args (initial f) = (Next u, s) ->
  let t := run_trace (runQemuExec w k args f) in
  if devshell f && negb (devshellConsole f) then driver_calls t = [ViaSSH]
  else
    match Exec w (trace s ++ handover s ++ [EvExec]) with
    | Ok _ =>
        driver_calls t
        = [if propagateInitramfsFailure f then ViaWaitAll else ViaWait]
    | Fail _ => driver_calls t = []
    end.
Proof.
  intros P. cbv zeta.
  pose proof (prelude_trace _ _ _ _ _ _ P) as (Hall & _).
  pose proof (prelude_inputs _ _ _ _ _ _ P)
    as (_ & _ & _ & _ & _ & _ & _ & Hp & Hdc & _).
  destruct (prelude_next _ _ _ _ _ _ P) as ((Hdev & _) & _).
  destruct (run_after_prelude _ _ _ _ _ _ P) as (_ & _ & Hrun).
  rewrite Hdev, Hdc in Hrun.
  replace ((devshell f || devshellConsole f) && negb (devshellConsole f))
    with (devshell f && negb (devshellConsole f)) in Hrun
    by (destruct (devshell f), (devshellConsole f); reflexivity).
  destruct (devshell f && negb (devshellConsole f)).
  - destruct Hrun as (-> & _). rewrite driver_calls_app.
    rewrite (no_driver_before _ _ Hall). reflexivity.
  - cbv zeta in Hrun.
    destruct (Exec w (trace s ++ handover s ++ [EvExec]));
      destruct Hrun as (-> & _);
      rewrite !driver_calls_app, (no_driver_before _ _ Hall),
        driver_calls_handover; cbn; [|reflexivity].
    unfold wait_call. rewrite Hp.
    destruct (propagateInitramfsFailure f); reflexivity.
Qed.

Lemma driver_selected_witness :
  prelude calm fcos [] (initial console_headless)
  = (Next tt, console_headless_ready)
  /\ driver_calls (run_trace (runQemuExec calm fcos [] console_headless))
     = [ViaWaitAll].
Proof.
  assert (H : prelude calm fcos [] (initial console_headless)
              = (Next tt, console_headless_ready))
    by (vm_compute; reflexivity).
  split; [exact H|].
  exact (driver_selected calm fcos [] console_headless tt _ H).
Defined.

(** C2 as worded fails: with devshell-console and
    propagate-initramfs-failure both set, the wording has the run block on
    the console [Wait]; the run blocks on [WaitAll]. *)
Lemma console_devshell_waits_all :
  spec_Driver (spec_ExecutionMode console_headless) = ViaWait
  /\ driver_calls (run_trace (runQemuExec calm fcos [] console_headless))
     <> [spec_Driver (spec_ExecutionMode console_headless)].
Proof. split; [reflexivity|]. vm_compute. discriminate. Qed.

(** ** Direct ignition against fragments and mounts *)

Lemma conflict_under_direct (w : World) (k : Kola) (args : list string) (f : Flags) :
  directIgnition f = true ->
  ignitionFragments f <> [] \/ bindro f <> [] \/ bindrw f <> [] ->
  let R := runQemuExec w k args f in
  (exists msg, In msg option_conflicts
               /\ run_result R = Returned (Some (Errorf msg)))
  /\ run_config R = None
  /\ (run_trace R = [EvCancel]
      \/ (run_trace R = [EvNewBuilder; EvBuilderClose; EvCancel]
          /\ ignitionFragments f = []
          /\ devshell f = false /\ devshellConsole f = false)).
Proof.
  destruct f as [mem disks un cpu hn ign ka kn frags ro rw di fci pif dev dc cf].
  cbn [directIgnition ignitionFragments bindro bindrw devshell devshellConsole].
  intros -> Hsup. cbv zeta.
  assert (Hmsg : forall msg, In msg option_conflicts ->
                 exists m, In m option_conflicts
                           /\ Returned (Some (Errorf msg)) = Returned (Some (Errorf m)))
    by (intros msg Hin; exists msg; auto).
  unfold runQemuExec, body, prelude, devshellSetup, prepareConfig,
    applyFragments, mounts, bind, when, modifyFlags, getFlags, setFlags,
    return_, ret, defer, emit, finish, initial.
  destruct dc, dev, frags as [|fr frags], ro as [|b1 ro], rw as [|b2 rw];
    try (exfalso; destruct Hsup as [H|[H|H]]; apply H; reflexivity);
    cbn -[option_conflicts renderFragments assemble drive In parseBindOpt];
    repeat match goal with
           | |- context [if ?b then _ else _] =>
               destruct b;
               cbn -[option_conflicts renderFragments assemble drive In parseBindOpt]
           end;
    (split; [apply Hmsg; cbn; auto 10|]);
    (split; [reflexivity|]);
    auto.
Qed.

(** C3, as the code has it.  With direct-ignition set and a fragment or a
    bind spec supplied, the run ends in an option-conflict error; no
    document is rendered, no file is read, nothing is declared to a builder
    and no instance is started.  When the conflict is found by the
    devshell, path or fragment checks, nothing but the deferred cancel has
    happened; when it is found in a mount loop (no fragments, no devshell),
    [platform.NewBuilder()] has been called and the builder is closed on
    return. *)
Theorem direct_conflict_rejected (w : World) (k : Kola) (args : list string)
        (f : Flags) :
  directIgnition f = true ->
  ignitionFragments f <> [] \/ bindro f <> [] \/ bindrw f <> [] ->
  let R := runQemuExec w k args f in
  (exists msg, In msg option_conflicts
               /\ run_result R = Returned (Some (Errorf msg)))
  /\ run_config R = None
  /\ existsb is_render_or_read (run_trace R) = false
  /\ existsb declares_or_launches (run_trace R) = false
  /\ (run_trace R = [EvCancel]
      \/ (run_trace R = [EvNewBuilder; EvBuilderClose; EvCancel]
          /\ ignitionFragments f = []
          /\ devshell f = false /\ devshellConsole f = false)).
Proof.
  intros Hd Hsup. cbv zeta.
  destruct (conflict_under_direct w k args f Hd Hsup) as (Hm & Hc & Ht).
  split; [exact Hm|]. split; [exact Hc|].
  destruct Ht as [T | (T & Hrest)]; rewrite T; cbn; auto.
Qed.

Lemma direct_conflict_rejected_witness :
  directIgnition direct_bind = true
  /\ (ignitionFragments direct_bind <> [] \/ bindro direct_bind <> []
      \/ bindrw direct_bind <> [])
  /\ existsb declares_or_launches
       (run_trace (runQemuExec calm fcos [] direct_bind)) = false.
Proof.
  assert (H1 : directIgnition direct_bind = true) by reflexivity.
  assert (H2 : ignitionFragments direct_bind <> [] \/ bindro direct_bind <> []
               \/ bindrw direct_bind <> [])
    by (right; left; discriminate).
  split; [exact H1|]. split; [exact H2|].
  exact (proj1 (proj2 (proj2 (proj2
           (direct_conflict_rejected calm fcos [] direct_bind H1 H2))))).
Defined.

(** C3 as worded fails: with direct-ignition and one read-only bind spec the
    conflict is reported by the mount loop, after the builder was created;
    the builder is then closed by the deferred call. *)
Lemma direct_bind_creates_builder :
  directIgnition direct_bind = true
  /\ bindro direct_bind <> []
  /\ run_trace (runQemuExec calm fcos [] direct_bind)
     = [EvNewBuilder; EvBuilderClose; EvCancel]
  /\ existsb is_builder_call
       (run_trace (runQemuExec calm fcos [] direct_bind)) = true.
Proof.
  split; [reflexivity|]. split; [discriminate|].
  split; vm_compute; reflexivity.
Qed.

(** ** Configuration preparation *)





(** A missing ignition file, in a whole run: the error of [os.Open] is what
    the run returns.  An error whose text does not name the path does not
    carry it. *)
Example read_failure_names_path :
  run_result (runQemuExec unreadable fcos [] from_file)
  = Returned (Some (External "open x.ign: no such file or directory"))
  /\ ~ carries_path "x.ign" (External "bytes.Buffer: too large").
Proof.
  split; [vm_compute; reflexivity|].
  intros (pre & cause & H). cbn in H.
  do 23 (destruct pre as [|? pre]; cbn in H; [discriminate|];
         injection H as _ H).
  destruct pre; discriminate.
Qed.

(** ** Mount bindings *)

Lemma builder_mounts_of_app t1 t2 :
  builder_mounts_of (t1 ++ t2) = builder_mounts_of t1 ++ builder_mounts_of t2.
Proof. apply flat_map_app. Qed.

Lemma builder_mounts_of_builderMounts ro done :
  builder_mounts_of (builderMounts ro done)
  = map (fun p => (fst p, snd p, ro)) done.
Proof.
  induction done as [|p done IH]; [reflexivity|].
  cbn [builderMounts map builder_mounts_of flat_map app].
  f_equal. exact IH.
Qed.

Lemma builder_mounts_of_other (t : list Event) :
  Forall (fun e => phase_of e <> 2) t -> builder_mounts_of t = [].
Proof.
  unfold builder_mounts_of.
  induction 1 as [|e t He _ IH]; cbn; [reflexivity|].
  rewrite IH. destruct e; cbn in *; try reflexivity. congruence.
Qed.

Lemma conf_mounts_of_edits (src : UserData) (v2 : bool) (e1 e2 : list ConfEdit) :
  conf_mounts_of (Some (mkConf src v2 (e1 ++ e2)))
  = conf_mounts_of (Some (mkConf src v2 e1))
    ++ conf_mounts_of (Some (mkConf src v2 e2)).
Proof. cbn. apply flat_map_app. Qed.

Lemma conf_mounts_of_confMounts src v2 ro done :
  conf_mounts_of (Some (mkConf src v2 (confMounts ro done)))
  = map (fun p => (snd p, ro)) done.
Proof.
  cbn. induction done as [|p done IH]; [reflexivity|].
  cbn [confMounts map flat_map app]. f_equal. exact IH.
Qed.

Lemma conf_mounts_of_autologins src v2 n :
  conf_mounts_of (Some (mkConf src v2 (repeat AutoLogin n))) = [].
Proof. cbn. induction n as [|n IH]; cbn; auto. Qed.

Lemma mounts_direct (s s' : St) (r : step unit) :
  directIgnition (flags s) = true ->
  mounts s = (r, s') ->
  trace s' = trace s ++ [EvNewBuilder] /\ config s' = config s
  /\ (forall u, r = Next u -> bindro (flags s) = [] /\ bindrw (flags s) = []).
Proof.
  intros Hd. unfold mounts, bind at 1, emit. unfold bind at 1, defer.
  unfold bind at 1, getFlags. cbn [flags config trace deferred].
  unfold bind at 1. rewrite mountLoop_direct by exact Hd.
  destruct (bindro (flags s)) as [|b ro].
  - unfold bind at 1, getFlags. cbn [flags config trace deferred].
    rewrite mountLoop_direct by exact Hd.
    destruct (bindrw (flags s)) as [|b rw]; intros H; inversion H; subst; cbn;
      repeat split; auto; discriminate.
  - intros H; inversion H; subst; cbn. repeat split; auto; discriminate.
Qed.

Lemma prepareConfig_quiet (w : World) (k : Kola) (s s' : St) (r : step unit) :
  prepareConfig w k s = (r, s') ->
  conf_mounts_of (config s) = [] -> conf_mounts_of (config s') = [].
Proof.
  rewrite prepareConfig_cases. cbv zeta. intros H Hq.
  destruct (directIgnition (flags s));
    destruct (is_empty (ignition (flags s)));
    repeat match type of H with
           | context [match ?x with Ok _ => _ | Fail _ => _ end] => destruct x
           end;
    inversion H; subst; cbn; auto.
Qed.

Lemma applyFragments_quiet (s s' : St) (r : step unit) :
  applyFragments s = (r, s') ->
  conf_mounts_of (config s) = [] -> conf_mounts_of (config s') = [].
Proof.
  intros H Hq. destruct (applyFragments_frame _ _ _ H) as (_ & _ & _ & Hn & Hs).
  destruct (config s) as [c|] eqn:Ec.
  - destruct (Hs c eq_refl) as (n & -> & _).
    rewrite conf_mounts_of_edits, conf_mounts_of_autologins, app_nil_r.
    destruct c; exact Hq.
  - rewrite (Hn eq_refl). reflexivity.
Qed.

Lemma declared_nothing (f : Flags) (t : list Event) (c : option Conf) :
  builder_mounts_of t = [] -> conf_mounts_of c = [] -> declared f t c [] [].
Proof.
  intros Hb Hc. unfold declared. cbn. repeat split; auto. congruence.
Qed.

Lemma phase1_no_assembly (t : list Event) (e : Event) :
  Forall (fun e => phase_of e = 1 \/ phase_of e = 2) t ->
  In e t -> phase_of e = 3 -> False.
Proof.
  intros Hall Hin H3. rewrite Forall_forall in Hall.
  destruct (Hall e Hin); congruence.
Qed.

(** The bindings declared at any point where [prelude] can stop, and that
    all of them have been once an assembly call was made. *)
Lemma prelude_declared (w : World) (k : Kola) (args : list string) (f : Flags)
      (r : step unit) (s : St) :
  prelude w k args (initial f) = (r, s) ->
  exists ro rw,
    declared (flags s) (trace s) (config s) ro rw
    /\ ((exists e, In e (trace s) /\ phase_of e = 3) ->
        List.length ro = List.length (bindro (flags s))
        /\ List.length rw = List.length (bindrw (flags s))).
Proof.
  intros H.
  assert (Hlow : forall s1 s3 : St,
             trace s1 = [] -> extends 1 s1 s3 ->
             Forall (fun e => phase_of e = 1 \/ phase_of e = 2) (trace s3)
             /\ builder_mounts_of (trace s3) = []).
  { intros s1 s3 T1 X. split.
    - eapply extends_Forall; [exact X|auto|]. rewrite T1. constructor.
    - apply builder_mounts_of_other.
      eapply extends_Forall; [exact X| |rewrite T1; constructor].
      intros e ->. discriminate. }
  prelude_inv H.
  - (* the assembly was reached *)
    pose proof (prepareConfig_quiet _ _ _ _ _ Ecfg) as Q2.
    pose proof (applyFragments_quiet _ _ _ Efrag) as Q3.
    destruct Fdev as (C1 & T1 & _). destruct Fcfg as (F2 & _ & X2 & C2).
    destruct Ffrag as (F3 & _ & T3 & N3 & S3).
    destruct Fmnt as (F4 & _ & _ & _).
    destruct Fasm as (F5 & C5 & _ & evs & T5 & A5).
    cbn [flags config trace deferred] in *.
    destruct (Hlow s1 s2 T1 X2) as (_ & B2).
    assert (Hevs : builder_mounts_of evs = []).
    { apply builder_mounts_of_other. eapply Forall_impl; [|exact A5].
      intros e (-> & _). discriminate. }
    rewrite C1 in Q2. specialize (Q3 (Q2 eq_refl)).
    destruct (directIgnition (flags s3)) eqn:Ed.
    + destruct (mounts_direct _ _ _ Ed Emnt) as (T4 & C4 & Hnil).
      destruct (Hnil _ eq_refl) as (Hro & Hrw).
      exists [], []. split.
      * apply declared_nothing.
        -- rewrite T5, T4, T3, !builder_mounts_of_app, B2, Hevs. reflexivity.
        -- rewrite C5, C4. exact Q3.
      * intros _. rewrite F5, F4, Hro, Hrw. auto.
    + assert (Hc3 : exists c, config s3 = Some c).
      { specialize (C2 _ eq_refl). rewrite F3, F2 in Ed. rewrite Ed in C2.
        destruct C2 as (c & Hc & _). destruct (S3 c Hc) as (n & -> & _). eauto. }
      destruct Hc3 as (c3 & Hc3).
      destruct (mounts_declares _ _ _ _ Emnt Ed Hc3)
        as (ro & rw & T4 & C4 & P1 & P2 & L1 & L2).
      destruct (L2 _ eq_refl) as (Lro & Lrw).
      exists ro, rw. rewrite F5, F4. split; [|auto].
      unfold declared. rewrite C5, C4, T5, T4, T3.
      rewrite !builder_mounts_of_app, B2, Hevs. cbn [builder_mounts_of flat_map app].
      fold (builder_mounts_of (builderMounts true ro ++ builderMounts false rw)).
      rewrite builder_mounts_of_app, !builder_mounts_of_builderMounts, app_nil_r.
      rewrite !conf_mounts_of_edits, !conf_mounts_of_confMounts.
      rewrite Hc3 in Q3. destruct c3 as [src v2 ed]. cbn [conf_source conf_v2 conf_edits].
      rewrite Q3. cbn [app]. repeat split; auto.
  - (* stopped in the mount loops *)
    pose proof (prepareConfig_quiet _ _ _ _ _ Ecfg) as Q2.
    pose proof (applyFragments_quiet _ _ _ Efrag) as Q3.
    destruct Fdev as (C1 & T1 & _). destruct Fcfg as (F2 & _ & X2 & C2).
    destruct Ffrag as (F3 & _ & T3 & N3 & S3).
    destruct Fmnt as (F4 & _ & X4 & _).
    cbn [flags config trace deferred] in *.
    destruct (Hlow s1 s2 T1 X2) as (L2 & B2).
    assert (Hno3 : (exists e, In e (trace s) /\ phase_of e = 3) -> False).
    { intros (e & Hin & H3). eapply phase1_no_assembly; [|exact Hin|exact H3].
      eapply extends_Forall; [exact X4|auto|]. rewrite T3. exact L2. }
    rewrite C1 in Q2. specialize (Q3 (Q2 eq_refl)).
    destruct (directIgnition (flags s3)) eqn:Ed.
    + destruct (mounts_direct _ _ _ Ed Emnt) as (T4 & C4 & _).
      exists [], []. split; [|intros Hx; destruct (Hno3 Hx)].
      apply declared_nothing.
      * rewrite T4, T3, !builder_mounts_of_app, B2. reflexivity.
      * rewrite C4. exact Q3.
    + assert (Hc3 : exists c, config s3 = Some c).
      { specialize (C2 _ eq_refl). rewrite F3, F2 in Ed. rewrite Ed in C2.
        destruct C2 as (c & Hc & _). destruct (S3 c Hc) as (n & -> & _). eauto. }
      destruct Hc3 as (c3 & Hc3).
      destruct (mounts_declares _ _ _ _ Emnt Ed Hc3)
        as (ro & rw & T4 & C4 & P1 & P2 & L1 & _).
      exists ro, rw. rewrite F4. split; [|intros Hx; destruct (Hno3 Hx)].
      unfold declared. rewrite C4, T4, T3.
      rewrite !builder_mounts_of_app, B2. cbn [builder_mounts_of flat_map app].
      fold (builder_mounts_of (builderMounts true ro ++ builderMounts false rw)).
      rewrite builder_mounts_of_app, !builder_mounts_of_builderMounts.
      rewrite !conf_mounts_of_edits, !conf_mounts_of_confMounts.
      rewrite Hc3 in Q3. destruct c3 as [src v2 ed]. cbn [conf_source conf_v2 conf_edits].
      rewrite Q3. cbn [app]. repeat split; auto.
  - (* stopped in the fragments *)
    pose proof (prepareConfig_quiet _ _ _ _ _ Ecfg) as Q2.
    pose proof (applyFragments_quiet _ _ _ Efrag) as Q3.
    destruct Fdev as (C1 & T1 & _). destruct Fcfg as (F2 & _ & X2 & C2).
    destruct Ffrag as (F3 & _ & T3 & _).
    cbn [flags config trace deferred] in *.
    destruct (Hlow s1 s2 T1 X2) as (L2 & B2).
    rewrite C1 in Q2. specialize (Q3 (Q2 eq_refl)).
    exists [], []. split.
    + apply declared_nothing; [rewrite T3; exact B2|exact Q3].
    + intros (e & Hin & H3). exfalso.
      eapply phase1_no_assembly; [|exact Hin|exact H3]. rewrite T3. exact L2.
  - (* stopped in the rendering *)
    pose proof (prepareConfig_quiet _ _ _ _ _ Ecfg) as Q2.
    destruct Fdev as (C1 & T1 & _). destruct Fcfg as (F2 & _ & X2 & C2).
    cbn [flags config trace deferred] in *.
    destruct (Hlow s1 s T1 X2) as (L2 & B2).
    rewrite C1 in Q2.
    exists [], []. split.
    + apply declared_nothing; [exact B2|exact (Q2 eq_refl)].
    + intros (e & Hin & H3). exfalso.
      eapply phase1_no_assembly; [exact L2|exact Hin|exact H3].
  - (* stopped in the devshell block *)
    destruct Fdev as (C1 & T1 & _). cbn [flags config trace deferred] in *.
    exists [], []. split.
    + apply declared_nothing; [rewrite T1|rewrite C1]; reflexivity.
    + intros (e & Hin & _). rewrite T1 in Hin. destruct Hin.
Qed.

(** Every run is a run of [prelude] followed by calls of the driver and the
    deferred calls. *)
Lemma run_extends (w : World) (k : Kola) (args : list string) (f : Flags) :
  exists r s extra,
    prelude w k args (initial f) = (r, s)
    /\ run_trace (runQemuExec w k args f) = trace s ++ extra
    /\ Forall (fun e => 4 <= phase_of e) extra
    /\ run_flags (runQemuExec w k args f) = flags s
    /\ run_config (runQemuExec w k args f) = config s.
Proof.
  destruct (prelude w k args (initial f)) as [[u|x] s] eqn:P.
  - destruct (run_after_prelude _ _ _ _ _ _ P) as (Hf & Hc & Hrun).
    assert (Hh : Forall (fun e => 4 <= phase_of e) (handover s)).
    { unfold handover. destruct (config s); [repeat constructor|].
      destruct (directIgnition (flags s)); repeat constructor. }
    destruct (devshell (flags s) && negb (devshellConsole (flags s))).
    + destruct Hrun as (T & _). eexists _, s, _.
      split; [reflexivity|]. split; [exact T|]. split; [|auto].
      repeat constructor.
    + cbv zeta in Hrun.
      destruct (Exec w _); destruct Hrun as (T & _);
        rewrite <- !app_assoc in T;
        (eexists _, s, _; split; [reflexivity|]; split; [exact T|];
         split; [|auto]);
        (apply Forall_app; split; [exact Hh|]);
        unfold wait_call; destruct (propagateInitramfsFailure (flags s));
        repeat constructor.
  - rewrite run_unfold, P. cbn.
    destruct (prelude_trace _ _ _ _ _ _ P) as (_ & Hd).
    eexists _, s, _. split; [reflexivity|]. split; [reflexivity|].
    split; [|auto]. destruct Hd as [-> | ->]; repeat constructor.
Qed.

Lemma prelude_calls (w : World) (k : Kola) (args : list string) (f : Flags)
      (u : unit) (s : St) :
  prelude w k args (initial f) = (Next u, s) ->
  In (EvBuilderSet (Hostname (hostname (flags s)))) (trace s)
  /\ In (EvAppend args) (trace s)
  /\ (cpuCountHost (flags s) = true ->
      In (EvBuilderSet (Processors (-1))) (trace s))
  /\ (usernet (flags s) = true ->
      In (EvEnableUsermodeNetworking [mkHostForwardPort "ssh" 0 22]) (trace s))
  /\ (is_empty (QEMUOptions_DiskImage k) = false ->
      In (EvAddBootDisk (bootDisk k)) (trace s)).
Proof.
  intros H. prelude_inv H; try discriminate.
  destruct Fasm as (F5 & _).
  destruct (assemble_calls _ _ _ _ _ _ H) as (evs & T & H1 & H2 & H3 & H4 & H5).
  rewrite T, F5.
  repeat split; intros; apply in_or_app; right; auto.
Qed.

(** C5.  In every run the bindings declared to the builder are those
    declared to the document, with the same guest paths and access modes in
    the same order: what [parseBindOpt] made of the leading read-only specs,
    then of the leading read-write specs, all of them once an assembly call
    was made.  Under direct-ignition any bind spec makes the run an
    error. *)
Theorem mounts_declared_to_both (w : World) (k : Kola) (args : list string)
        (f : Flags) :
  let R := runQemuExec w k args f in
  (exists ro rw,
     declared (run_flags R) (run_trace R) (run_config R) ro rw
     /\ (assembly_started (run_trace R) ->
         List.length ro = List.length (bindro (run_flags R))
         /\ List.length rw = List.length (bindrw (run_flags R))))
  /\ map (fun m => (snd (fst m), snd m)) (builder_mounts_of (run_trace R))
     = conf_mounts_of (run_config R)
  /\ (directIgnition f = true -> bindro f <> [] \/ bindrw f <> [] ->
      exists e, run_result R = Returned (Some e)).
Proof.
  cbv zeta.
  destruct (run_extends w k args f) as (r & s & extra & P & T & Hx & Hf & Hc).
  destruct (prelude_declared _ _ _ _ _ _ P) as (ro & rw & Hdecl & Hfull).
  assert (Hextra : builder_mounts_of extra = []).
  { apply builder_mounts_of_other. eapply Forall_impl; [|exact Hx].
    cbn. intros e He. lia. }
  assert (Hdecl' : declared (run_flags (runQemuExec w k args f))
                     (run_trace (runQemuExec w k args f))
                     (run_config (runQemuExec w k args f)) ro rw).
  { rewrite Hf, Hc, T. unfold declared in *.
    rewrite builder_mounts_of_app, Hextra, app_nil_r. exact Hdecl. }
  split; [|split].
  - exists ro, rw. split; [exact Hdecl'|].
    intros (e & Hin & H3). rewrite Hf. apply Hfull.
    rewrite T in Hin. apply in_app_or in Hin. destruct Hin as [Hin|Hin].
    + exists e. auto.
    + rewrite Forall_forall in Hx. specialize (Hx e Hin). lia.
  - destruct Hdecl' as (Hb & Hcm & _). rewrite Hb, Hcm.
    rewrite map_app, !map_map. reflexivity.
  - intros Hd Hbind.
    destruct (conflict_under_direct w k args f Hd (or_intror Hbind))
      as ((msg & _ & Hr) & _).
    eexists. exact Hr.
Qed.

Lemma mounts_declared_to_both_witness :
  directIgnition direct_bind = true
  /\ (bindro direct_bind <> [] \/ bindrw direct_bind <> [])
  /\ exists e,
      run_result (runQemuExec calm fcos [] direct_bind) = Returned (Some e).
Proof.
  assert (H1 : directIgnition direct_bind = true) by reflexivity.
  assert (H2 : bindro direct_bind <> [] \/ bindrw direct_bind <> [])
    by (left; discriminate).
  split; [exact H1|]. split; [exact H2|].
  exact (proj2 (proj2 (mounts_declared_to_both calm fcos [] direct_bind)) H1 H2).
Defined.

Example bind_a_declared :
  builder_mounts_of (run_trace (runQemuExec calm fcos [] bind_a))
  = [("/host/a", "/guest/a", true)]
  /\ conf_mounts_of (run_config (runQemuExec calm fcos [] bind_a))
     = [("/guest/a", true)].
Proof. split; vm_compute; reflexivity. Qed.

(** ** Bind options *)

(** C6, as the code has it.  [parseBindOpt] fails with "malformed bind
    option, required: SRC,DEST" and empty strings exactly on the strings
    that hold no comma; on every other string it succeeds and splits at the
    first comma, the source holding no comma and the destination being all
    that follows, further commas included. *)
Theorem parseBindOpt_first_comma (s : string) :
  (GoStrings.count ","%char s = 0
   /\ parseBindOpt s
      = (EmptyString, EmptyString, Some (Errorf "malformed bind option, required: SRC,DEST")))
  \/ (exists src dest,
        s = (src ++ "," ++ dest)%string
        /\ GoStrings.count ","%char src = 0
        /\ parseBindOpt s = (src, dest, None)).
Proof.
  rewrite parseBindOpt_unfold.
  destruct (GoStrings.cut ","%char s) as [[a b]|] eqn:E.
  - right. exists a, b. destruct (cut_some _ _ _ _ E) as (Hs & Hc). auto.
  - left. split; [|reflexivity]. apply cut_none. exact E.
Qed.

(** C6 as worded fails on "exactly one comma separator is required": a
    string with two commas is accepted. *)
Lemma two_commas_accepted :
  ~ one_separator "a,b,c" /\ parseBindOpt "a,b,c" = ("a", "b,c", None).
Proof. split; [unfold one_separator; cbn; discriminate|reflexivity]. Qed.

(** ** Fragments *)

(** C7.  On a document, [renderFragments] never panics and changes the
    document only by appending one auto-login per fragment processed.  It
    returns an error exactly when some name differs from "autologin"; the
    error names the first such fragment, and the edits applied are those of
    the fragments before it. *)
Theorem renderFragments_first_unknown (fragments : list string) (c : Conf) :
  exists n err,
    renderFragments fragments (Some c)
    = (Next err,
       Some (mkConf (conf_source c) (conf_v2 c)
               (conf_edits c ++ repeat AutoLogin n)))
    /\ (err <> None <-> exists x, In x fragments /\ x <> "autologin")
    /\ ((err = None /\ Forall (eq "autologin") fragments
         /\ n = List.length fragments)
        \/ (exists pre bad post,
              fragments = pre ++ bad :: post
              /\ Forall (eq "autologin") pre
              /\ bad <> "autologin"
              /\ n = List.length pre
              /\ err = Some (Errorf ("Unknown fragment: " ++ bad)))).
Proof.
  destruct (renderFragments_doc fragments c) as (n & err & Hr & Hc).
  exists n, err. split; [exact Hr|]. split; [|exact Hc].
  destruct Hc as [(-> & Hall & _) | (pre & bad & post & -> & _ & Hb & _ & ->)].
  - split; [congruence|]. intros (x & Hin & Hx).
    rewrite Forall_forall in Hall. exfalso. apply Hx. symmetry. auto.
  - split; [|discriminate]. intros _. exists bad. split; [|exact Hb].
    apply in_or_app. right. cbn. auto.
Qed.

(** ** Devshell defaults *)

(** C8.  With devshell or devshell-console set: once the checks of the
    devshell block pass, user networking and host CPU count are switched on,
    "autologin" is appended to the fragments, and an empty hostname becomes
    the devshell hostname; and once the machine is assembled, the builder
    got user-mode networking with the ssh forward, [Processors = -1] and
    that hostname, and the document handed on holds an auto-login. *)
Theorem devshell_defaults (w : World) (k : Kola) (args : list string)
        (f : Flags) :
  devshell f || devshellConsole f = true ->
  (forall s0 u s1,
     flags s0 = f -> devshellSetup k s0 = (Next u, s1) ->
     usernet (flags s1) = true
     /\ cpuCountHost (flags s1) = true
     /\ ignitionFragments (flags s1) = ignitionFragments f ++ ["autologin"]
     /\ hostname (flags s1)
        = (if is_empty (hostname f) then devshellHostname k else hostname f))
  /\ (forall u s,
        prelude w k args (initial f) = (Next u, s) ->
        In (EvEnableUsermodeNetworking [mkHostForwardPort "ssh" 0 22]) (trace s)
        /\ In (EvBuilderSet (Processors (-1))) (trace s)
        /\ In (EvBuilderSet (Hostname (if is_empty (hostname f)
                                       then devshellHostname k
                                       else hostname f))) (trace s)
        /\ exists c,
            config s = Some c /\ In AutoLogin (conf_edits c)
            /\ (In (EvSetConfig c) (run_trace (runQemuExec w k args f))
                \/ In (EvRunDevShellSSH (Some c))
                     (run_trace (runQemuExec w k args f)))).
Proof.
  intros Hdev. split.
  - intros s0 u s1 <- E.
    destruct (devshellSetup_frame _ _ _ _ E) as (_ & _ & _ & _ & P).
    destruct (P u eq_refl) as (Hd & _ & Hon).
    rewrite Hdev in Hd. destruct (Hon Hd) as (_ & H1 & H2 & H3 & H4 & _).
    auto.
  - intros u s P.
    destruct (prelude_next _ _ _ _ _ _ P) as ((Hd & _ & Hon) & _ & Hcfg).
    rewrite Hdev in Hd. destruct (Hon Hd) as (Hdi & H1 & H2 & _ & H4 & _).
    destruct (prelude_calls _ _ _ _ _ _ P) as (Ch & _ & Cc & Cu & _).
    rewrite Hdi in Hcfg. destruct Hcfg as (c & Hc & Ha).
    rewrite H4 in Ch.
    split; [auto|]. split; [auto|]. split; [exact Ch|].
    exists c. split; [exact Hc|]. split; [auto|].
    destruct (run_after_prelude _ _ _ _ _ _ P) as (_ & _ & Hrun).
    destruct (devshell (flags s) && negb (devshellConsole (flags s))).
    + right. destruct Hrun as (-> & _). rewrite Hc.
      apply in_or_app. right. cbn. auto.
    + left. cbv zeta in Hrun. unfold handover in Hrun. rewrite Hc in Hrun.
      destruct (Exec w _); destruct Hrun as (-> & _);
        rewrite <- !app_assoc; apply in_or_app; right; cbn; auto.
Qed.

Lemma devshell_defaults_witness :
  devshell console_headless || devshellConsole console_headless = true
  /\ prelude calm fcos [] (initial console_headless)
     = (Next tt, console_headless_ready)
  /\ In (EvBuilderSet (Processors (-1))) (trace console_headless_ready).
Proof.
  assert (H1 : devshell console_headless || devshellConsole console_headless
               = true) by reflexivity.
  assert (H2 : prelude calm fcos [] (initial console_headless)
               = (Next tt, console_headless_ready))
    by (vm_compute; reflexivity).
  split; [exact H1|]. split; [exact H2|].
  exact (proj1 (proj2 (proj2 (devshell_defaults calm fcos [] console_headless H1)
                         tt console_headless_ready H2))).
Defined.

(** ** Boot disk *)

(** C9.  The only boot disk a run ever adds is the one over the platform
    disk image, and only when that path is not empty; a run that assembles
    the machine with a non-empty path has added it.  Its channel is "nvme"
    under the NVMe option and "virtio" otherwise, its sector size 4096 under
    the native-4k option and 0 otherwise. *)
Theorem boot_disk_added (w : World) (k : Kola) (args : list string) (f : Flags) :
  let R := runQemuExec w k args f in
  (forall d, In (EvAddBootDisk d) (run_trace R) ->
             QEMUOptions_DiskImage k <> EmptyString /\ d = bootDisk k)
  /\ (forall u s, prelude w k args (initial f) = (Next u, s) ->
                  QEMUOptions_DiskImage k <> EmptyString ->
                  In (EvAddBootDisk (bootDisk k)) (run_trace R))
  /\ BackingFile (bootDisk k) = QEMUOptions_DiskImage k
  /\ Channel (bootDisk k) = (if QEMUOptions_Nvme k then "nvme" else "virtio")
  /\ SectorSize (bootDisk k) = (if QEMUOptions_Native4k k then 4096 else 0)%Z.
Proof.
  cbv zeta.
  destruct (run_extends w k args f) as (r & s & extra & P & T & Hx & _).
  destruct (prelude_trace _ _ _ _ _ _ P) as (Hall & _).
  split; [|split; [|repeat split]].
  - intros d Hin. rewrite T in Hin. apply in_app_or in Hin.
    destruct Hin as [Hin|Hin].
    + rewrite Forall_forall in Hall. destruct (Hall _ Hin) as (_ & Hb).
      destruct (Hb d eq_refl) as (He & ->). split; [|reflexivity].
      apply String.eqb_neq. exact He.
    + rewrite Forall_forall in Hx. specialize (Hx _ Hin). cbn in Hx. lia.
  - intros u s' P' Hne. rewrite P in P'. inversion P'; subst.
    destruct (prelude_calls _ _ _ _ _ _ P) as (_ & _ & _ & _ & Hb).
    rewrite T. apply in_or_app. left. apply Hb.
    apply String.eqb_neq. exact Hne.
Qed.

Lemma boot_disk_added_witness :
  prelude calm fcos [] (initial headless) = (Next tt, headless_ready)
  /\ QEMUOptions_DiskImage fcos <> EmptyString
  /\ In (EvAddBootDisk (bootDisk fcos))
       (run_trace (runQemuExec calm fcos [] headless)).
Proof.
  assert (H1 : prelude calm fcos [] (initial headless)
               = (Next tt, headless_ready))
    by (vm_compute; reflexivity).
  assert (H2 : QEMUOptions_DiskImage fcos <> EmptyString) by discriminate.
  split; [exact H1|]. split; [exact H2|].
  exact (proj1 (proj2 (boot_disk_added calm fcos [] headless))
           tt headless_ready H1 H2).
Defined.

(** ** The check before [SetConfig] *)

Section Stops.

Variable Q : result -> Prop.

Lemma stops_never {A} (m : M A) :
  (forall s, exists a s', m s = (Next a, s')) -> stops Q m.
Proof. intros H s x s' E. destruct (H s) as (a & s1 & E1). congruence. Qed.

Lemma stops_ret {A} (a : A) : stops Q (ret a).
Proof. apply stops_never. intros s. eexists _, _. reflexivity. Qed.

Lemma stops_emit e : stops Q (emit e).
Proof. apply stops_never. intros s. eexists _, _. reflexivity. Qed.

Lemma stops_defer e : stops Q (defer e).
Proof. apply stops_never. intros s. eexists _, _. reflexivity. Qed.

Lemma stops_call {A} e (f : list Event -> io A) : stops Q (call e f).
Proof. apply stops_never. intros s. eexists _, _. reflexivity. Qed.

Lemma stops_getFlags : stops Q getFlags.
Proof. apply stops_never. intros s. eexists _, _. reflexivity. Qed.

Lemma stops_setConfig c : stops Q (setConfig c).
Proof. apply stops_never. intros s. eexists _, _. reflexivity. Qed.

Lemma stops_modifyFlags g : stops Q (modifyFlags g).
Proof. apply stops_never. intros s. eexists _, _. reflexivity. Qed.

Lemma stops_return {A} e : Q (Returned e) -> stops Q (@return_ A e).
Proof. intros H s x s' E. inversion E; subst. exact H. Qed.

Lemma stops_bind {A B} (m : M A) (f : A -> M B) :
  stops Q m -> (forall a, stops Q (f a)) -> stops Q (bind m f).
Proof.
  intros Hm Hf s x s' E. apply bind_inv in E.
  destruct E as [(a & s1 & E1 & E2) | (y & E1 & Hy)].
  - eapply Hf; eauto.
  - inversion Hy; subst. eapply Hm; eauto.
Qed.

Lemma stops_when b (m : M unit) : stops Q m -> stops Q (when b m).
Proof. destruct b; cbn; auto using stops_ret. Qed.

Lemma stops_onConfig {A} (op : option Conf -> step A * option Conf) :
  (forall c x c', op c = (Stop x, c') -> Q x) -> stops Q (onConfig op).
Proof.
  intros H s x s' E. unfold onConfig in E.
  destruct (op (config s)) as [r c'] eqn:Eo. inversion E; subst.
  eapply H; eauto.
Qed.

End Stops.

Ltac stops_tac :=
  repeat first
    [ apply stops_ret
    | apply stops_emit
    | apply stops_defer
    | apply stops_call
    | apply stops_getFlags
    | apply stops_setConfig
    | apply stops_modifyFlags
    | apply stops_when
    | apply stops_bind; [|intros]
    | apply stops_return
    | match goal with
      | |- stops _ (match ?x with _ => _ end) => destruct x
      | |- stops _ (if ?b then _ else _) => destruct b
      end ].

Lemma renderFragments_stop (fragments : list string) :
  forall c x c', renderFragments fragments c = (Stop x, c') -> x = Panicked.
Proof.
  induction fragments as [|fr rest IH]; intros c x c'; cbn.
  - discriminate.
  - destruct (String.eqb fr "autologin").
    + destruct c; [apply IH|]. intros H; inversion H; reflexivity.
    + discriminate.
Qed.

Lemma mountLoop_stops (ro : bool) (binds : list string) :
  stops not_handover_conflict (mountLoop ro binds).
Proof.
  induction binds as [|b rest IH]; cbn -[parseBindOpt].
  - apply stops_ret.
  - apply stops_bind; [apply stops_getFlags|intros f].
    destruct (directIgnition f).
    + apply stops_return. unfold not_handover_conflict. discriminate.
    + rewrite parseBindOpt_unfold.
      destruct (GoStrings.cut ","%char b) as [[src dest]|].
      * stops_tac; [|exact IH].
        apply stops_onConfig. intros c x c' H.
        destruct c; inversion H. unfold not_handover_conflict. discriminate.
      * apply stops_return. unfold not_handover_conflict. discriminate.
Qed.

Lemma addDiskLoop_stops (w : World) (sizes : list string) :
  stops not_handover_conflict (addDiskLoop w sizes).
Proof.
  induction sizes as [|size rest IH]; cbn.
  - apply stops_ret.
  - stops_tac; [exact IH|]. unfold not_handover_conflict. discriminate.
Qed.

Lemma prelude_stops (w : World) (k : Kola) (args : list string) :
  stops not_handover_conflict (prelude w k args).
Proof.
  unfold prelude, devshellSetup, prepareConfig, applyFragments, mounts, assemble.
  stops_tac;
    try (unfold not_handover_conflict; discriminate);
    try apply mountLoop_stops; try apply addDiskLoop_stops.
  apply stops_onConfig. intros c x c' H.
  apply renderFragments_stop in H. subst.
  unfold not_handover_conflict. discriminate.
Qed.

(** C10.  When the driver is reached, [config] is non-nil exactly when
    direct-ignition is off, so the hand-over falls through and never takes
    the branch returning "Cannot use fragments/mounts with direct ignition";
    and no run at all returns that error. *)
Theorem handover_conflict_unreachable (w : World) (k : Kola)
        (args : list string) (f : Flags) :
  (forall u s,
     prelude w k args (initial f) = (Next u, s) ->
     (config s <> None <-> directIgnition (flags s) = false)
     /\ exists s', handOver s = (Next tt, s'))
  /\ run_result (runQemuExec w k args f)
     <> Returned (Some (Errorf "Cannot use fragments/mounts with direct ignition")).
Proof.
  split.
  - intros u s P.
    destruct (prelude_next _ _ _ _ _ _ P) as (_ & _ & Hcfg).
    pose proof (prelude_inputs _ _ _ _ _ _ P) as (_ & _ & _ & _ & _ & Hdi & _).
    rewrite <- Hdi in Hcfg. rewrite handOver_cases.
    destruct (directIgnition (flags s)).
    + rewrite Hcfg. split; [|eauto]. split; [congruence|discriminate].
    + destruct Hcfg as (c & -> & _). split; [|eauto].
      split; [reflexivity|discriminate].
  - destruct (prelude w k args (initial f)) as [[u|x] s] eqn:P.
    + destruct (run_after_prelude _ _ _ _ _ _ P) as (_ & _ & Hrun).
      destruct (devshell (flags s) && negb (devshellConsole (flags s))).
      * destruct Hrun as (_ & ->).
        destruct (runDevShellSSH w _ _); discriminate.
      * cbv zeta in Hrun.
        destruct (Exec w _); destruct Hrun as (_ & ->); [|discriminate].
        destruct (wait_answer w _ _); discriminate.
    + rewrite run_unfold, P. cbn. exact (prelude_stops w k args _ _ _ P).
Qed.

Lemma handover_conflict_unreachable_witness :
  prelude calm fcos [] (initial direct_file) = (Next tt, direct_file_ready)
  /\ (config direct_file_ready <> None
      <-> directIgnition (flags direct_file_ready) = false)
  /\ exists s', handOver direct_file_ready = (Next tt, s').
Proof.
  assert (H : prelude calm fcos [] (initial direct_file)
              = (Next tt, direct_file_ready)) by (vm_compute; reflexivity).
  split; [exact H|].
  exact (proj1 (handover_conflict_unreachable calm fcos [] direct_file)
           tt direct_file_ready H).
Defined.


(** ** No nil dereference *)

Lemma mountLoop_returns (readOnly : bool) (binds : list string) :
  forall s x s',
    mountLoop readOnly binds s = (Stop x, s') ->
    (config s = None -> directIgnition (flags s) = true) ->
    exists e, x = Returned (Some e).
Proof.
  induction binds as [|b rest IH]; intros s x s'; cbn -[parseBindOpt].
  - discriminate.
  - unfold bind at 1, getFlags. cbn -[parseBindOpt]. intros H Hc.
    destruct (directIgnition (flags s)) eqn:Ed.
    + inversion H; subst. eauto.
    + destruct (parseBindOpt b) as [[src dest] [e|]].
      * inversion H; subst. eauto.
      * unfold bind at 1, config_Mount9p, onConfig in H.
        cbn [config flags trace deferred] in H.
        destruct (config s) as [c|]; [|specialize (Hc eq_refl); discriminate].
        eapply IH; [exact H|]. cbn. discriminate.
Qed.

Lemma mounts_returns (s s' : St) (x : result) :
  mounts s = (Stop x, s') ->
  (config s = None -> directIgnition (flags s) = true) ->
  exists e, x = Returned (Some e).
Proof.
  unfold mounts. intros H Hc.
  apply bind_inv in H.
  destruct H as [(a & s1 & E1 & H) | (y & E1 & _)]; [|discriminate].
  inversion E1; subst; clear E1.
  apply bind_inv in H.
  destruct H as [(a & s1 & E1 & H) | (y & E1 & _)]; [|discriminate].
  inversion E1; subst; clear E1.
  apply bind_inv in H.
  destruct H as [(f & s1 & E1 & H) | (y & E1 & _)]; [|discriminate].
  inversion E1; subst; clear E1. cbv beta in H.
  apply bind_inv in H.
  destruct H as [(a1 & s1 & E1 & H) | (y & E1 & Hy)].
  - destruct (mountLoop_frame _ _ _ _ _ E1) as (F1 & _ & _ & C1).
    cbn [config flags trace deferred] in *.
    apply bind_inv in H.
    destruct H as [(f2 & s2 & E2 & H) | (y & E2 & _)]; [|discriminate].
    inversion E2; subst; clear E2.
    eapply mountLoop_returns; [exact H|].
    intros Hn. rewrite F1. apply Hc, C1, Hn.
  - inversion Hy; subst. eapply mountLoop_returns; [exact E1|exact Hc].
Qed.

Lemma applyFragments_returns (s s' : St) (x : result) :
  applyFragments s = (Stop x, s') ->
  (config s = None -> directIgnition (flags s) = true) ->
  exists e, x = Returned (Some e).
Proof.
  destruct s as [f c t d].
  unfold applyFragments, bind, getFlags, when, onConfig, return_, ret.
  cbn -[renderFragments Nat.ltb]. intros H Hc.
  destruct (Nat.ltb 0 (List.length (ignitionFragments f))); [|discriminate].
  destruct (directIgnition f) eqn:Ed.
  - inversion H; subst. eauto.
  - destruct c as [c|]; [|specialize (Hc eq_refl); discriminate].
    destruct (renderFragments_doc (ignitionFragments f) c) as (n & err & Hr & _).
    cbn [config flags trace deferred] in H. rewrite Hr in H.
    destruct err; inversion H; subst. eauto.
Qed.

Lemma addDiskLoop_returns (w : World) (sizes : list string) :
  stops (fun x => exists e, x = Returned (Some e)) (addDiskLoop w sizes).
Proof.
  induction sizes as [|size rest IH]; cbn.
  - apply stops_ret.
  - stops_tac; [exact IH|]. eauto.
Qed.

(** [prelude] stops only by returning an error. *)
Lemma prelude_returns (w : World) (k : Kola) (args : list string) (f : Flags)
      (x : result) (s : St) :
  prelude w k args (initial f) = (Stop x, s) ->
  exists e, x = Returned (Some e).
Proof.
  intros P. prelude_inv P.
  - assert (Hq : stops (fun x => exists e, x = Returned (Some e))
                   (assemble w k args)).
    { unfold assemble. stops_tac; eauto using addDiskLoop_returns. }
    exact (Hq _ _ _ P).
  - match goal with Hx : Stop _ = Stop _ |- _ => inversion Hx; subst end.
    eapply mounts_returns; [exact Emnt|].
    destruct Fcfg as (F2 & _ & _ & C2). destruct Ffrag as (F3 & _ & _ & _ & S3).
    specialize (C2 _ eq_refl). cbn [flags config trace deferred] in *.
    rewrite F3. intros Hn.
    destruct (directIgnition (flags s2)) eqn:Ed; [reflexivity|].
    rewrite F2 in Ed. rewrite Ed in C2.
    destruct C2 as (c & Hc2 & _). destruct (S3 c Hc2) as (n & Hc3 & _).
    congruence.
  - match goal with Hx : Stop _ = Stop _ |- _ => inversion Hx; subst end.
    eapply applyFragments_returns; [exact Efrag|].
    destruct Fcfg as (F2 & _ & _ & C2). specialize (C2 _ eq_refl).
    intros Hn. destruct (directIgnition (flags s2)) eqn:Ed; [reflexivity|].
    rewrite F2 in Ed. rewrite Ed in C2. destruct C2 as (c & Hc2 & _).
    congruence.
  - match goal with Hx : Stop _ = Stop _ |- _ => inversion Hx; subst end.
    assert (Hq : stops (fun x => exists e, x = Returned (Some e))
                   (prepareConfig w k)).
    { unfold prepareConfig. stops_tac; eauto. }
    exact (Hq _ _ _ Ecfg).
  - match goal with Hx : Stop _ = Stop _ |- _ => inversion Hx; subst end.
    assert (Hq : stops (fun x => exists e, x = Returned (Some e))
                   (devshellSetup k)).
    { unfold devshellSetup. stops_tac; eauto. }
    exact (Hq _ _ _ Edev).
Qed.

(** No run dereferences a nil [config]: every run returns. *)
Lemma runQemuExec_returns (w : World) (k : Kola) (args : list string) (f : Flags) :
  exists err, run_result (runQemuExec w k args f) = Returned err.
Proof.
  destruct (prelude w k args (initial f)) as [[u|x] s] eqn:P.
  - destruct (run_after_prelude _ _ _ _ _ _ P) as (_ & _ & Hrun).
    destruct (devshell (flags s) && negb (devshellConsole (flags s))).
    + destruct Hrun as (_ & ->). eauto.
    + cbv zeta in Hrun. destruct (Exec w _); destruct Hrun as (_ & ->); eauto.
  - rewrite run_unfold, P. cbn.
    destruct (prelude_returns _ _ _ _ _ _ P) as (e & ->). eauto.
Qed.

(** ** Sample runs *)

Example headless_run :
  runQemuExec calm fcos [] headless
  = mkRun (Returned None) headless (Some (mkConf EmptyIgnition false []))
      (launch_pre ++ EvExec :: launch_post).
Proof. vm_compute. reflexivity. Qed.

Example devshell_run :
  let R := runQemuExec calm fcos [] devshell_only in
  run_result R = Returned None
  /\ hostname (run_flags R) = "cosa-devsh"
  /\ usernet (run_flags R) = true
  /\ driver_calls (run_trace R) = [ViaSSH]
  /\ run_config R
     = Some (mkConf EmptyIgnition false
               [AutoLogin; MountUnit "/var/mnt/workdir" true;
                MountUnit "/var/mnt/workdir-tmp" false]).
Proof. vm_compute. repeat split. Qed.

Example parseBindOpt_samples :
  parseBindOpt "/host/a,/guest/a" = ("/host/a", "/guest/a", None)
  /\ parseBindOpt ","%string = (EmptyString, EmptyString, None)
  /\ parseBindOpt EmptyString
     = (EmptyString, EmptyString,
        Some (Errorf "malformed bind option, required: SRC,DEST"))
  /\ parseBindOpt "nocomma"
     = (EmptyString, EmptyString, Some (Errorf "malformed bind option, required: SRC,DEST")).
Proof. repeat split. Qed.

Example renderFragments_samples :
  renderFragments ["autologin"; "bogus"; "autologin"]
    (Some (mkConf EmptyIgnition false []))
  = (Next (Some (Errorf "Unknown fragment: bogus")),
     Some (mkConf EmptyIgnition false [AutoLogin])).
Proof. reflexivity. Qed.

Example Base_samples :
  GoStrings.Base "/a/b/rhcos-4.qcow2//" = "rhcos-4.qcow2"
  /\ GoStrings.Base "///" = "/"
  /\ GoStrings.Base EmptyString = "."
  /\ GoStrings.Base "fcos.qcow2" = "fcos.qcow2".
Proof. repeat split. Qed.

(** * Further properties *)

(** ** The sequence of assembly calls *)

Section Traces.

Lemma traces_ret {A} (a : A) : traces [] (ret a).
Proof.
  intros s r s' H. inversion H; subst. exists []. rewrite app_nil_r. auto.
Qed.

Lemma traces_getFlags : traces [] getFlags.
Proof.
  intros s r s' H. inversion H; subst. exists []. rewrite app_nil_r. auto.
Qed.

Lemma traces_return {A} (full : list Event) (e : error) :
  traces full (@return_ A (Some e)).
Proof.
  intros s r s' H. inversion H; subst. exists []. rewrite app_nil_r.
  split; [reflexivity|]. split; [exists full; reflexivity|eauto].
Qed.

Lemma traces_emit (e : Event) : traces [e] (emit e).
Proof. intros s r s' H. inversion H; subst. exists [e]. cbn. auto. Qed.

Lemma traces_call {A} (e : Event) (f : list Event -> io A) :
  traces [e] (call e f).
Proof. intros s r s' H. inversion H; subst. exists [e]. cbn. auto. Qed.

Lemma traces_bind {A B} (e1 e2 : list Event) (m : M A) (f : A -> M B) :
  traces e1 m -> (forall a, traces e2 (f a)) -> traces (e1 ++ e2) (bind m f).
Proof.
  intros Hm Hf s r s' H. apply bind_inv in H.
  destruct H as [(a & s1 & E1 & E2) | (x & E1 & ->)].
  - destruct (Hm _ _ _ E1) as (v1 & T1 & ->).
    destruct (Hf a _ _ _ E2) as (v2 & T2 & R2).
    exists (e1 ++ v2). split; [rewrite T2, T1, app_assoc; reflexivity|].
    destruct r as [b|x].
    + subst. reflexivity.
    + destruct R2 as ((rest & ->) & He). split; [|exact He].
      exists rest. rewrite app_assoc. reflexivity.
  - destruct (Hm _ _ _ E1) as (v1 & T1 & (rest & ->) & He).
    exists v1. split; [exact T1|]. split; [|exact He].
    exists (rest ++ e2). rewrite app_assoc. reflexivity.
Qed.

Lemma traces_when (full : list Event) (b : bool) (m : M unit) :
  traces full m -> traces (if b then full else []) (when b m).
Proof. destruct b; cbn; auto using traces_ret. Qed.

End Traces.

Lemma addDiskLoop_traces (w : World) (sizes : list string) :
  traces (map (fun size => EvAddDisk (extraDisk size)) sizes)
    (addDiskLoop w sizes).
Proof.
  induction sizes as [|size rest IH]; cbn [addDiskLoop map].
  - apply traces_ret.
  - change (EvAddDisk (extraDisk size)
            :: map (fun size => EvAddDisk (extraDisk size)) rest)
      with ([EvAddDisk (extraDisk size)]
            ++ map (fun size => EvAddDisk (extraDisk size)) rest).
    apply traces_bind; [apply traces_call|].
    intros [u|e]; [exact IH|apply traces_return].
Qed.

(** Build the calls of a sequence of statements. *)
Ltac traces_tac :=
  repeat first
    [ apply traces_ret
    | apply traces_return
    | apply traces_emit
    | apply traces_call
    | apply addDiskLoop_traces
    | eapply traces_when
    | eapply traces_bind; [|intros]
    | match goal with
      | |- traces _ (match ?x with _ => _ end) => destruct x
      end ].

Lemma assemble_traces (w : World) (k : Kola) (args : list string)
      (s s' : St) (r : step unit) :
  assemble w k args s = (r, s') ->
  exists evs,
    trace s' = trace s ++ evs
    /\ match r with
       | Next _ => evs = assembled k args (flags s)
       | Stop x =>
           (exists rest, assembled k args (flags s) = evs ++ rest)
           /\ exists e, x = Returned (Some e)
       end.
Proof.
  intros H. unfold assemble in H. apply bind_inv in H.
  destruct H as [(f & s1 & E1 & E2) | (x & E1 & _)]; [|discriminate].
  inversion E1; subst; clear E1. cbv beta in E2.
  match type of E2 with
  | ?m s1 = _ =>
      assert (Hm : exists full,
                 traces full m /\ full = assembled k args (flags s1))
  end.
  { eexists. split; [traces_tac|]. unfold assembled.
    destruct (Nat.ltb 0 (String.length (knetargs (flags s1))));
      destruct (is_empty (QEMUOptions_DiskImage k));
      destruct (is_empty (QEMUIsoOptions_IsoPath k));
      destruct (Z.eqb (memory (flags s1)) 0);
      destruct (cpuCountHost (flags s1));
      destruct (usernet (flags s1)); reflexivity. }
  destruct Hm as (full & Hm & <-). exact (Hm _ _ _ E2).
Qed.

Lemma prelude_before_assembly (w : World) (k : Kola) (args : list string)
      (f : Flags) (r : step unit) (s : St) :
  prelude w k args (initial f) = (r, s) ->
  (Forall (fun e => phase_of e = 1 \/ phase_of e = 2) (trace s)
   /\ exists x, r = Stop x)
  \/ (exists s4,
        assemble w k args s4 = (r, s)
        /\ Forall (fun e => phase_of e = 1 \/ phase_of e = 2) (trace s4)
        /\ deferred s4 = [EvBuilderClose; EvCancel]
        /\ same_inputs f (flags s4)
        /\ devshell_post k f (flags s4)).
Proof.
  intros H.
  assert (Hlow : forall s1 s3 : St,
             trace s1 = [] -> extends 1 s1 s3 ->
             Forall (fun e => phase_of e = 1 \/ phase_of e = 2) (trace s3)).
  { intros s1 s3 T1 X. eapply extends_Forall; [exact X|auto|].
    rewrite T1. constructor. }
  prelude_inv H.
  - right. exists s4.
    destruct Fdev as (_ & T1 & D1 & S1 & P1).
    destruct Fcfg as (F2 & D2 & X2 & _).
    destruct Ffrag as (F3 & D3 & T3 & _).
    destruct Fmnt as (F4 & D4 & X4 & _).
    cbn [flags config trace deferred] in *.
    assert (Hfl : flags s4 = flags s1) by congruence.
    split; [exact H|]. split.
    { eapply extends_Forall; [exact X4|auto|]. rewrite T3. eauto. }
    split; [congruence|]. rewrite Hfl. split; [exact S1|].
    apply (P1 _ eq_refl).
  - left. destruct Fdev as (_ & T1 & _). destruct Fcfg as (_ & _ & X2 & _).
    destruct Ffrag as (_ & _ & T3 & _). destruct Fmnt as (_ & _ & X4 & _).
    cbn [flags config trace deferred] in *. split; [|eauto].
    eapply extends_Forall; [exact X4|auto|]. rewrite T3. eauto.
  - left. destruct Fdev as (_ & T1 & _). destruct Fcfg as (_ & _ & X2 & _).
    destruct Ffrag as (_ & _ & T3 & _).
    cbn [flags config trace deferred] in *. split; [|eauto].
    rewrite T3. eauto.
  - left. destruct Fdev as (_ & T1 & _). destruct Fcfg as (_ & _ & X2 & _).
    cbn [flags config trace deferred] in *. split; [|eauto]. eauto.
  - left. destruct Fdev as (_ & T1 & _).
    cbn [flags config trace deferred] in *. split; [|eauto].
    rewrite T1. constructor.
Qed.

(** X1.  In a run that reaches the driver the builder has received, after
    the mounts, exactly the calls of [assembled] in that order: the settings
    from the flags, the boot disk and the ISO when their paths are given,
    one disk per [--add-disk] in order, then the console settings and the
    pass-through arguments last. *)
Theorem assembly_sequence (w : World) (k : Kola) (args : list string)
        (f : Flags) (u : unit) (s : St) :
  prelude w k args (initial f) = (Next u, s) ->
  exists pre,
    trace s = pre ++ assembled k args (flags s)
    /\ Forall (fun e => phase_of e = 1 \/ phase_of e = 2) pre
    /\ same_inputs f (flags s).
Proof.
  intros P.
  destruct (prelude_before_assembly _ _ _ _ _ _ P)
    as [(_ & x & Hx) | (s4 & Ha & Hlow & _ & Hs & _)]; [discriminate|].
  destruct (assemble_emits _ _ _ _ _ _ Ha) as (Hf & _).
  destruct (assemble_traces _ _ _ _ _ _ Ha) as (evs & T & ->).
  exists (trace s4). rewrite Hf. auto.
Qed.

(** ** Refused builder calls *)

Section StopsAt.

Variable Q : result -> St -> Prop.

Lemma stops_at_never {A} (m : M A) :
  (forall s, exists a s', m s = (Next a, s')) -> stops_at Q m.
Proof. intros H s x s' E. destruct (H s) as (a & s1 & E1). congruence. Qed.

Lemma stops_at_ret {A} (a : A) : stops_at Q (ret a).
Proof. apply stops_at_never. intros s. eexists _, _. reflexivity. Qed.

Lemma stops_at_emit e : stops_at Q (emit e).
Proof. apply stops_at_never. intros s. eexists _, _. reflexivity. Qed.

Lemma stops_at_bind {A B} (m : M A) (f : A -> M B) :
  stops_at Q m -> (forall a, stops_at Q (f a)) -> stops_at Q (bind m f).
Proof.
  intros Hm Hf s x s' E. apply bind_inv in E.
  destruct E as [(a & s1 & E1 & E2) | (y & E1 & Hy)].
  - eapply Hf; eauto.
  - inversion Hy; subst. eapply Hm; eauto.
Qed.

Lemma stops_at_when b (m : M unit) : stops_at Q m -> stops_at Q (when b m).
Proof. destruct b; cbn; auto using stops_at_ret. Qed.

Lemma stops_at_checked {A B} (c : Event) (f : list Event -> io A)
      (g : string -> error) (k : A -> M B) :
  (forall a, stops_at Q (k a)) ->
  (forall s e,
     f (trace s ++ [c]) = Fail e ->
     Q (Returned (Some (g e)))
       (mkSt (flags s) (config s) (trace s ++ [c]) (deferred s))) ->
  stops_at Q (bind (call c f)
                (fun r => match r with
                          | Ok a => k a
                          | Fail e => return_ (Some (g e))
                          end)).
Proof.
  intros Hk Hg s x s' E. unfold bind, call in E.
  destruct (f (trace s ++ [c])) as [a|e] eqn:Ef.
  - eapply Hk. exact E.
  - inversion E; subst. apply Hg. exact Ef.
Qed.

End StopsAt.

Lemma addDiskLoop_refused (w : World) (sizes : list string) :
  stops_at (refused w) (addDiskLoop w sizes).
Proof.
  induction sizes as [|size rest IH]; cbn [addDiskLoop].
  - apply stops_at_ret.
  - apply (stops_at_checked (refused w) (EvAddDisk (extraDisk size))
             (fun t => AddDisk w t (extraDisk size))
             (fun e => Wrapf (External e) "adding additional disk")
             (fun _ => addDiskLoop w rest)).
    + intros _. exact IH.
    + intros s e He. exists (trace s), (EvAddDisk (extraDisk size)), e.
      cbn. rewrite He. auto.
Qed.

Lemma assemble_refused (w : World) (k : Kola) (args : list string) :
  stops_at (refused w) (assemble w k args).
Proof.
  unfold assemble.
  apply stops_at_bind;
    [apply stops_at_never; intros s; eexists _, _; reflexivity|intros f].
  repeat first
    [ apply stops_at_emit
    | apply addDiskLoop_refused
    | apply stops_at_when
    | apply stops_at_bind; [|intros _] ].
  - apply (stops_at_checked (refused w) (EvAddBootDisk (bootDisk k))
             (fun t => AddBootDisk w t (bootDisk k)) External
             (fun _ => ret tt)).
    + intros _. apply stops_at_ret.
    + intros s e He. exists (trace s), (EvAddBootDisk (bootDisk k)), e.
      cbn. rewrite He. auto.
  - apply (stops_at_checked (refused w)
             (EvAddIso (QEMUIsoOptions_IsoPath k) EmptyString)
             (fun t => AddIso w t (QEMUIsoOptions_IsoPath k) EmptyString)
             External (fun _ => ret tt)).
    + intros _. apply stops_at_ret.
    + intros s e He.
      exists (trace s), (EvAddIso (QEMUIsoOptions_IsoPath k) EmptyString), e.
      cbn. rewrite He. auto.
Qed.

Lemma low_not_started (t : list Event) :
  Forall (fun e => phase_of e = 1 \/ phase_of e = 2) t ->
  ~ assembly_started t.
Proof.
  intros Hall (e & Hin & H3). rewrite Forall_forall in Hall.
  destruct (Hall e Hin); congruence.
Qed.

(** X2.  A run that stops during the assembly stopped on its last builder
    call, one of [AddBootDisk], [AddIso] and [AddDisk], which answered with
    an error; the run returns that error, as it is for the boot disk and the
    ISO and wrapped as "adding additional disk" for an additional disk.  The
    calls made are leading calls of the assembly, then the builder is closed
    and the context cancelled. *)
Theorem assembly_failure (w : World) (k : Kola) (args : list string)
        (f : Flags) (x : result) (s : St) :
  prelude w k args (initial f) = (Stop x, s) ->
  assembly_started (trace s) ->
  refused w x s
  /\ (exists pre evs rest,
        trace s = pre ++ evs
        /\ Forall (fun e => phase_of e = 1 \/ phase_of e = 2) pre
        /\ assembled k args (flags s) = evs ++ rest)
  /\ runQemuExec w k args f
     = mkRun x (flags s) (config s) (trace s ++ [EvBuilderClose; EvCancel]).
Proof.
  intros P Hst.
  destruct (prelude_before_assembly _ _ _ _ _ _ P)
    as [(Hlow & _) | (s4 & Ha & Hlow & Hd & _)].
  { destruct (low_not_started _ Hlow Hst). }
  destruct (assemble_emits _ _ _ _ _ _ Ha) as (Hf & _ & Hd' & _).
  destruct (assemble_traces _ _ _ _ _ _ Ha) as (evs & T & (rest & Hrest) & _).
  split; [exact (assemble_refused w k args _ _ _ Ha)|]. split.
  - exists (trace s4), evs, rest. rewrite Hf. auto.
  - rewrite run_unfold, P. unfold finish. rewrite Hd', Hd. reflexivity.
Qed.

Lemma assembly_sequence_witness :
  prelude calm fcos [] (initial headless) = (Next tt, headless_ready)
  /\ exists pre,
      trace headless_ready = pre ++ assembled fcos [] (flags headless_ready)
      /\ Forall (fun e => phase_of e = 1 \/ phase_of e = 2) pre
      /\ same_inputs headless (flags headless_ready).
Proof.
  assert (H : prelude calm fcos [] (initial headless)
              = (Next tt, headless_ready)) by (vm_compute; reflexivity).
  split; [exact H|].
  exact (assembly_sequence calm fcos [] headless tt headless_ready H).
Defined.

Lemma assembly_failure_witness :
  prelude full_disk fcos [] (initial two_disks)
  = (Stop (Returned (Some (Wrapf (External "ENOSPC") "adding additional disk"))),
     two_disks_stopped)
  /\ assembly_started (trace two_disks_stopped)
  /\ refused full_disk
       (Returned (Some (Wrapf (External "ENOSPC") "adding additional disk")))
       two_disks_stopped.
Proof.
  assert (H1 : prelude full_disk fcos [] (initial two_disks)
               = (Stop (Returned (Some (Wrapf (External "ENOSPC")
                                          "adding additional disk"))),
                  two_disks_stopped)) by (vm_compute; reflexivity).
  assert (H2 : assembly_started (trace two_disks_stopped)).
  { exists (EvAddDisk (extraDisk "1G")). split; [|reflexivity].
    cbn. auto 10. }
  split; [exact H1|]. split; [exact H2|].
  exact (proj1 (assembly_failure full_disk fcos [] two_disks _
                  two_disks_stopped H1 H2)).
Defined.

(** ** Settings only as asked *)

Lemma run_assembly_calls (w : World) (k : Kola) (args : list string)
      (f : Flags) (e : Event) :
  In e (run_trace (runQemuExec w k args f)) ->
  phase_of e = 3 ->
  exists f',
    In e (assembled k args f')
    /\ same_inputs f f' /\ devshell_post k f f'.
Proof.
  intros Hin H3.
  destruct (run_extends w k args f) as (r & s & extra & P & T & Hx & _).
  rewrite T in Hin. apply in_app_or in Hin. destruct Hin as [Hin|Hin].
  2:{ rewrite Forall_forall in Hx. specialize (Hx e Hin). lia. }
  destruct (prelude_before_assembly _ _ _ _ _ _ P)
    as [(Hlow & _) | (s4 & Ha & Hlow & _ & Hs & Hp)].
  { exfalso. apply (low_not_started _ Hlow). exists e. auto. }
  exists (flags s4). split; [|auto].
  destruct (assemble_traces _ _ _ _ _ _ Ha) as (evs & Te & Hr).
  rewrite Te in Hin. apply in_app_or in Hin. destruct Hin as [Hin|Hin].
  { exfalso. apply (low_not_started _ Hlow). exists e. auto. }
  destruct r as [u|x].
  - subst. exact Hin.
  - destruct Hr as ((rest & ->) & _). apply in_or_app. auto.
Qed.

(** Take a membership in [assembled] apart. *)
Ltac in_assembled H :=
  unfold assembled in H;
  repeat (apply in_app_or in H; destruct H as [H|H]);
  try (apply in_map_iff in H; destruct H as (? & H & ?));
  repeat match type of H with
         | In _ (if ?b then _ else _) => destruct b eqn:?
         end;
  cbn in H;
  repeat match type of H with
         | _ \/ _ => destruct H as [H|H]
         end;
  try contradiction; try discriminate H.

(** X3.  Whatever the outcome of a run, the optional builder settings are
    made only as asked: memory only when [--memory] is not 0 and to that
    value, the network kernel arguments only when [--knetargs] is not empty,
    an ISO only for a non-empty ISO path and with an empty label, additional
    disks only for sizes of [--add-disk], [Processors] only to -1 and
    user-mode networking only with the ssh forward to guest port 22, and
    these two only under [--auto-cpus], [--usernet] or a devshell flag. *)
Theorem settings_only_as_asked (w : World) (k : Kola) (args : list string)
        (f : Flags) :
  let t := run_trace (runQemuExec w k args f) in
  (forall m, In (EvBuilderSet (Memory m)) t -> m = memory f /\ m <> 0%Z)
  /\ (forall v, In (EvBuilderSet (IgnitionNetworkKargs v)) t ->
                v = knetargs f /\ v <> EmptyString)
  /\ (forall p l, In (EvAddIso p l) t ->
                  p = QEMUIsoOptions_IsoPath k /\ l = EmptyString
                  /\ p <> EmptyString)
  /\ (forall d, In (EvAddDisk d) t ->
                exists size, In size (addDisks f) /\ d = extraDisk size)
  /\ (forall n, In (EvBuilderSet (Processors n)) t ->
                n = (-1)%Z
                /\ (cpuCountHost f = true \/ devshell f = true
                    \/ devshellConsole f = true))
  /\ (forall h, In (EvEnableUsermodeNetworking h) t ->
                h = [mkHostForwardPort "ssh" 0 22]
                /\ (usernet f = true \/ devshell f = true
                    \/ devshellConsole f = true)).
Proof.
  cbv zeta.
  assert (Hflag : forall (g : Flags -> bool) f',
             devshell_post k f f' -> g f' = true ->
             (devshell f' = false -> g f' = g f) ->
             g f = true \/ devshell f = true \/ devshellConsole f = true).
  { intros g f' (Hd & _ & _) Hg Hsame.
    destruct (devshell f') eqn:Ed.
    - symmetry in Hd. apply orb_true_iff in Hd. tauto.
    - left. rewrite <- Hsame; auto. }
  split; [intros m H|split; [intros v H|split; [intros p l H|
    split; [intros d H|split; [intros n H|intros h H]]]]].
  - destruct (run_assembly_calls w k args f _ H eq_refl)
      as (f' & Hin & (Hm & _) & _).
    in_assembled Hin. inversion Hin; subst. split; [exact Hm|].
    apply Z.eqb_neq. apply negb_true_iff. assumption.
  - destruct (run_assembly_calls w k args f _ H eq_refl)
      as (f' & Hin & (_ & _ & _ & _ & Hk & _) & _).
    in_assembled Hin. inversion Hin; subst. split; [exact Hk|].
    intros He. rewrite He in *. discriminate.
  - destruct (run_assembly_calls w k args f _ H eq_refl) as (f' & Hin & _).
    in_assembled Hin. inversion Hin; subst.
    split; [reflexivity|]. split; [reflexivity|].
    apply String.eqb_neq. apply negb_true_iff. assumption.
  - destruct (run_assembly_calls w k args f _ H eq_refl)
      as (f' & Hin & (_ & Hd & _) & _).
    in_assembled Hin. inversion Hin; subst.
    eexists. split; [|reflexivity]. rewrite <- Hd. assumption.
  - destruct (run_assembly_calls w k args f _ H eq_refl)
      as (f' & Hin & _ & Hp).
    in_assembled Hin. inversion Hin; subst. split; [reflexivity|].
    apply (Hflag cpuCountHost f' Hp); [assumption|].
    intros Hoff. destruct Hp as (_ & Heq & _). rewrite (Heq Hoff). reflexivity.
  - destruct (run_assembly_calls w k args f _ H eq_refl)
      as (f' & Hin & _ & Hp).
    in_assembled Hin. inversion Hin; subst. split; [reflexivity|].
    apply (Hflag usernet f' Hp); [assumption|].
    intros Hoff. destruct Hp as (_ & Heq & _). rewrite (Heq Hoff). reflexivity.
Qed.

Lemma settings_only_as_asked_witness :
  In (EvBuilderSet (Processors (-1)))
    (run_trace (runQemuExec calm fcos [] console_headless))
  /\ (-1 = -1)%Z
  /\ (cpuCountHost console_headless = true
      \/ devshell console_headless = true
      \/ devshellConsole console_headless = true).
Proof.
  assert (H : In (EvBuilderSet (Processors (-1)))
                (run_trace (runQemuExec calm fcos [] console_headless))).
  { vm_compute. repeat (first [left; reflexivity | right]). }
  split; [exact H|].
  exact (proj1 (proj2 (proj2 (proj2 (proj2
           (settings_only_as_asked calm fcos [] console_headless))))) _ H).
Defined.

(** ** Precedence of the option checks *)

Lemma early_checks (w : World) (k : Kola) (args : list string) (f : Flags) :
  let R := runQemuExec w k args f in
  (devshellConsole f = true -> is_empty (consoleFile f) = false ->
   rejected_early R "Cannot use console devshell and --console-to-file")
  /\ (devshellConsole f && negb (is_empty (consoleFile f)) = false ->
      devshell f || devshellConsole f = true ->
      directIgnition f = true ->
      rejected_early R "Cannot use devshell with direct ignition")
  /\ (devshellConsole f && negb (is_empty (consoleFile f)) = false ->
      devshell f || devshellConsole f = true ->
      directIgnition f = false ->
      is_empty (QEMUOptions_DiskImage k) && String.eqb (kolaPlatform k) "qemu"
      = true ->
      rejected_early R "No disk image provided")
  /\ (devshell f || devshellConsole f = false ->
      directIgnition f = true ->
      is_empty (ignition f) = true ->
      rejected_early R
        "Cannot use ignition-direct without a path to an Ignition config").
Proof.
  destruct f as [mem disks un cpu hn ign ka kn frags ro rw di fci pif dev dc cf].
  cbn [directIgnition devshell devshellConsole consoleFile ignition].
  cbv zeta. unfold rejected_early.
  unfold runQemuExec, body, prelude, devshellSetup, prepareConfig,
    bind, when, modifyFlags, getFlags, setFlags, return_, ret, defer, finish,
    initial.
  repeat split; intros; destruct dc, dev;
    cbn -[is_empty applyFragments mounts assemble drive] in *;
    try discriminate;
    repeat (first
              [ match goal with
                | H : ?b = _ |- context [if ?c then _ else _] =>
                    match c with context [b] => progress (rewrite H) end
                end
              | match goal with
                | |- context [if ?b then _ else _] => destruct b eqn:?
                end ];
            cbn -[is_empty applyFragments mounts assemble drive] in *);
    try discriminate; try congruence; try reflexivity.
Qed.

(** X4.  The option checks have a fixed precedence, and each rejects the run
    before anything is rendered, read or built.  First devshell-console
    with a console file; then a devshell flag with direct-ignition; then a
    devshell flag with no disk image on the qemu platform; then, without
    devshell, direct-ignition without an ignition path. *)
Theorem check_precedence (w : World) (k : Kola) (args : list string)
        (f : Flags) :
  let R := runQemuExec w k args f in
  (devshellConsole f = true -> consoleFile f <> EmptyString ->
   rejected_early R "Cannot use console devshell and --console-to-file")
  /\ (devshellConsole f = false \/ consoleFile f = EmptyString ->
      devshell f || devshellConsole f = true ->
      directIgnition f = true ->
      rejected_early R "Cannot use devshell with direct ignition")
  /\ (devshellConsole f = false \/ consoleFile f = EmptyString ->
      devshell f || devshellConsole f = true ->
      directIgnition f = false ->
      QEMUOptions_DiskImage k = EmptyString ->
      kolaPlatform k = "qemu" ->
      rejected_early R "No disk image provided")
  /\ (devshell f || devshellConsole f = false ->
      directIgnition f = true ->
      ignition f = EmptyString ->
      rejected_early R
        "Cannot use ignition-direct without a path to an Ignition config").
Proof.
  cbv zeta.
  destruct (early_checks w k args f) as (H1 & H2 & H3 & H4).
  assert (Hc : devshellConsole f = false \/ consoleFile f = EmptyString ->
               devshellConsole f && negb (is_empty (consoleFile f)) = false).
  { intros [-> | ->]; [reflexivity|]. apply andb_false_r. }
  split; [|split; [|split]].
  - intros Hdc Hcf. apply H1; [exact Hdc|]. apply String.eqb_neq. exact Hcf.
  - intros Hcf Hact Hd. apply H2; auto.
  - intros Hcf Hact Hd Himg Hq. apply H3; auto. rewrite Himg, Hq. reflexivity.
  - intros Hact Hd Hi. apply H4; auto. rewrite Hi. reflexivity.
Qed.

Lemma check_precedence_witness :
  devshellConsole console_to_file = true
  /\ consoleFile console_to_file <> EmptyString
  /\ rejected_early (runQemuExec calm fcos [] console_to_file)
       "Cannot use console devshell and --console-to-file".
Proof.
  assert (H1 : devshellConsole console_to_file = true) by reflexivity.
  assert (H2 : consoleFile console_to_file <> EmptyString) by discriminate.
  split; [exact H1|]. split; [exact H2|].
  exact (proj1 (check_precedence calm fcos [] console_to_file) H1 H2).
Defined.

(** ** The flag variables after a run *)

Lemma devshellSetup_off (k : Kola) (s : St) :
  devshell (flags s) = false -> devshellConsole (flags s) = false ->
  devshellSetup k s = (Next tt, s).
Proof.
  destruct s as [f c t d]. cbn [flags]. intros Hd Hc.
  unfold devshellSetup, bind, getFlags, when. cbn [flags].
  rewrite Hc. unfold ret. cbn [flags]. rewrite Hd. reflexivity.
Qed.

Lemma prelude_flags (w : World) (k : Kola) (args : list string) (f : Flags)
      (r : step unit) (s : St) :
  prelude w k args (initial f) = (r, s) ->
  exists r1 s1,
    devshellSetup k (mkSt f None [] [EvCancel]) = (r1, s1)
    /\ flags s = flags s1
    /\ (forall u, r = Next u -> r1 = Next tt).
Proof.
  intros H. prelude_inv H.
  - destruct Fcfg as (F2 & _). destruct Ffrag as (F3 & _).
    destruct Fmnt as (F4 & _). destruct Fasm as (F5 & _).
    eexists _, s1. split; [exact Edev|]. split; [congruence|].
    intros _ _.
    match goal with |- Next ?x = Next tt => destruct x; reflexivity end.
  - destruct Fcfg as (F2 & _). destruct Ffrag as (F3 & _).
    destruct Fmnt as (F4 & _).
    eexists _, s1. split; [exact Edev|]. split; [congruence|intros; congruence].
  - destruct Fcfg as (F2 & _). destruct Ffrag as (F3 & _).
    eexists _, s1. split; [exact Edev|]. split; [congruence|intros; congruence].
  - destruct Fcfg as (F2 & _).
    eexists _, s1. split; [exact Edev|]. split; [congruence|intros; congruence].
  - eexists _, s. split; [exact Edev|]. split; [reflexivity|intros; congruence].
Qed.

(** X5.  A run writes the flag variables in the devshell block only: the
    flags it only reads are the same afterwards, whatever the outcome, and
    without a devshell flag every flag variable is as it was. *)
Theorem flags_after_run (w : World) (k : Kola) (args : list string)
        (f : Flags) :
  same_inputs f (run_flags (runQemuExec w k args f))
  /\ (devshell f = false -> devshellConsole f = false ->
      run_flags (runQemuExec w k args f) = f).
Proof.
  destruct (run_extends w k args f) as (r & s & extra & P & _ & _ & Hf & _).
  rewrite Hf. split.
  - exact (prelude_inputs _ _ _ _ _ _ P).
  - intros Hd Hc.
    destruct (prelude_flags _ _ _ _ _ _ P) as (r1 & s1 & E & -> & _).
    rewrite devshellSetup_off in E by assumption.
    inversion E; subst. reflexivity.
Qed.

Lemma flags_after_run_witness :
  devshell headless = false
  /\ devshellConsole headless = false
  /\ run_flags (runQemuExec calm fcos [] headless) = headless.
Proof.
  assert (H1 : devshell headless = false) by reflexivity.
  assert (H2 : devshellConsole headless = false) by reflexivity.
  split; [exact H1|]. split; [exact H2|].
  exact (proj2 (flags_after_run calm fcos [] headless) H1 H2).
Defined.

(** ** Bind options, composed *)

Lemma count_append (sep : ascii) (a b : string) :
  GoStrings.count sep (a ++ b)
  = GoStrings.count sep a + GoStrings.count sep b.
Proof.
  induction a as [|c a IH]; cbn; [reflexivity|]. rewrite IH.
  destruct (Ascii.eqb c sep); reflexivity.
Qed.

Lemma cut_append (sep : ascii) (a b : string) :
  GoStrings.count sep a = 0 ->
  GoStrings.cut sep (a ++ String sep b) = Some (a, b).
Proof.
  induction a as [|c a IH]; cbn.
  - intros _. rewrite Ascii.eqb_refl. reflexivity.
  - destruct (Ascii.eqb c sep); [discriminate|].
    intros H. rewrite (IH H). reflexivity.
Qed.

Lemma parse_joined (src dest : string) :
  GoStrings.count ","%char src = 0 ->
  parseBindOpt (src ++ "," ++ dest) = (src, dest, None).
Proof.
  intros H. rewrite parseBindOpt_unfold.
  change (src ++ "," ++ dest)%string with (src ++ String ","%char dest)%string.
  rewrite (cut_append _ _ _ H). reflexivity.
Qed.

(** X6.  Joining a source that holds no comma and any destination with a
    comma, then parsing, gives the two back: the destination may hold
    commas, the source may be empty. *)
Theorem parseBindOpt_joined (src dest : string) :
  GoStrings.count ","%char src = 0 ->
  parseBindOpt (src ++ "," ++ dest) = (src, dest, None).
Proof. exact (parse_joined src dest). Qed.

Lemma parseBindOpt_joined_witness :
  GoStrings.count ","%char "/host/a" = 0
  /\ parseBindOpt ("/host/a" ++ "," ++ "/guest/a,b")
     = ("/host/a", "/guest/a,b", None).
Proof.
  assert (H : GoStrings.count ","%char "/host/a" = 0) by reflexivity.
  split; [exact H|]. exact (parseBindOpt_joined "/host/a" "/guest/a,b" H).
Defined.

(** ** Bind specs of a run that reaches the driver *)

Lemma builder_mounts_of_In (t : list Event) (src dest : string) (ro : bool) :
  In (src, dest, ro) (builder_mounts_of t) -> In (EvBuilderMount9p src dest ro) t.
Proof.
  unfold builder_mounts_of. intros H. apply in_flat_map in H.
  destruct H as (e & Hin & He). destruct e; cbn in He; try contradiction.
  destruct He as [He|[]]. inversion He; subst. exact Hin.
Qed.

Lemma conf_mounts_of_In (c : option Conf) (dest : string) (ro : bool) :
  In (dest, ro) (conf_mounts_of c) ->
  exists d, c = Some d /\ In (MountUnit dest ro) (conf_edits d).
Proof.
  destruct c as [d|]; cbn; [|contradiction]. intros H.
  apply in_flat_map in H. destruct H as (e & Hin & He).
  destruct e; cbn in He; try contradiction.
  destruct He as [He|[]]. inversion He; subst. eauto.
Qed.

Lemma parsed_all (binds : list string) (done : list (string * string)) :
  map parseBindOpt (firstn (List.length done) binds)
  = map (fun p => (fst p, snd p, None)) done ->
  List.length done = List.length binds ->
  forall b src dest,
    In b binds -> parseBindOpt b = (src, dest, None) -> In (src, dest) done.
Proof.
  intros Hm Hl b src dest Hin Hp.
  rewrite Hl, firstn_all in Hm.
  assert (Hx : In (src, dest, @None error) (map parseBindOpt binds)).
  { rewrite <- Hp. apply in_map. exact Hin. }
  rewrite Hm in Hx. apply in_map_iff in Hx.
  destruct Hx as ([a d] & Heq & Hd). cbn in Heq. inversion Heq; subst.
  exact Hd.
Qed.

(** Every bind spec of a run that reaches the driver was declared, to the
    builder and to the document, as [parseBindOpt] split it. *)
Lemma prelude_binds_declared (w : World) (k : Kola) (args : list string)
      (f : Flags) (u : unit) (s : St) :
  prelude w k args (initial f) = (Next u, s) ->
  forall (ro : bool) (b src dest : string),
    In b (if ro then bindro (flags s) else bindrw (flags s)) ->
    parseBindOpt b = (src, dest, None) ->
    In (EvBuilderMount9p src dest ro) (trace s)
    /\ exists c, config s = Some c /\ In (MountUnit dest ro) (conf_edits c).
Proof.
  intros P ro b src dest Hin Hp.
  destruct (prelude_declared _ _ _ _ _ _ P)
    as (dro & drw & (Hb & Hc & P1 & P2 & _) & Hfull).
  destruct (prelude_calls _ _ _ _ _ _ P) as (_ & Happ & _).
  destruct Hfull as (L1 & L2); [exists (EvAppend args); auto|].
  destruct ro.
  - pose proof (parsed_all _ _ P1 L1 _ _ _ Hin Hp) as Hd. split.
    + apply builder_mounts_of_In. rewrite Hb. apply in_or_app. left.
      apply (in_map (fun p => (fst p, snd p, true)) _ _ Hd).
    + apply conf_mounts_of_In. rewrite Hc. apply in_or_app. left.
      apply (in_map (fun p => (snd p, true)) _ _ Hd).
  - pose proof (parsed_all _ _ P2 L2 _ _ _ Hin Hp) as Hd. split.
    + apply builder_mounts_of_In. rewrite Hb. apply in_or_app. right.
      apply (in_map (fun p => (fst p, snd p, false)) _ _ Hd).
    + apply conf_mounts_of_In. rewrite Hc. apply in_or_app. right.
      apply (in_map (fun p => (snd p, false)) _ _ Hd).
Qed.

(** ** Devshell mounts *)

Lemma devshellSetup_binds (k : Kola) (s s' : St) (u : unit) :
  devshellSetup k s = (Next u, s') ->
  devshell (flags s) || devshellConsole (flags s) = true ->
  bindro (flags s')
  = bindro (flags s)
    ++ (if automounts k
        then [(Options_CosaWorkdir k ++ ",/var/mnt/workdir")%string] else [])
  /\ bindrw (flags s')
     = bindrw (flags s)
       ++ (if automounts k
           then [((Options_CosaWorkdir k ++ "/tmp") ++ ",/var/mnt/workdir-tmp")%string]
           else []).
Proof.
  destruct s as [f c t d]. destruct f.
  unfold devshellSetup, automounts, bind, when, modifyFlags, getFlags,
    setFlags, return_, ret. cbn -[GoStrings.Base GoStrings.HasPrefix is_empty].
  intros H Hact.
  repeat match type of H with
         | context [if ?b then _ else _] =>
             destruct b eqn:?;
             cbn -[GoStrings.Base GoStrings.HasPrefix is_empty] in H
         end;
    try discriminate; inversion H; subst; clear H;
    cbn -[GoStrings.Base GoStrings.HasPrefix is_empty] in *;
    try discriminate; rewrite ?app_nil_r; auto.
Qed.

(** X7.  In a devshell run that reaches the driver the bind lists are the
    given ones followed, when a working directory is configured and the
    image is not an rhcos one, by the working directory read-only on
    /var/mnt/workdir and its tmp subdirectory read-write on
    /var/mnt/workdir-tmp, and unchanged otherwise.  If the working directory
    holds no comma both are declared so to the builder and to the
    document. *)
Theorem devshell_automount (w : World) (k : Kola) (args : list string)
        (f : Flags) (u : unit) (s : St) :
  devshell f || devshellConsole f = true ->
  prelude w k args (initial f) = (Next u, s) ->
  let dir := Options_CosaWorkdir k in
  bindro (flags s)
  = bindro f ++ (if automounts k then [(dir ++ ",/var/mnt/workdir")%string] else [])
  /\ bindrw (flags s)
     = bindrw f
       ++ (if automounts k
           then [((dir ++ "/tmp") ++ ",/var/mnt/workdir-tmp")%string] else [])
  /\ (automounts k = true -> GoStrings.count ","%char dir = 0 ->
      In (EvBuilderMount9p dir "/var/mnt/workdir" true) (trace s)
      /\ In (EvBuilderMount9p (dir ++ "/tmp") "/var/mnt/workdir-tmp" false)
           (trace s)
      /\ exists c,
          config s = Some c
          /\ In (MountUnit "/var/mnt/workdir" true) (conf_edits c)
          /\ In (MountUnit "/var/mnt/workdir-tmp" false) (conf_edits c)).
Proof.
  intros Hact P. cbv zeta.
  destruct (prelude_flags _ _ _ _ _ _ P) as (r1 & s1 & E & Hf & Hn).
  rewrite (Hn u eq_refl) in E.
  destruct (devshellSetup_binds _ _ _ _ E Hact) as (Hro & Hrw).
  cbn [flags] in Hro, Hrw. rewrite Hf.
  split; [exact Hro|]. split; [exact Hrw|].
  intros Ha Hc. rewrite <- Hf in Hro, Hrw. rewrite Ha in Hro, Hrw.
  assert (P1 : parseBindOpt (Options_CosaWorkdir k ++ ",/var/mnt/workdir")
               = (Options_CosaWorkdir k, "/var/mnt/workdir", None))
    by exact (parse_joined _ "/var/mnt/workdir" Hc).
  assert (P2 : parseBindOpt ((Options_CosaWorkdir k ++ "/tmp") ++ ",/var/mnt/workdir-tmp")
               = ((Options_CosaWorkdir k ++ "/tmp")%string, "/var/mnt/workdir-tmp", None)).
  { apply (parse_joined _ "/var/mnt/workdir-tmp").
    rewrite count_append, Hc. reflexivity. }
  destruct (prelude_binds_declared _ _ _ _ _ _ P true _ _ _
              ltac:(cbn; rewrite Hro; apply in_or_app; right; left; reflexivity) P1)
    as (B1 & c & Hcfg & C1).
  destruct (prelude_binds_declared _ _ _ _ _ _ P false _ _ _
              ltac:(cbn; rewrite Hrw; apply in_or_app; right; left; reflexivity) P2)
    as (B2 & c' & Hcfg' & C2).
  split; [exact B1|]. split; [exact B2|].
  exists c. rewrite Hcfg in Hcfg'. inversion Hcfg'; subst. auto.
Qed.

Lemma devshell_automount_witness :
  devshell devshell_box || devshellConsole devshell_box = true
  /\ prelude calm fcos [] (initial devshell_box) = (Next tt, devshell_box_ready)
  /\ let dir := Options_CosaWorkdir fcos in
     bindro (flags devshell_box_ready)
     = bindro devshell_box
       ++ (if automounts fcos then [(dir ++ ",/var/mnt/workdir")%string] else [])
     /\ bindrw (flags devshell_box_ready)
        = bindrw devshell_box
          ++ (if automounts fcos
              then [((dir ++ "/tmp") ++ ",/var/mnt/workdir-tmp")%string] else [])
     /\ (automounts fcos = true -> GoStrings.count ","%char dir = 0 ->
         In (EvBuilderMount9p dir "/var/mnt/workdir" true)
           (trace devshell_box_ready)
         /\ In (EvBuilderMount9p (dir ++ "/tmp") "/var/mnt/workdir-tmp" false)
              (trace devshell_box_ready)
         /\ exists c,
             config devshell_box_ready = Some c
             /\ In (MountUnit "/var/mnt/workdir" true) (conf_edits c)
             /\ In (MountUnit "/var/mnt/workdir-tmp" false) (conf_edits c)).
Proof.
  assert (H1 : devshell devshell_box || devshellConsole devshell_box = true)
    by reflexivity.
  assert (H2 : prelude calm fcos [] (initial devshell_box)
               = (Next tt, devshell_box_ready)) by (vm_compute; reflexivity).
  split; [exact H1|]. split; [exact H2|].
  exact (devshell_automount calm fcos [] devshell_box tt devshell_box_ready
           H1 H2).
Defined.

(** ** Teardown in every run *)

Lemma mounts_creates (s s' : St) (r : step unit) :
  mounts s = (r, s') -> In EvNewBuilder (trace s').
Proof.
  unfold mounts. intros H.
  apply bind_inv in H.
  destruct H as [(a & s1 & E1 & H) | (x & E1 & _)]; [|discriminate].
  inversion E1; subst; clear E1.
  apply bind_inv in H.
  destruct H as [(a & s1 & E1 & H) | (x & E1 & _)]; [|discriminate].
  inversion E1; subst; clear E1.
  assert (Hgrow : forall s1 s2 : St,
             extends 2 s1 s2 -> In EvNewBuilder (trace s1) ->
             In EvNewBuilder (trace s2)).
  { intros s1 s2 (evs & -> & _) Hin. apply in_or_app. auto. }
  apply bind_inv in H.
  destruct H as [(f & s1 & E1 & H) | (x & E1 & _)]; [|discriminate].
  inversion E1; subst; clear E1. cbv beta in H.
  apply bind_inv in H.
  destruct H as [(a1 & s1 & E1 & H) | (x & E1 & _)].
  - destruct (mountLoop_frame _ _ _ _ _ E1) as (_ & _ & X1 & _).
    apply bind_inv in H.
    destruct H as [(f2 & s2 & E2 & H) | (x & E2 & _)]; [|discriminate].
    inversion E2; subst; clear E2.
    destruct (mountLoop_frame _ _ _ _ _ H) as (_ & _ & X2 & _).
    apply (Hgrow _ _ X2). apply (Hgrow _ _ X1).
    cbn. apply in_or_app. right. cbn. auto.
  - destruct (mountLoop_frame _ _ _ _ _ E1) as (_ & _ & X1 & _).
    apply (Hgrow _ _ X1). cbn. apply in_or_app. right. cbn. auto.
Qed.

Lemma prelude_builder (w : World) (k : Kola) (args : list string) (f : Flags)
      (r : step unit) (s : St) :
  prelude w k args (initial f) = (r, s) ->
  (deferred s = [EvCancel] /\ ~ In EvNewBuilder (trace s)
   /\ exists x, r = Stop x)
  \/ (deferred s = [EvBuilderClose; EvCancel] /\ In EvNewBuilder (trace s)).
Proof.
  intros H.
  assert (Hlow : forall s1 s3 : St,
             trace s1 = [] -> extends 1 s1 s3 -> ~ In EvNewBuilder (trace s3)).
  { intros s1 s3 T1 (evs & T & Hall) Hin. rewrite T, T1 in Hin. cbn in Hin.
    rewrite Forall_forall in Hall. specialize (Hall _ Hin). discriminate. }
  prelude_inv H.
  - right. destruct Fdev as (_ & _ & D1 & _). destruct Fcfg as (_ & D2 & _).
    destruct Ffrag as (_ & D3 & _). destruct Fmnt as (_ & D4 & _).
    destruct Fasm as (_ & _ & D5 & evs & T5 & _).
    cbn [flags config trace deferred] in *. split; [congruence|].
    rewrite T5. apply in_or_app. left. eapply mounts_creates. exact Emnt.
  - right. destruct Fdev as (_ & _ & D1 & _). destruct Fcfg as (_ & D2 & _).
    destruct Ffrag as (_ & D3 & _). destruct Fmnt as (_ & D4 & _).
    cbn [flags config trace deferred] in *. split; [congruence|].
    eapply mounts_creates. exact Emnt.
  - left. destruct Fdev as (_ & T1 & D1 & _). destruct Fcfg as (_ & D2 & X2 & _).
    destruct Ffrag as (_ & D3 & T3 & _).
    cbn [flags config trace deferred] in *. split; [congruence|].
    split; [|eauto]. rewrite T3. eauto.
  - left. destruct Fdev as (_ & T1 & D1 & _). destruct Fcfg as (_ & D2 & X2 & _).
    cbn [flags config trace deferred] in *. split; [congruence|].
    split; [|eauto]. eauto.
  - left. destruct Fdev as (_ & T1 & D1 & _).
    cbn [flags config trace deferred] in *. split; [congruence|].
    split; [|eauto]. rewrite T1. intros [].
Qed.

Lemma handover_no_exec (s : St) : ~ In EvExec (handover s).
Proof.
  unfold handover. destruct (config s); cbn; [intuition discriminate|].
  destruct (directIgnition (flags s)); cbn; intuition discriminate.
Qed.

Lemma prelude_no_exec (k : Kola) (t : list Event) :
  Forall (prelude_call k) t -> ~ In EvExec t.
Proof.
  intros Hall Hin. apply (prelude_call_low _ _ _ Hall) in Hin.
  cbn in Hin. lia.
Qed.

(** X8.  Every run ends with its deferred calls and nothing else of that
    kind occurs before them: the cancel alone when no builder was created;
    the builder's [Close] and the cancel when a builder was created and no
    instance was launched; [Destroy], [Close] and the cancel when [Exec]
    returned an instance.  So the context is always cancelled last, a
    created builder is always closed, and [Destroy] is never called without
    a launched instance. *)
Theorem teardown_order (w : World) (k : Kola) (args : list string) (f : Flags) :
  exists t d,
    run_trace (runQemuExec w k args f) = t ++ d
    /\ Forall (fun e => phase_of e <= 4) t
    /\ let launched :=
         exists pre post,
           t = pre ++ EvExec :: post /\ Exec w (pre ++ [EvExec]) = Ok tt in
       (d = [EvCancel] /\ ~ In EvNewBuilder t)
       \/ (d = [EvBuilderClose; EvCancel] /\ In EvNewBuilder t /\ ~ launched)
       \/ (d = [EvDestroy; EvBuilderClose; EvCancel] /\ In EvNewBuilder t
           /\ launched).
Proof.
  cbv zeta.
  destruct (prelude w k args (initial f)) as [[u|x] s] eqn:P.
  - destruct (prelude_trace _ _ _ _ _ _ P) as (Hall & _).
    destruct (prelude_builder _ _ _ _ _ _ P)
      as [(_ & _ & y & Hy) | (_ & Hnew)]; [discriminate|].
    assert (Hlow : Forall (fun e => phase_of e <= 4) (trace s)).
    { eapply Forall_impl; [|exact Hall]. intros e (He & _). lia. }
    assert (Hh : Forall (fun e => phase_of e <= 4) (handover s)).
    { unfold handover. destruct (config s); [repeat constructor|].
      destruct (directIgnition (flags s)); repeat constructor. }
    destruct (run_after_prelude _ _ _ _ _ _ P) as (_ & _ & Hrun).
    destruct (devshell (flags s) && negb (devshellConsole (flags s))).
    + destruct Hrun as (T & _).
      exists (trace s ++ [EvRunDevShellSSH (config s)]), [EvBuilderClose; EvCancel].
      split; [rewrite T, <- app_assoc; reflexivity|]. split.
      { apply Forall_app. split; [exact Hlow|repeat constructor]. }
      right. left. split; [reflexivity|]. split.
      { apply in_or_app. auto. }
      intros (pre & post & Ht & _).
      assert (Hin : In EvExec (trace s ++ [EvRunDevShellSSH (config s)])).
      { rewrite Ht. apply in_or_app. right. cbn. auto. }
      apply in_app_or in Hin. destruct Hin as [Hin|Hin].
      * exact (prelude_no_exec _ _ Hall Hin).
      * cbn in Hin. intuition discriminate.
    + cbv zeta in Hrun.
      assert (Hno : ~ In EvExec (trace s ++ handover s)).
      { intros Hin. apply in_app_or in Hin. destruct Hin as [Hin|Hin].
        - exact (prelude_no_exec _ _ Hall Hin).
        - exact (handover_no_exec _ Hin). }
      destruct (Exec w (trace s ++ handover s ++ [EvExec])) eqn:Ex.
      * destruct Hrun as (T & _).
        exists (trace s ++ handover s ++ [EvExec; wait_call (flags s)]),
          [EvDestroy; EvBuilderClose; EvCancel].
        split; [rewrite T, <- !app_assoc; reflexivity|]. split.
        { apply Forall_app. split; [exact Hlow|].
          apply Forall_app. split; [exact Hh|].
          unfold wait_call. destruct (propagateInitramfsFailure (flags s));
            repeat constructor. }
        right. right. split; [reflexivity|]. split.
        { apply in_or_app. auto. }
        exists (trace s ++ handover s), [wait_call (flags s)].
        split; [rewrite <- app_assoc; reflexivity|].
        rewrite <- app_assoc. destruct a. exact Ex.
      * destruct Hrun as (T & _).
        exists (trace s ++ handover s ++ [EvExec]), [EvBuilderClose; EvCancel].
        split; [rewrite T, <- !app_assoc; reflexivity|]. split.
        { apply Forall_app. split; [exact Hlow|].
          apply Forall_app. split; [exact Hh|repeat constructor]. }
        right. left. split; [reflexivity|]. split.
        { apply in_or_app. auto. }
        intros (pre & post & Ht & Hok).
        rewrite app_assoc in Ht. change [EvExec] with (EvExec :: nil) in Ht.
        symmetry in Ht. apply split_unique in Ht; [|exact Hno|intros []].
        destruct Ht as (-> & _). rewrite <- app_assoc in Hok. congruence.
  - rewrite run_unfold, P. cbn.
    destruct (prelude_trace _ _ _ _ _ _ P) as (Hall & _).
    assert (Hlow : Forall (fun e => phase_of e <= 4) (trace s)).
    { eapply Forall_impl; [|exact Hall]. intros e (He & _). lia. }
    exists (trace s), (deferred s). split; [reflexivity|]. split; [exact Hlow|].
    destruct (prelude_builder _ _ _ _ _ _ P) as [(D & Hn & _) | (D & Hn)].
    + left. auto.
    + right. left. split; [exact D|]. split; [exact Hn|].
      intros (pre & post & Ht & _).
      apply (prelude_no_exec _ _ Hall). rewrite Ht.
      apply in_or_app. right. cbn. auto.
Qed.

(** ** The driver, case by case *)

(** X9.  With devshell set and devshell-console not, a run that reaches the
    driver makes one more call, [runDevShellSSH] with the [config] pointer,
    and returns what it returns; it does not itself set the configuration on
    the builder, launch, wait or destroy.  The document passed holds an
    auto-login. *)
Theorem devshell_ssh_delegates (w : World) (k : Kola) (args : list string)
        (f : Flags) (u : unit) (s : St) :
  devshell f = true -> devshellConsole f = false ->
  prelude w k args (initial f) = (Next u, s) ->
  runQemuExec w k args f
  = mkRun (Returned (io_error (runDevShellSSH w
                                 (trace s ++ [EvRunDevShellSSH (config s)])
                                 (config s))))
      (flags s) (config s)
      (trace s ++ [EvRunDevShellSSH (config s); EvBuilderClose; EvCancel])
  /\ Forall (fun e => phase_of e <= 3) (trace s)
  /\ exists c, config s = Some c /\ In AutoLogin (conf_edits c).
Proof.
  intros Hd Hc P.
  destruct (prelude_next _ _ _ _ _ _ P) as ((Hdev & _ & Hon) & _ & Hcfg).
  pose proof (prelude_inputs _ _ _ _ _ _ P)
    as (_ & _ & _ & _ & _ & _ & _ & _ & Hdc & _).
  destruct (prelude_trace _ _ _ _ _ _ P) as (Hall & _).
  rewrite Hd in Hdev. cbn in Hdev.
  destruct (Hon Hdev) as (Hdi & _). rewrite Hdi in Hcfg.
  destruct (run_after_prelude _ _ _ _ _ _ P) as (Hf & Hg & Hrun).
  rewrite Hdev, Hdc, Hc in Hrun. cbn [andb negb] in Hrun.
  destruct Hrun as (T & R). split.
  - destruct (runQemuExec w k args f) as [r fl cf tr]. cbn in *. congruence.
  - split.
    + eapply Forall_impl; [|exact Hall]. intros e (He & _). exact He.
    + destruct Hcfg as (c & Hcs & Ha). eauto.
Qed.

Lemma devshell_ssh_delegates_witness :
  devshell devshell_only = true
  /\ devshellConsole devshell_only = false
  /\ prelude calm fcos [] (initial devshell_only) = (Next tt, devshell_only_ready)
  /\ exists c, config devshell_only_ready = Some c /\ In AutoLogin (conf_edits c).
Proof.
  assert (H1 : devshell devshell_only = true) by reflexivity.
  assert (H2 : devshellConsole devshell_only = false) by reflexivity.
  assert (H3 : prelude calm fcos [] (initial devshell_only)
               = (Next tt, devshell_only_ready)) by (vm_compute; reflexivity).
  split; [exact H1|]. split; [exact H2|]. split; [exact H3|].
  exact (proj2 (proj2 (devshell_ssh_delegates calm fcos [] devshell_only tt
                         devshell_only_ready H1 H2 H3))).
Defined.

(** X10.  When [builder.Exec()] fails, the run returns its error as it is,
    right after the call: no wait is made and nothing is destroyed; the
    builder is closed and the context cancelled. *)
Theorem launch_refused (w : World) (k : Kola) (args : list string)
        (f : Flags) (u : unit) (s : St) (e : string) :
  prelude w k args (initial f) = (Next u, s) ->
  devshell f && negb (devshellConsole f) = false ->
  Exec w (trace s ++ handover s ++ [EvExec]) = Fail e ->
  runQemuExec w k args f
  = mkRun (Returned (Some (External e))) (flags s) (config s)
      (trace s ++ handover s ++ [EvExec; EvBuilderClose; EvCancel])
  /\ driver_calls (run_trace (runQemuExec w k args f)) = []
  /\ occurrences is_destroy (run_trace (runQemuExec w k args f)) = 0.
Proof.
  intros P Hssh Hex.
  destruct (prelude_next _ _ _ _ _ _ P) as ((Hdev & _) & _).
  pose proof (prelude_inputs _ _ _ _ _ _ P)
    as (_ & _ & _ & _ & _ & _ & _ & _ & Hdc & _).
  destruct (prelude_trace _ _ _ _ _ _ P) as (Hall & _).
  destruct (run_after_prelude _ _ _ _ _ _ P) as (Hf & Hg & Hrun).
  rewrite Hdev, Hdc in Hrun.
  replace ((devshell f || devshellConsole f) && negb (devshellConsole f))
    with (devshell f && negb (devshellConsole f)) in Hrun
    by (destruct (devshell f), (devshellConsole f); reflexivity).
  rewrite Hssh in Hrun. cbv zeta in Hrun. rewrite Hex in Hrun.
  destruct Hrun as (T & R).
  assert (Ht : run_trace (runQemuExec w k args f)
               = trace s ++ handover s ++ [EvExec; EvBuilderClose; EvCancel]).
  { rewrite T, <- !app_assoc. reflexivity. }
  split; [|split].
  - destruct (runQemuExec w k args f) as [r fl cf tr]. cbn in *. congruence.
  - rewrite Ht, !driver_calls_app, (no_driver_before _ _ Hall),
      driver_calls_handover. reflexivity.
  - unfold occurrences. rewrite Ht, !filter_app.
    rewrite (no_destroy_before_driver _ _ Hall).
    unfold handover. destruct (config s); [reflexivity|].
    destruct (directIgnition (flags s)); reflexivity.
Qed.

Lemma launch_refused_witness :
  prelude no_kvm fcos [] (initial headless) = (Next tt, headless_ready)
  /\ devshell headless && negb (devshellConsole headless) = false
  /\ Exec no_kvm (trace headless_ready ++ handover headless_ready ++ [EvExec])
     = Fail "no kvm"
  /\ occurrences is_destroy (run_trace (runQemuExec no_kvm fcos [] headless)) = 0.
Proof.
  assert (H1 : prelude no_kvm fcos [] (initial headless)
               = (Next tt, headless_ready)) by (vm_compute; reflexivity).
  assert (H2 : devshell headless && negb (devshellConsole headless) = false)
    by reflexivity.
  assert (H3 : Exec no_kvm (trace headless_ready ++ handover headless_ready
                            ++ [EvExec]) = Fail "no kvm") by reflexivity.
  split; [exact H1|]. split; [exact H2|]. split; [exact H3|].
  exact (proj2 (proj2 (launch_refused no_kvm fcos [] headless tt headless_ready
                         "no kvm" H1 H2 H3))).
Defined.

(** X11.  A run calls [builder.Exec()] at most once, and only after the
    whole assembly, the pass-through arguments included, and never besides
    [runDevShellSSH]. *)
Theorem launch_after_assembly (w : World) (k : Kola) (args : list string)
        (f : Flags) :
  let t := run_trace (runQemuExec w k args f) in
  occurrences is_exec t <= 1
  /\ (In EvExec t ->
      (exists pre post,
         t = pre ++ EvExec :: post
         /\ In (EvAppend args) pre
         /\ ~ In EvExec pre /\ ~ In EvExec post)
      /\ forall c, ~ In (EvRunDevShellSSH c) t).
Proof.
  cbv zeta.
  assert (Hcount : forall k t, Forall (prelude_call k) t -> filter is_exec t = []).
  { intros k0 t Hall. induction Hall as [|e t (He & _) _ IH]; cbn; [reflexivity|].
    destruct e; cbn in *; try exact IH. lia. }
  assert (Hhand : forall s, filter is_exec (handover s) = []).
  { intros s. unfold handover. destruct (config s); [reflexivity|].
    destruct (directIgnition (flags s)); reflexivity. }
  assert (Hnossh : forall k t c, Forall (prelude_call k) t ->
                                 ~ In (EvRunDevShellSSH c) t).
  { intros k0 t c Hall Hin. apply (prelude_call_low _ _ _ Hall) in Hin.
    cbn in Hin. lia. }
  destruct (prelude w k args (initial f)) as [[u|x] s] eqn:P.
  - destruct (prelude_trace _ _ _ _ _ _ P) as (Hall & _).
    destruct (prelude_calls _ _ _ _ _ _ P) as (_ & Happ & _).
    destruct (run_after_prelude _ _ _ _ _ _ P) as (_ & _ & Hrun).
    destruct (devshell (flags s) && negb (devshellConsole (flags s))).
    + destruct Hrun as (-> & _). split.
      * unfold occurrences. rewrite filter_app, (Hcount _ _ Hall). cbn. lia.
      * intros Hin. exfalso. apply in_app_or in Hin. destruct Hin as [Hin|Hin].
        -- exact (prelude_no_exec _ _ Hall Hin).
        -- cbn in Hin. intuition discriminate.
    + cbv zeta in Hrun.
      assert (Hsplit : forall tail,
                 ~ In EvExec tail ->
                 (forall c, ~ In (EvRunDevShellSSH c) tail) ->
                 filter is_exec tail = [] ->
                 let t := (trace s ++ handover s ++ [EvExec]) ++ tail in
                 occurrences is_exec t <= 1
                 /\ (In EvExec t ->
                     (exists pre post,
                        t = pre ++ EvExec :: post
                        /\ In (EvAppend args) pre
                        /\ ~ In EvExec pre /\ ~ In EvExec post)
                     /\ forall c, ~ In (EvRunDevShellSSH c) t)).
      { intros tail Htail Hssh Hf. cbv zeta. split.
        - unfold occurrences.
          rewrite !filter_app, (Hcount _ _ Hall), Hhand, Hf. cbn. lia.
        - intros _. split.
          + exists (trace s ++ handover s), tail.
            split; [rewrite <- !app_assoc; reflexivity|].
            split; [apply in_or_app; auto|]. split; [|exact Htail].
            intros Hin. apply in_app_or in Hin. destruct Hin as [Hin|Hin].
            * exact (prelude_no_exec _ _ Hall Hin).
            * exact (handover_no_exec _ Hin).
          + intros c Hin. apply in_app_or in Hin. destruct Hin as [Hin|Hin].
            * apply in_app_or in Hin. destruct Hin as [Hin|Hin].
              -- exact (Hnossh _ _ _ Hall Hin).
              -- apply in_app_or in Hin. destruct Hin as [Hin|Hin].
                 ++ unfold handover in Hin. destruct (config s); cbn in Hin;
                      [intuition discriminate|].
                    destruct (directIgnition (flags s)); cbn in Hin;
                      intuition discriminate.
                 ++ cbn in Hin. intuition discriminate.
            * exact (Hssh c Hin). }
      destruct (Exec w _); destruct Hrun as (-> & _); apply Hsplit;
        unfold wait_call; destruct (propagateInitramfsFailure (flags s));
        cbn; try reflexivity; intuition discriminate.
  - rewrite run_unfold, P. cbn.
    destruct (prelude_trace _ _ _ _ _ _ P) as (Hall & Hd).
    assert (Hno : ~ In EvExec (trace s ++ deferred s)).
    { intros Hin. apply in_app_or in Hin. destruct Hin as [Hin|Hin].
      - exact (prelude_no_exec _ _ Hall Hin).
      - exact (deferred_no_exec _ Hd Hin). }
    split.
    + unfold occurrences. rewrite filter_app, (Hcount _ _ Hall).
      destruct Hd as [-> | ->]; cbn; lia.
    + intros Hin. destruct (Hno Hin).
Qed.

(** ** How a run can end *)

(** X12.  No run dereferences a nil [config]: [c.AddAutoLogin()] and
    [config.Mount9p()] are reached only behind the direct-ignition checks,
    with a rendered document, so every run returns, with an error or with
    nil. *)
Theorem no_nil_dereference (w : World) (k : Kola) (args : list string)
        (f : Flags) :
  run_result (runQemuExec w k args f) <> Panicked.
Proof.
  destruct (runQemuExec_returns w k args f) as (err & ->). discriminate.
Qed.

(** X13.  A run returns nil only through a driver, after the whole
    assembly: either [runDevShellSSH] returned nil, or the instance was
    launched, the wait on it returned nil, and it was destroyed. *)
Theorem nil_only_through_driver (w : World) (k : Kola) (args : list string)
        (f : Flags) :
  run_result (runQemuExec w k args f) = Returned None ->
  exists pre,
    Forall (fun e => phase_of e <= 3) pre
    /\ In (EvAppend args) pre
    /\ ((exists c,
           run_trace (runQemuExec w k args f)
           = pre ++ [EvRunDevShellSSH c; EvBuilderClose; EvCancel]
           /\ runDevShellSSH w (pre ++ [EvRunDevShellSSH c]) c = Ok tt)
        \/ (exists hand wait,
              run_trace (runQemuExec w k args f)
              = pre ++ hand ++ [EvExec; wait; EvDestroy; EvBuilderClose; EvCancel]
              /\ Exec w (pre ++ hand ++ [EvExec]) = Ok tt
              /\ ((wait = EvWait
                   /\ Wait w ((pre ++ hand ++ [EvExec]) ++ [EvWait]) = Ok tt)
                  \/ (wait = EvWaitAll
                      /\ WaitAll w ((pre ++ hand ++ [EvExec]) ++ [EvWaitAll])
                         = Ok tt)))).
Proof.
  intros Hnil.
  destruct (prelude w k args (initial f)) as [[u|x] s] eqn:P.
  - destruct (prelude_trace _ _ _ _ _ _ P) as (Hall & _).
    destruct (prelude_calls _ _ _ _ _ _ P) as (_ & Happ & _).
    destruct (run_after_prelude _ _ _ _ _ _ P) as (_ & _ & Hrun).
    exists (trace s). split.
    { eapply Forall_impl; [|exact Hall]. intros e (He & _). exact He. }
    split; [exact Happ|].
    destruct (devshell (flags s) && negb (devshellConsole (flags s))).
    + left. destruct Hrun as (T & R). exists (config s). split; [exact T|].
      rewrite R in Hnil.
      destruct (runDevShellSSH w _ (config s)) as [[]|e]; [reflexivity|].
      cbn in Hnil. discriminate.
    + right. cbv zeta in Hrun.
      destruct (Exec w (trace s ++ handover s ++ [EvExec])) as [[]|e] eqn:Ex;
        destruct Hrun as (T & R).
      * exists (handover s), (wait_call (flags s)). split.
        -- rewrite T, <- !app_assoc. reflexivity.
        -- split; [exact Ex|]. rewrite R in Hnil.
           unfold wait_call, wait_answer in *.
           destruct (propagateInitramfsFailure (flags s)).
           ++ right. split; [reflexivity|].
              destruct (WaitAll w _) as [[]|e]; [reflexivity|discriminate].
           ++ left. split; [reflexivity|].
              destruct (Wait w _) as [[]|e]; [reflexivity|discriminate].
      * rewrite R in Hnil. discriminate.
  - destruct (prelude_returns _ _ _ _ _ _ P) as (e & ->).
    rewrite run_unfold, P in Hnil. cbn in Hnil. discriminate.
Qed.

Lemma nil_only_through_driver_witness :
  run_result (runQemuExec calm fcos [] headless) = Returned None
  /\ exists pre,
       Forall (fun e => phase_of e <= 3) pre
       /\ In (EvAppend []) pre
       /\ ((exists c,
              run_trace (runQemuExec calm fcos [] headless)
              = pre ++ [EvRunDevShellSSH c; EvBuilderClose; EvCancel]
              /\ runDevShellSSH calm (pre ++ [EvRunDevShellSSH c]) c = Ok tt)
           \/ (exists hand wait,
                 run_trace (runQemuExec calm fcos [] headless)
                 = pre ++ hand ++ [EvExec; wait; EvDestroy; EvBuilderClose; EvCancel]
                 /\ Exec calm (pre ++ hand ++ [EvExec]) = Ok tt
                 /\ ((wait = EvWait
                      /\ Wait calm ((pre ++ hand ++ [EvExec]) ++ [EvWait]) = Ok tt)
                     \/ (wait = EvWaitAll
                         /\ WaitAll calm ((pre ++ hand ++ [EvExec]) ++ [EvWaitAll])
                            = Ok tt)))).
Proof.
  assert (H : run_result (runQemuExec calm fcos [] headless) = Returned None)
    by (vm_compute; reflexivity).
  split; [exact H|]. exact (nil_only_through_driver calm fcos [] headless H).
Defined.

(** ** Fragments in a run *)

Lemma applyFragments_cases (s : St) :
  applyFragments s =
  if Nat.ltb 0 (List.length (ignitionFragments (flags s))) then
    if directIgnition (flags s) then
      (Stop (Returned (Some (Errorf "Cannot use fragments with direct ignition"))), s)
    else
      match renderFragments (ignitionFragments (flags s)) (config s) with
      | (Next (Some e), c) =>
          (Stop (Returned (Some (Wrapf e "rendering fragments"))),
           mkSt (flags s) c (trace s) (deferred s))
      | (Next None, c) => (Next tt, mkSt (flags s) c (trace s) (deferred s))
      | (Stop x, c) => (Stop x, mkSt (flags s) c (trace s) (deferred s))
      end
  else (Next tt, s).
Proof.
  destruct s as [f c t d].
  unfold applyFragments, bind, getFlags, when, onConfig, return_, ret.
  cbn -[renderFragments Nat.ltb].
  destruct (Nat.ltb 0 _); [|reflexivity].
  destruct (directIgnition f); [reflexivity|].
  cbn [flags config trace deferred].
  destruct (renderFragments (ignitionFragments f) c) as [[[e|]|x] c'];
    reflexivity.
Qed.

(** The fragments block falls through only when every fragment is
    "autologin". *)
Lemma applyFragments_next (s s' : St) (u : unit) :
  applyFragments s = (Next u, s') ->
  Forall (eq "autologin") (ignitionFragments (flags s))
  /\ forall c, config s = Some c ->
       config s'
       = Some (mkConf (conf_source c) (conf_v2 c)
                 (conf_edits c
                  ++ repeat AutoLogin (List.length (ignitionFragments (flags s))))).
Proof.
  rewrite applyFragments_cases.
  destruct (Nat.ltb 0 (List.length (ignitionFragments (flags s)))) eqn:El.
  - destruct (directIgnition (flags s)); [discriminate|].
    destruct (config s) as [c|] eqn:Ec.
    + destruct (renderFragments_doc (ignitionFragments (flags s)) c)
        as (n & err & Hr & Hc).
      rewrite Hr.
      destruct Hc as [(-> & Hall & ->) | (? & ? & ? & _ & _ & _ & _ & ->)];
        [|discriminate].
      intros H. inversion H; subst; clear H. cbn. split; [exact Hall|].
      intros c0 Hc0. inversion Hc0; subst. reflexivity.
    + destruct (ignitionFragments (flags s)) as [|x rest]; [discriminate|].
      cbn [renderFragments]. destruct (String.eqb x "autologin"); discriminate.
  - intros H. inversion H; subst; clear H.
    destruct (ignitionFragments (flags s')) as [|x rest]; [|discriminate].
    split; [constructor|].
    intros [a b e] Hc. rewrite Hc. cbn. rewrite app_nil_r. reflexivity.
Qed.

Lemma prepareConfig_stop (w : World) (k : Kola) (s s' : St) (x : result) :
  prepareConfig w k s = (Stop x, s') -> config s' = config s.
Proof.
  rewrite prepareConfig_cases. cbv zeta.
  destruct (directIgnition (flags s)).
  - destruct (is_empty (ignition (flags s))); intros H; inversion H; subst;
      reflexivity.
  - destruct (is_empty (ignition (flags s))).
    + destruct (Render w _ EmptyIgnition _); intros H; inversion H; subst;
        reflexivity.
    + destruct (ReadFile w _ _); [|intros H; inversion H; subst; reflexivity].
      destruct (Render w _ _ _); intros H; inversion H; subst; reflexivity.
Qed.

(** The fragments when the fragments block is reached: the given ones, and
    after the devshell block the appended "autologin". *)
Lemma fragments_kept (k : Kola) (f f' : Flags) (x : string) :
  devshell_post k f f' ->
  In x (ignitionFragments f) -> In x (ignitionFragments f').
Proof.
  intros (_ & Hoff & Hon) Hin.
  destruct (devshell f') eqn:Ed.
  - destruct (Hon eq_refl) as (_ & _ & _ & -> & _). apply in_or_app. auto.
  - rewrite (Hoff eq_refl). exact Hin.
Qed.

Lemma phase_one_extends (s s' : St) :
  extends 1 s s' -> trace s = [] -> Forall (fun e => phase_of e = 1) (trace s').
Proof.
  intros (evs & T & Hall) Hs. rewrite T, Hs. exact Hall.
Qed.

Lemma prelude_unknown_fragment (w : World) (k : Kola) (args : list string)
      (f : Flags) (r : step unit) (s : St) (bad : string) :
  prelude w k args (initial f) = (r, s) ->
  In bad (ignitionFragments f) -> bad <> "autologin" ->
  (exists e, r = Stop (Returned (Some e)))
  /\ deferred s = [EvCancel]
  /\ Forall (fun e => phase_of e = 1) (trace s)
  /\ (forall c, config s = Some c ->
      exists pre bad' post,
        ignitionFragments (flags s) = pre ++ bad' :: post
        /\ Forall (eq "autologin") pre /\ bad' <> "autologin"
        /\ r = Stop (Returned (Some (Wrapf (Errorf ("Unknown fragment: " ++ bad'))
                                       "rendering fragments")))
        /\ conf_edits c = repeat AutoLogin (List.length pre)).
Proof.
  intros P Hin Hbad.
  assert (Hno : forall s2 s3 u,
             In bad (ignitionFragments (flags s2)) ->
             applyFragments s2 = (Next u, s3) -> False).
  { intros s2 s3 u Hi E. destruct (applyFragments_next _ _ _ E) as (Hall & _).
    rewrite Forall_forall in Hall. apply Hbad. symmetry. exact (Hall _ Hi). }
  assert (Hret : exists e, r = Stop (Returned (Some e)) \/ exists u, r = Next u).
  { destruct r as [u|x].
    - exists (Errorf EmptyString). right. eauto.
    - destruct (prelude_returns _ _ _ _ _ _ P) as (e & ->). exists e. auto. }
  prelude_inv P.
  - exfalso. destruct Fdev as (_ & _ & _ & _ & P1). destruct Fcfg as (F2 & _).
    specialize (P1 _ eq_refl). cbn [flags config trace deferred] in *.
    eapply Hno; [|exact Efrag]. rewrite F2. eapply fragments_kept; eauto.
  - exfalso. destruct Fdev as (_ & _ & _ & _ & P1). destruct Fcfg as (F2 & _).
    specialize (P1 _ eq_refl). cbn [flags config trace deferred] in *.
    eapply Hno; [|exact Efrag]. rewrite F2. eapply fragments_kept; eauto.
  - match goal with Hx : _ = Stop _ |- _ => subst end.
    destruct Hret as (e & [He | (u & Hu)]); [|discriminate].
    destruct Fdev as (C1 & T1 & D1 & S1 & P1).
    destruct Fcfg as (F2 & D2 & X2 & C2).
    destruct Ffrag as (F3 & D3 & T3 & _).
    specialize (P1 _ eq_refl). specialize (C2 _ eq_refl). cbn [flags config trace deferred] in *.
    split; [eauto|]. split; [congruence|]. split.
    { rewrite T3. apply (phase_one_extends _ _ X2). exact T1. }
    intros c Hc.
    rewrite applyFragments_cases in Efrag.
    destruct (Nat.ltb 0 (List.length (ignitionFragments (flags s2))));
      [|discriminate].
    destruct S1 as (_ & _ & _ & _ & _ & Hdi & _).
    destruct (directIgnition (flags s2)) eqn:Ed.
    + rewrite F2 in Ed. rewrite Ed in C2. inversion Efrag; subst. congruence.
    + rewrite F2 in Ed. rewrite Ed in C2. destruct C2 as (c2 & Hc2 & He2).
      destruct (renderFragments_doc (ignitionFragments (flags s2)) c2)
        as (n & err & Hr & Hcase).
      rewrite Hc2, Hr in Efrag.
      destruct Hcase as [(-> & _) | (pre & bad' & post & Hfr & Hpre & Hb & -> & ->)];
        [discriminate|].
      inversion Efrag; subst; clear Efrag. cbn [flags config trace deferred] in *.
      inversion Hc; subst; clear Hc. cbn.
      exists pre, bad', post. rewrite He2. cbn. auto.
  - match goal with Hx : _ = Stop _ |- _ => subst end.
    destruct Hret as (e & [He | (u & Hu)]); [|discriminate].
    destruct Fdev as (C1 & T1 & D1 & _).
    destruct Fcfg as (F2 & D2 & X2 & _).
    pose proof (prepareConfig_stop _ _ _ _ _ Ecfg) as C2. cbn [flags config trace deferred] in *.
    split; [eauto|]. split; [congruence|]. split.
    { apply (phase_one_extends _ _ X2). exact T1. }
    intros c Hc. congruence.
  - match goal with Hx : _ = Stop _ |- _ => subst end.
    destruct Hret as (e & [He | (u & Hu)]); [|discriminate].
    destruct Fdev as (C1 & T1 & D1 & _). cbn [flags config trace deferred] in *.
    split; [eauto|]. split; [congruence|]. split.
    { rewrite T1. constructor. }
    intros c Hc. congruence.
Qed.

(** X14.  A run given a fragment other than "autologin" ends in an error
    before a builder exists: its trace holds file reads and renderings,
    then the deferred cancel.  When a document was rendered, the error is
    the "Unknown fragment" error of the first such fragment, wrapped as
    "rendering fragments", and the document holds one auto-login for each
    fragment before it. *)
Theorem unknown_fragment_rejected (w : World) (k : Kola) (args : list string)
        (f : Flags) (bad : string) :
  In bad (ignitionFragments f) -> bad <> "autologin" ->
  (exists e, run_result (runQemuExec w k args f) = Returned (Some e))
  /\ (exists t, run_trace (runQemuExec w k args f) = t ++ [EvCancel]
                /\ Forall (fun e => phase_of e = 1) t)
  /\ (forall c, run_config (runQemuExec w k args f) = Some c ->
      exists pre bad' post,
        ignitionFragments (run_flags (runQemuExec w k args f))
        = pre ++ bad' :: post
        /\ Forall (eq "autologin") pre /\ bad' <> "autologin"
        /\ run_result (runQemuExec w k args f)
           = Returned (Some (Wrapf (Errorf ("Unknown fragment: " ++ bad'))
                               "rendering fragments"))
        /\ conf_edits c = repeat AutoLogin (List.length pre)).
Proof.
  intros Hin Hbad.
  destruct (prelude w k args (initial f)) as [r s] eqn:P.
  destruct (prelude_unknown_fragment _ _ _ _ _ _ _ P Hin Hbad)
    as ((e & ->) & Hd & Ht & Hc).
  rewrite run_unfold, P. unfold finish. cbn [run_result run_trace run_config run_flags].
  split; [eauto|]. split.
  - exists (trace s). rewrite Hd. auto.
  - intros c Hcs. destruct (Hc c Hcs) as (pre & bad' & post & H1 & H2 & H3 & H4 & H5).
    exists pre, bad', post. inversion H4; subst. auto.
Qed.

Lemma unknown_fragment_rejected_witness :
  In "motd" (ignitionFragments with_motd) /\ "motd" <> "autologin"
  /\ exists e, run_result (runQemuExec calm fcos [] with_motd) = Returned (Some e).
Proof.
  assert (H1 : In "motd" (ignitionFragments with_motd))
    by (simpl; auto).
  assert (H2 : "motd" <> "autologin") by discriminate.
  split; [exact H1|]. split; [exact H2|].
  exact (proj1 (unknown_fragment_rejected calm fcos [] with_motd "motd" H1 H2)).
Defined.

(** ** Bind specs that do not parse *)

Lemma parseBindOpt_error (b : string) (e : error) :
  snd (parseBindOpt b) = Some e ->
  e = Errorf "malformed bind option, required: SRC,DEST".
Proof.
  rewrite parseBindOpt_unfold.
  destruct (GoStrings.cut ","%char b) as [[x y]|]; cbn; congruence.
Qed.

Lemma parseBindOpt_no_comma (b : string) :
  GoStrings.count ","%char b = 0 -> snd (parseBindOpt b) <> None.
Proof.
  intros H. apply cut_none in H. rewrite parseBindOpt_unfold, H. discriminate.
Qed.

Lemma parsed_none (binds : list string) (done : list (string * string)) :
  map parseBindOpt (firstn (List.length done) binds)
  = map (fun p => (fst p, snd p, None)) done ->
  List.length done = List.length binds ->
  forall b, In b binds -> snd (parseBindOpt b) = None.
Proof.
  intros Hm Hl b Hin. rewrite Hl, firstn_all in Hm.
  assert (Hx : In (parseBindOpt b) (map parseBindOpt binds))
    by (apply in_map; exact Hin).
  rewrite Hm in Hx. apply in_map_iff in Hx. destruct Hx as (p & <- & _).
  reflexivity.
Qed.

Lemma mountLoop_stop (readOnly : bool) (binds : list string) (s s' : St)
      (x : result) :
  mountLoop readOnly binds s = (Stop x, s') ->
  (config s = None -> directIgnition (flags s) = true) ->
  x = Returned (Some (Errorf (if directIgnition (flags s)
                              then "Cannot use mounts with direct ignition"
                              else "malformed bind option, required: SRC,DEST"))).
Proof.
  intros H Hc. destruct (directIgnition (flags s)) eqn:Ed.
  - rewrite (mountLoop_direct _ _ _ Ed) in H.
    destruct binds; inversion H; subst; reflexivity.
  - destruct (config s) as [c|] eqn:Ec; [|specialize (Hc eq_refl); discriminate].
    destruct (mountLoop_declares _ _ _ _ _ _ H Ed Ec)
      as (done & _ & _ & _ & _ & Hs).
    destruct (Hs x eq_refl) as (b & e & _ & He & ->).
    rewrite (parseBindOpt_error _ _ He). reflexivity.
Qed.

Lemma mounts_stop (s s' : St) (x : result) :
  mounts s = (Stop x, s') ->
  (config s = None -> directIgnition (flags s) = true) ->
  x = Returned (Some (Errorf (if directIgnition (flags s)
                              then "Cannot use mounts with direct ignition"
                              else "malformed bind option, required: SRC,DEST"))).
Proof.
  unfold mounts. intros H Hc.
  apply bind_inv in H.
  destruct H as [(a & s1 & E1 & H) | (y & E1 & _)]; [|discriminate].
  inversion E1; subst; clear E1.
  apply bind_inv in H.
  destruct H as [(a & s1 & E1 & H) | (y & E1 & _)]; [|discriminate].
  inversion E1; subst; clear E1.
  apply bind_inv in H.
  destruct H as [(f & s1 & E1 & H) | (y & E1 & _)]; [|discriminate].
  inversion E1; subst; clear E1. cbv beta in H.
  apply bind_inv in H.
  destruct H as [(a1 & s1 & E1 & H) | (y & E1 & Hy)].
  - pose proof (mountLoop_frame _ _ _ _ _ E1) as (F1 & _ & _ & N1).
    apply mountLoop_stop in H.
    + cbn [flags config trace deferred] in *. rewrite F1 in H. exact H.
    + cbn [flags config trace deferred] in *. rewrite F1.
      intros Hn. apply Hc. apply N1. exact Hn.
  - inversion Hy; subst. apply mountLoop_stop in E1; [exact E1|exact Hc].
Qed.

Lemma mounts_next_parsed (s s' : St) (u : unit) :
  mounts s = (Next u, s') ->
  (config s = None -> directIgnition (flags s) = true) ->
  forall b, In b (bindro (flags s) ++ bindrw (flags s)) ->
            snd (parseBindOpt b) = None.
Proof.
  intros H Hc b Hin. destruct (directIgnition (flags s)) eqn:Ed.
  - destruct (mounts_direct _ _ _ Ed H) as (_ & _ & Hn).
    destruct (Hn u eq_refl) as (R1 & R2). rewrite R1, R2 in Hin. destruct Hin.
  - destruct (config s) as [c|] eqn:Ec; [|specialize (Hc eq_refl); discriminate].
    destruct (mounts_declares _ _ _ _ H Ed Ec)
      as (ro & rw & _ & _ & P1 & P2 & _ & Hn).
    destruct (Hn u eq_refl) as (L1 & L2).
    apply in_app_or in Hin. destruct Hin as [Hin|Hin].
    + exact (parsed_none _ _ P1 L1 _ Hin).
    + exact (parsed_none _ _ P2 L2 _ Hin).
Qed.

Lemma binds_kept (k : Kola) (f f' : Flags) (b : string) :
  devshell_post k f f' ->
  In b (bindro f ++ bindrw f) -> In b (bindro f' ++ bindrw f').
Proof.
  intros (_ & Hoff & Hon) Hin.
  destruct (devshell f') eqn:Ed.
  - destruct (Hon eq_refl) as (_ & _ & _ & _ & _ & (a1 & ->) & (a2 & ->)).
    apply in_app_or in Hin. apply in_or_app.
    destruct Hin as [Hin|Hin]; [left|right]; apply in_or_app; auto.
  - rewrite (Hoff eq_refl). exact Hin.
Qed.

Lemma phase_two_extends (s1 s2 s3 s4 : St) :
  trace s1 = [] -> extends 1 s1 s2 -> trace s3 = trace s2 -> extends 2 s3 s4 ->
  Forall (fun e => phase_of e <= 2) (trace s4).
Proof.
  intros T1 (e1 & T2 & H1) T3 (e2 & T4 & H2).
  rewrite T4, T3, T2, T1. cbn. apply Forall_app. split.
  - eapply Forall_impl; [|exact H1]. cbv beta. intros e ->. lia.
  - eapply Forall_impl; [|exact H2]. cbv beta. intros e ->. lia.
Qed.

Lemma prelude_malformed_bind (w : World) (k : Kola) (args : list string)
      (f : Flags) (r : step unit) (s : St) (b : string) :
  prelude w k args (initial f) = (r, s) ->
  In b (bindro f ++ bindrw f) -> GoStrings.count ","%char b = 0 ->
  (exists e, r = Stop (Returned (Some e)))
  /\ Forall (fun e => phase_of e <= 2) (trace s)
  /\ (deferred s = [EvBuilderClose; EvCancel] ->
      r = Stop (Returned (Some (Errorf
            (if directIgnition f
             then "Cannot use mounts with direct ignition"
             else "malformed bind option, required: SRC,DEST"))))).
Proof.
  intros P Hin Hbad.
  assert (Hret : exists e, r = Stop (Returned (Some e)) \/ exists u, r = Next u).
  { destruct r as [u|x].
    - exists (Errorf EmptyString). right. eauto.
    - destruct (prelude_returns _ _ _ _ _ _ P) as (e & ->). exists e. auto. }
  assert (Hlow : forall t, Forall (fun e => phase_of e = 1) t ->
                           Forall (fun e => phase_of e <= 2) t).
  { intros t Ht. eapply Forall_impl; [|exact Ht]. cbv beta. intros e ->. lia. }
  prelude_inv P.
  - exfalso.
    destruct Fdev as (_ & _ & _ & _ & P1). destruct Fcfg as (F2 & _ & _ & C2).
    destruct Ffrag as (F3 & _ & _ & _ & S3).
    specialize (P1 _ eq_refl). specialize (C2 _ eq_refl).
    cbn [flags config trace deferred] in *.
    eapply (parseBindOpt_no_comma _ Hbad).
    eapply mounts_next_parsed; [exact Emnt| |].
    + rewrite F3. intros Hn.
      destruct (directIgnition (flags s2)) eqn:Ed; [reflexivity|].
      rewrite F2 in Ed. rewrite Ed in C2.
      destruct C2 as (c & Hc2 & _). destruct (S3 c Hc2) as (n & Hc3 & _).
      congruence.
    + rewrite F3, F2. eapply binds_kept; eauto.
  - match goal with Hx : _ = Stop _ |- _ => subst end.
    destruct Hret as (e & [He | (u & Hu)]); [|discriminate].
    destruct Fdev as (C1 & T1 & D1 & S1 & P1).
    destruct Fcfg as (F2 & D2 & X2 & C2).
    destruct Ffrag as (F3 & D3 & T3 & _ & S3).
    destruct Fmnt as (F4 & D4 & X4 & _).
    specialize (C2 _ eq_refl). cbn [flags config trace deferred] in *.
    split; [eauto|]. split; [exact (phase_two_extends _ _ _ _ T1 X2 T3 X4)|].
    intros _. f_equal.
    destruct S1 as (_ & _ & _ & _ & _ & Hdi & _).
    rewrite <- Hdi, <- F2, <- F3.
    eapply mounts_stop; [exact Emnt|].
    rewrite F3. intros Hn.
    destruct (directIgnition (flags s2)) eqn:Ed; [reflexivity|].
    rewrite F2 in Ed. rewrite Ed in C2.
    destruct C2 as (c & Hc2 & _). destruct (S3 c Hc2) as (n & Hc3 & _).
    congruence.
  - match goal with Hx : _ = Stop _ |- _ => subst end.
    destruct Hret as (e & [He | (u & Hu)]); [|discriminate].
    destruct Fdev as (C1 & T1 & D1 & _).
    destruct Fcfg as (F2 & D2 & X2 & _).
    destruct Ffrag as (F3 & D3 & T3 & _).
    cbn [flags config trace deferred] in *.
    split; [eauto|]. split.
    + apply Hlow. rewrite T3. apply (phase_one_extends _ _ X2). exact T1.
    + intros Hd. congruence.
  - match goal with Hx : _ = Stop _ |- _ => subst end.
    destruct Hret as (e & [He | (u & Hu)]); [|discriminate].
    destruct Fdev as (C1 & T1 & D1 & _).
    destruct Fcfg as (F2 & D2 & X2 & _).
    cbn [flags config trace deferred] in *.
    split; [eauto|]. split.
    + apply Hlow. apply (phase_one_extends _ _ X2). exact T1.
    + intros Hd. congruence.
  - match goal with Hx : _ = Stop _ |- _ => subst end.
    destruct Hret as (e & [He | (u & Hu)]); [|discriminate].
    destruct Fdev as (C1 & T1 & D1 & _). cbn [flags config trace deferred] in *.
    split; [eauto|]. split.
    + rewrite T1. constructor.
    + intros Hd. congruence.
Qed.

(** X15.  A run given a bind spec that holds no comma ends in an error
    without assembling or launching anything: besides the deferred calls
    its trace holds only reads, renderings, the creation of the builder and
    the mounts of the specs before.  Once the builder exists the error is
    "malformed bind option, required: SRC,DEST", or under direct-ignition
    "Cannot use mounts with direct ignition". *)
Theorem malformed_bind_rejected (w : World) (k : Kola) (args : list string)
        (f : Flags) (b : string) :
  In b (bindro f ++ bindrw f) -> GoStrings.count ","%char b = 0 ->
  (exists e, run_result (runQemuExec w k args f) = Returned (Some e))
  /\ Forall (fun e => phase_of e <= 2 \/ phase_of e = 5)
       (run_trace (runQemuExec w k args f))
  /\ (In EvNewBuilder (run_trace (runQemuExec w k args f)) ->
      run_result (runQemuExec w k args f)
      = Returned (Some (Errorf
          (if directIgnition f
           then "Cannot use mounts with direct ignition"
           else "malformed bind option, required: SRC,DEST")))).
Proof.
  intros Hin Hbad.
  destruct (prelude w k args (initial f)) as [r s] eqn:P.
  destruct (prelude_malformed_bind _ _ _ _ _ _ _ P Hin Hbad)
    as ((e & ->) & Ht & Hb).
  destruct (prelude_trace _ _ _ _ _ _ P) as (_ & Hd).
  rewrite run_unfold, P. unfold finish.
  cbn [run_result run_trace run_config run_flags].
  split; [eauto|]. split.
  - apply Forall_app. split.
    + eapply Forall_impl; [|exact Ht]. cbv beta. auto.
    + destruct Hd as [-> | ->];
        repeat (constructor; [right; reflexivity|]); constructor.
  - intros Hnb.
    destruct (prelude_builder _ _ _ _ _ _ P) as [(D1 & Hno & _) | (D2 & _)].
    + exfalso. apply in_app_or in Hnb. destruct Hnb as [Hnb|Hnb]; [auto|].
      rewrite D1 in Hnb. cbn in Hnb. intuition discriminate.
    + specialize (Hb D2). inversion Hb; subst. reflexivity.
Qed.

Lemma malformed_bind_rejected_witness :
  In "/host/a" (bindro bind_no_dest ++ bindrw bind_no_dest)
  /\ GoStrings.count ","%char "/host/a" = 0
  /\ exists e, run_result (runQemuExec calm fcos [] bind_no_dest)
               = Returned (Some e).
Proof.
  assert (H1 : In "/host/a" (bindro bind_no_dest ++ bindrw bind_no_dest))
    by (simpl; auto).
  assert (H2 : GoStrings.count ","%char "/host/a" = 0) by reflexivity.
  split; [exact H1|]. split; [exact H2|].
  exact (proj1 (malformed_bind_rejected calm fcos [] bind_no_dest "/host/a" H1 H2)).
Defined.

(** ** The document handed over *)

Lemma prelude_document (w : World) (k : Kola) (args : list string) (f : Flags)
      (u : unit) (s : St) :
  prelude w k args (initial f) = (Next u, s) ->
  directIgnition f = false ->
  exists src ro rw,
    config s
    = Some (mkConf src (IsIgnitionV2 k)
              (repeat AutoLogin (List.length (ignitionFragments (flags s)))
               ++ confMounts true ro ++ confMounts false rw))
    /\ (if is_empty (ignition f) then src = EmptyIgnition
        else exists buf,
            ReadFile w [EvReadFile (ignition f)] (ignition f) = Ok buf
            /\ src = Ignition buf)
    /\ Forall (eq "autologin") (ignitionFragments (flags s))
    /\ map parseBindOpt (bindro (flags s)) = map (fun p => (fst p, snd p, None)) ro
    /\ map parseBindOpt (bindrw (flags s)) = map (fun p => (fst p, snd p, None)) rw.
Proof.
  intros P Hd. prelude_inv P; try discriminate.
  destruct Fdev as (C1 & T1 & D1 & S1 & _).
  destruct Fcfg as (F2 & _).
  destruct Ffrag as (F3 & _).
  destruct Fmnt as (F4 & _).
  destruct Fasm as (F5 & C5 & _).
  destruct S1 as (_ & _ & Hig & _ & _ & Hdi & _).
  cbn [flags config trace deferred] in *.
  assert (Hsrc : exists src,
             config s2 = Some (mkConf src (IsIgnitionV2 k) [])
             /\ (if is_empty (ignition f) then src = EmptyIgnition
                 else exists buf,
                     ReadFile w [EvReadFile (ignition f)] (ignition f) = Ok buf
                     /\ src = Ignition buf)).
  { rewrite prepareConfig_cases in Ecfg. cbv zeta in Ecfg.
    rewrite Hdi, Hd, Hig, T1 in Ecfg. cbn [app] in Ecfg.
    destruct (is_empty (ignition f)).
    - destruct (Render w _ EmptyIgnition _); inversion Ecfg; subst.
      eexists. split; reflexivity.
    - destruct (ReadFile w _ _) as [buf|e] eqn:Er; [|discriminate].
      destruct (Render w _ _ _); inversion Ecfg; subst.
      eexists. split; [reflexivity|]. exists buf. auto. }
  destruct Hsrc as (src & Hc2 & Hsrc).
  destruct (applyFragments_next _ _ _ Efrag) as (Hall & Hc3).
  specialize (Hc3 _ Hc2). cbn [conf_source conf_v2 conf_edits app] in Hc3.
  assert (Hd3 : directIgnition (flags s3) = false) by congruence.
  destruct (mounts_declares _ _ _ _ Emnt Hd3 Hc3)
    as (ro & rw & _ & Hc4 & P1 & P2 & _ & Hn).
  destruct (Hn _ eq_refl) as (L1 & L2).
  rewrite L1, firstn_all in P1. rewrite L2, firstn_all in P2.
  cbn [conf_source conf_v2 conf_edits] in Hc4.
  exists src, ro, rw. rewrite C5, Hc4, F5, F4, F3.
  split; [reflexivity|]. split; [exact Hsrc|]. split; [exact Hall|].
  rewrite <- F3. auto.
Qed.

(** X16.  Without direct-ignition, the document of a run that reaches the
    driver is the rendering of the empty configuration, or of what was read
    from the ignition file, with one auto-login for each fragment, then one
    mount for each read-only bind spec, then one for each read-write one,
    in the order given; that document is what the run hands to
    [builder.SetConfig] or, in an SSH devshell, to [runDevShellSSH]. *)
Theorem document_handed_over (w : World) (k : Kola) (args : list string)
        (f : Flags) (u : unit) (s : St) :
  prelude w k args (initial f) = (Next u, s) ->
  directIgnition f = false ->
  exists src ro rw,
    let doc :=
      mkConf src (IsIgnitionV2 k)
        (repeat AutoLogin (List.length (ignitionFragments (run_flags
                                          (runQemuExec w k args f))))
         ++ confMounts true ro ++ confMounts false rw) in
    run_config (runQemuExec w k args f) = Some doc
    /\ (if is_empty (ignition f) then src = EmptyIgnition
        else exists buf,
            ReadFile w [EvReadFile (ignition f)] (ignition f) = Ok buf
            /\ src = Ignition buf)
    /\ map parseBindOpt (bindro (run_flags (runQemuExec w k args f)))
       = map (fun p => (fst p, snd p, None)) ro
    /\ map parseBindOpt (bindrw (run_flags (runQemuExec w k args f)))
       = map (fun p => (fst p, snd p, None)) rw
    /\ (if devshell (run_flags (runQemuExec w k args f))
           && negb (devshellConsole f)
        then In (EvRunDevShellSSH (Some doc)) (run_trace (runQemuExec w k args f))
        else In (EvSetConfig doc) (run_trace (runQemuExec w k args f))).
Proof.
  intros P Hd.
  destruct (prelude_document _ _ _ _ _ _ P Hd)
    as (src & ro & rw & Hc & Hsrc & _ & P1 & P2).
  pose proof (prelude_inputs _ _ _ _ _ _ P)
    as (_ & _ & _ & _ & _ & _ & _ & _ & Hdc & _).
  destruct (run_after_prelude _ _ _ _ _ _ P) as (Hf & Hg & Hrun).
  exists src, ro, rw. cbv zeta. rewrite Hf, Hg.
  split; [exact Hc|]. split; [exact Hsrc|]. split; [exact P1|].
  split; [exact P2|].
  rewrite Hdc in Hrun.
  destruct (devshell (flags s) && negb (devshellConsole f)).
  - destruct Hrun as (-> & _). rewrite Hc. apply in_or_app. right. cbn. auto.
  - cbv zeta in Hrun.
    assert (Hh : handover s = [EvSetConfig
                   (mkConf src (IsIgnitionV2 k)
                      (repeat AutoLogin (List.length (ignitionFragments (flags s)))
                       ++ confMounts true ro ++ confMounts false rw))]).
    { unfold handover. rewrite Hc. reflexivity. }
    destruct (Exec w _); destruct Hrun as (-> & _); rewrite Hh;
      apply in_or_app; left; apply in_or_app; right; cbn; auto.
Qed.

Lemma document_handed_over_witness :
  prelude calm fcos [] (initial full_document) = (Next tt, full_document_ready)
  /\ directIgnition full_document = false
  /\ exists src ro rw,
       let doc :=
         mkConf src (IsIgnitionV2 fcos)
           (repeat AutoLogin (List.length (ignitionFragments (run_flags
                                             (runQemuExec calm fcos [] full_document))))
            ++ confMounts true ro ++ confMounts false rw) in
       run_config (runQemuExec calm fcos [] full_document) = Some doc
       /\ (if is_empty (ignition full_document) then src = EmptyIgnition
           else exists buf,
               ReadFile calm [EvReadFile (ignition full_document)]
                 (ignition full_document) = Ok buf
               /\ src = Ignition buf)
       /\ map parseBindOpt (bindro (run_flags (runQemuExec calm fcos [] full_document)))
          = map (fun p => (fst p, snd p, None)) ro
       /\ map parseBindOpt (bindrw (run_flags (runQemuExec calm fcos [] full_document)))
          = map (fun p => (fst p, snd p, None)) rw
       /\ (if devshell (run_flags (runQemuExec calm fcos [] full_document))
              && negb (devshellConsole full_document)
           then In (EvRunDevShellSSH (Some doc))
                  (run_trace (runQemuExec calm fcos [] full_document))
           else In (EvSetConfig doc)
                  (run_trace (runQemuExec calm fcos [] full_document))).
Proof.
  assert (H1 : prelude calm fcos [] (initial full_document)
               = (Next tt, full_document_ready)) by (vm_compute; reflexivity).
  assert (H2 : directIgnition full_document = false) by reflexivity.
  split; [exact H1|]. split; [exact H2|].
  exact (document_handed_over calm fcos [] full_document tt
           full_document_ready H1 H2).
Defined.

(** ** Fragments in two parts *)

(** X17.  Rendering a list of fragments is rendering its first part and, if
    that returned nil, the rest on the document as the first part left it;
    an error of the first part is the error of the whole, and the rest is
    not looked at. *)
Theorem renderFragments_app (xs ys : list string) (c : option Conf) :
  renderFragments (xs ++ ys) c
  = match renderFragments xs c with
    | (Next None, c') => renderFragments ys c'
    | stopped => stopped
    end.
Proof.
  revert c. induction xs as [|x xs IH]; intros c; cbn [app renderFragments].
  - reflexivity.
  - destruct (String.eqb x "autologin"); [|reflexivity].
    destruct c as [d|]; [apply IH|reflexivity].
Qed.
